(** * FoodLang AI backend: request governance and retrieval core

    A shallow embedding of [backend/main.py]: the sliding-window rate
    limiter, the health monitor with its alert cooldown, the cost ledger
    and the retrieval-augmented translation pipeline, followed by the
    properties of the specification that these definitions settle.

    Conventions.
    - [time.time()] and [datetime.utcnow()] are inputs of the functions
      that read them (arguments [now], [utcnow]); a reading is an exact
      rational number of seconds since the epoch, a window or a cooldown a
      number of seconds.
    - Python [float] arithmetic on counts, ratios and costs is modelled by
      exact rationals ([Q]); the comparisons the code makes are between a
      quotient of small integers, or a clock difference, and a constant.
    - A Python [str] holding user text is the sequence of its code points
      ([list N]); dictionary keys, endpoint names and status tags are
      [string]s.
    - Global mutable objects ([rate_limit_storage], [state],
      [health_monitor]) are explicit state that every function returns. *)

From Stdlib Require Import ZArith QArith Qround Lia Lqa List Bool.
From stdpp Require Import base option list sorting gmap strings.

Local Open Scope Z_scope.

(** ** Configuration (class [Config]) *)

Record Config := {
  OPENAI_API_KEY : string;
  RATE_LIMIT_REQUESTS : Z;
  RATE_LIMIT_WINDOW : Z;
  EMBEDDING_DIMENSIONS : nat;
  TOP_K_RETRIEVAL : nat
}.

(** The values [Config] takes when the environment overrides nothing. *)
Definition config : Config := {|
  OPENAI_API_KEY := "";
  RATE_LIMIT_REQUESTS := 100;
  RATE_LIMIT_WINDOW := 3600;
  EMBEDDING_DIMENSIONS := 1536;
  TOP_K_RETRIEVAL := 3
|}.

(** ** Numbers

    Exact rationals stand for the floats of the source: a sum, a quotient
    or a rounding below is the exact one, where the program's carries the
    error of binary floating point. *)

Definition Qltb (x y : Q) : bool :=
  match (x ?= y)%Q with Lt => true | _ => false end.

(** Python's [round(x)] on the exact value: to nearest, ties to even. *)
Definition round_half_even (x : Q) : Z :=
  let f := Qfloor x in
  match (x - inject_Z f ?= 1 # 2)%Q with
  | Lt => f
  | Gt => f + 1
  | Eq => if Z.even f then f else f + 1
  end.

(** [round(x, 6)] of the exact value; the source rounds the float it has
    computed, which can fall on the other side of a tie. *)
Definition round6 (x : Q) : Q :=
  (inject_Z (round_half_even (x * 1000000)) / 1000000)%Q.

(** ** Text

    A [str] is the list of its code points.  Literals are written as
    UTF-8 strings and decoded. *)

Abbreviation text := (list N).

Local Open Scope N_scope.

Fixpoint decode_utf8 (bytes : list N) : text :=
  match bytes with
  | [] => []
  | b0 :: rest =>
      if b0 <? 128 then b0 :: decode_utf8 rest
      else if b0 <? 224 then
        match rest with
        | b1 :: rest1 => (b0 mod 32 * 64 + b1 mod 64) :: decode_utf8 rest1
        | _ => []
        end
      else if b0 <? 240 then
        match rest with
        | b1 :: b2 :: rest2 =>
            (b0 mod 16 * 4096 + b1 mod 64 * 64 + b2 mod 64) :: decode_utf8 rest2
        | _ => []
        end
      else
        match rest with
        | b1 :: b2 :: b3 :: rest3 =>
            (b0 mod 8 * 262144 + b1 mod 64 * 4096 + b2 mod 64 * 64 + b3 mod 64)
              :: decode_utf8 rest3
        | _ => []
        end
  end.

Fixpoint bytes_of_string (s : string) : list N :=
  match s with
  | EmptyString => []
  | String a s' => Ascii.N_of_ascii a :: bytes_of_string s'
  end.

Definition utf8 (s : string) : text := decode_utf8 (bytes_of_string s).

(** [str.isspace] for one character. *)
Definition isspace (c : N) : bool :=
  ((9 <=? c) && (c <=? 13)) || ((28 <=? c) && (c <=? 32))
  || (c =? 133) || (c =? 160) || (c =? 5760)
  || ((8192 <=? c) && (c <=? 8202)) || (c =? 8232) || (c =? 8233)
  || (c =? 8239) || (c =? 8287) || (c =? 12288).

Fixpoint lstrip (t : text) : text :=
  match t with
  | [] => []
  | c :: t' => if isspace c then lstrip t' else t
  end.

(** [str.strip()] *)
Definition strip (t : text) : text := rev (lstrip (rev (lstrip t))).

(** [str(n)] for a non-negative integer. *)
Fixpoint digits (fuel n : nat) (acc : text) : text :=
  match fuel with
  | O => acc
  | S fuel' =>
      let acc' := (48 + N.of_nat (n mod 10)) :: acc in
      if (n / 10 =? 0)%nat then acc' else digits fuel' (n / 10) acc'
  end.

Definition str_of_nat (n : nat) : text := digits (S n) n [].

(** [sep.join(lines)] *)
Fixpoint join (sep : text) (lines : list text) : text :=
  match lines with
  | [] => []
  | [l] => l
  | l :: ls => l ++ sep ++ join sep ls
  end.

(** [detect_language] *)
Definition is_arabic (c : N) : bool := (1536 <=? c) && (c <=? 1791).

Definition is_ascii_alpha (c : N) : bool :=
  ((65 <=? c) && (c <=? 90)) || ((97 <=? c) && (c <=? 122)).

Local Open Scope Z_scope.

Definition count_chars (p : N → bool) (t : text) : Z :=
  Z.of_nat (length (List.filter p t)).

Definition detect_language (t : text) : string :=
  let arabic_chars := count_chars is_arabic t in
  let english_chars := count_chars is_ascii_alpha t in
  let total_chars := arabic_chars + english_chars in
  if total_chars =? 0 then "unknown"
  else
    let arabic_ratio := (inject_Z arabic_chars / inject_Z total_chars)%Q in
    if Qltb (7 # 10) arabic_ratio then "arabic"
    else if Qltb arabic_ratio (3 # 10) then "english"
    else "mixed".

(** ** Rate limiter (class [RateLimiter]) *)

Module RateLimiter.

(** [rate_limit_storage = defaultdict(lambda: deque())]: a missing key
    reads as the empty deque, and reading it creates the entry.  The
    deque holds the [time.time()] readings of the admitted requests. *)
Abbreviation storage := (gmap string (list Q)).

(** [while requests and requests[0] < now - window: requests.popleft()] *)
Fixpoint clean_old (cutoff : Q) (requests : list Q) : list Q :=
  match requests with
  | [] => []
  | t :: rest => if Qltb t cutoff then clean_old cutoff rest else requests
  end.

(** [f"{client_ip}:{endpoint}"] *)
Definition make_key (client_ip endpoint : string) : string :=
  (client_ip +:+ ":" +:+ endpoint)%string.

Definition is_allowed (cfg : Config) (now : Q) (client_ip endpoint : string)
    (limit window : option Z) (st : storage) : bool * storage :=
  let limit := default (RATE_LIMIT_REQUESTS cfg) limit in
  let window := default (RATE_LIMIT_WINDOW cfg) window in
  let key := make_key client_ip endpoint in
  let requests := clean_old (now - inject_Z window) (default [] (st !! key)) in
  if Z.of_nat (length requests) >=? limit
  then (false, <[key := requests]> st)
  else (true, <[key := requests ++ [now]]> st).

(** A sequence of admission checks for one key, one per clock reading. *)
Fixpoint checks (cfg : Config) (client_ip endpoint : string)
    (limit window : option Z) (times : list Q) (st : storage)
    : list bool * storage :=
  match times with
  | [] => ([], st)
  | now :: later =>
      let '(r, st1) := is_allowed cfg now client_ip endpoint limit window st in
      let '(rs, st2) := checks cfg client_ip endpoint limit window later st1 in
      (r :: rs, st2)
  end.

End RateLimiter.

(** ** Application state (class [AppState]) and the outside world *)

(** One glossary row: the columns [english], [arabic] and [combined]. *)
Record Row := { english : text; arabic : text; combined : text }.

(** A [faiss.IndexFlatL2]: its dimension [d] and the stored vectors in
    insertion order. *)
Record IndexFlatL2 := { index_d : nat; index_xb : list (list Q) }.

(** [state.cost_tracker] *)
Record CostTracker := {
  embedding_tokens : Z;
  completion_tokens : Z;
  embedding_requests : Z;
  completion_requests : Z
}.

(** The fields of [state] that the pipeline and the monitor read
    ([metadata] is display data only and is left out). *)
Record AppState := {
  index : option IndexFlatL2;
  glossary : option (list Row);
  initialized : bool;
  cost_tracker : CostTracker
}.

(** Requests that leave the process through the OpenAI [client]. *)
Inductive Request :=
  | EmbeddingsCreate (input : text)
  | ChatCompletionsCreate (prompt : text).

(** An entry of [data/cost_log.json] (its wall-clock stamp left out). *)
Record LogEntry := {
  log_endpoint : string;
  log_request_type : string;
  log_tokens_used : Z;
  log_cost : Q;
  log_session_total_cost : Q
}.

(** Everything a pipeline call can change: the global [state], the list of
    requests sent to the backends so far (oldest first) and the usage log. *)
Record World := {
  state : AppState;
  requests_sent : list Request;
  cost_log : list LogEntry
}.

(** What the pipeline consumes from outside: the tokenizer and the two
    backend calls, each of which answers or raises ([None]). *)
Record Backends := {
  count_tokens : text → Z;
  embeddings_create : text → option (list Q);
  chat_completions_create : text → option (text * Z)
}.

(** *** Calls that may raise

    A call returns a value or raises; either way the world is left as the
    call had changed it up to that point (Python rolls nothing back). *)

Inductive Outcome (A : Type) :=
  | Returned (a : A)
  | HTTPException (status_code : Z) (detail : text)
  | Exception.
Arguments Returned {A} a.
Arguments HTTPException {A} status_code detail.
Arguments Exception {A}.

Definition M (A : Type) : Type := World → Outcome A * World.

#[export] Instance M_ret : MRet M := λ A a w, (Returned a, w).
#[export] Instance M_bind : MBind M := λ A B k m w,
  match m w with
  | (Returned a, w') => k a w'
  | (HTTPException c d, w') => (HTTPException c d, w')
  | (Exception, w') => (Exception, w')
  end.

Definition raise_http {A} (status_code : Z) (detail : text) : M A :=
  λ w, (HTTPException status_code detail, w).
Definition raise {A} : M A := λ w, (Exception, w).
Definition get_state : M AppState := λ w, (Returned (state w), w).
Definition set_cost_tracker (ct : CostTracker) : M unit := λ w,
  (Returned (),
   {| state := {| index := index (state w); glossary := glossary (state w);
                  initialized := initialized (state w); cost_tracker := ct |};
      requests_sent := requests_sent w; cost_log := cost_log w |}).
Definition send (r : Request) : M unit := λ w,
  (Returned (),
   {| state := state w; requests_sent := requests_sent w ++ [r];
      cost_log := cost_log w |}).
Definition set_cost_log (l : list LogEntry) : M unit := λ w,
  (Returned (),
   {| state := state w; requests_sent := requests_sent w; cost_log := l |}).
Definition get_cost_log : M (list LogEntry) := λ w, (Returned (cost_log w), w).
(** Unwrap the answer of a backend or of a library call that may raise. *)
Definition or_raise {A} (o : option A) : M A :=
  match o with Some a => mret a | None => raise end.

(** ** Cost ledger *)

(** [track_embedding_cost] *)
Definition track_embedding_cost (ext : Backends) (t : text) : M unit :=
  let tokens := count_tokens ext t in
  st ← get_state;
  let ct := cost_tracker st in
  set_cost_tracker
    {| embedding_tokens := embedding_tokens ct + tokens;
       completion_tokens := completion_tokens ct;
       embedding_requests := embedding_requests ct + 1;
       completion_requests := completion_requests ct |}.

(** [track_completion_cost] *)
Definition track_completion_cost (tokens : Z) : M unit :=
  st ← get_state;
  let ct := cost_tracker st in
  set_cost_tracker
    {| embedding_tokens := embedding_tokens ct;
       completion_tokens := completion_tokens ct + tokens;
       embedding_requests := embedding_requests ct;
       completion_requests := completion_requests ct + 1 |}.

(** The dictionary [calculate_costs] returns. *)
Record CostBreakdown := {
  cb_embedding_tokens : Z;
  cb_completion_tokens : Z;
  cb_embedding_cost : Q;
  cb_completion_cost : Q;
  cb_total_cost : Q
}.

(** [calculate_costs] *)
Definition calculate_costs : M CostBreakdown :=
  st ← get_state;
  let ct := cost_tracker st in
  let embedding_cost := (inject_Z (embedding_tokens ct) / 1000000 * (20 # 1000))%Q in
  let completion_cost := (inject_Z (completion_tokens ct) / 1000000 * (150 # 1000))%Q in
  mret {| cb_embedding_tokens := embedding_tokens ct;
          cb_completion_tokens := completion_tokens ct;
          cb_embedding_cost := round6 embedding_cost;
          cb_completion_cost := round6 completion_cost;
          cb_total_cost := round6 (embedding_cost + completion_cost) |}.

(** [logs[-1000:]] when there are more than 1000 entries. *)
Definition keep_last {A} (n : nat) (l : list A) : list A :=
  if (n <? length l)%nat then drop (length l - n) l else l.

(** [log_api_usage]; the file is read and written without failure. *)
Definition log_api_usage (endpoint : string) (cost : Q) (tokens_used : Z)
    (request_type : string) : M unit :=
  costs ← calculate_costs;
  let log_entry :=
    {| log_endpoint := endpoint; log_request_type := request_type;
       log_tokens_used := tokens_used; log_cost := cost;
       log_session_total_cost := cb_total_cost costs |} in
  logs ← get_cost_log;
  set_cost_log (keep_last 1000 (logs ++ [log_entry])).

(** ** Embedding and retrieval *)

(** [get_single_embedding] *)
Definition get_single_embedding (cfg : Config) (ext : Backends) (t : text)
    : M (list Q) :=
  let t := strip t in
  match t with
  | [] => mret (replicate (EMBEDDING_DIMENSIONS cfg) 0%Q)
  | _ =>
      track_embedding_cost ext t;;
      send (EmbeddingsCreate t);;
      or_raise (embeddings_create ext t)
  end.

(** *** The library calls of the retrieval step

    [faiss] and [pandas] are third-party libraries; what follows states
    the documented behaviour of the two calls the pipeline makes. *)

Definition sq_dist (x y : list Q) : Q :=
  foldr Qplus 0%Q (zip_with (λ a b, ((a - b) * (a - b))%Q) x y).

(** Order of the results: smaller distance first, then smaller label. *)
Definition closer (p q : Q * Z) : bool :=
  Qltb p.1 q.1 || (Qeq_bool p.1 q.1 && (p.2 <=? q.2)).

Fixpoint insert_hit (p : Q * Z) (hits : list (Q * Z)) : list (Q * Z) :=
  match hits with
  | [] => [p]
  | q :: rest => if closer p q then p :: hits else q :: insert_hit p rest
  end.

Definition rank (hits : list (Q * Z)) : list (Q * Z) :=
  foldr insert_hit [] hits.

(** The largest [float32]; the distance faiss reports in an empty slot. *)
Definition FLT_MAX : Q := 340282346638528859811704183484516925440%Q.

(** [IndexFlatL2.search(x, k)] for one query vector: always [k] slots; the
    stored vectors by increasing squared L2 distance, and label [-1] in
    every slot for which the index has no vector.  The Python wrapper
    asserts that the query has the dimension of the index.  Distances are
    exact here and [float32] in faiss, so that the order of two vectors at
    nearly the same distance can differ. *)
Definition IndexFlatL2_search (idx : IndexFlatL2) (x : list Q) (k : nat)
    : option (list Q * list Z) :=
  if negb (length x =? index_d idx)%nat then None
  else
    let hits := rank (imap (λ i v, (sq_dist x v, Z.of_nat i)) (index_xb idx)) in
    let slots := take k hits ++ replicate (k - length hits) (FLT_MAX, -1) in
    Some (slots.*1, slots.*2).

(** [DataFrame.iloc[labels]]: positions count from the front, negative
    ones from the back, and a position outside the frame raises. *)
Definition iloc (rows : list Row) (labels : list Z) : option (list Row) :=
  let n := Z.of_nat (length rows) in
  mapM (λ i, if 0 <=? i then rows !! Z.to_nat i
             else if - n <=? i then rows !! Z.to_nat (n + i)
             else None) labels.

(** ** Translation pipeline *)

(** [sanitize_text_input] *)
Definition sanitize_text_input (t : text) (max_length : Z) : M text :=
  match t with
  | [] => raise_http 400 (utf8 "Invalid text input")
  | _ =>
      let t := strip (List.filter (λ c, negb (c =? 0)%N) t) in
      if max_length <? Z.of_nat (length t) then
        raise_http 400 (utf8 "Text too long. Maximum length: "
                        ++ str_of_nat (Z.to_nat max_length) ++ utf8 " characters")
      else if (length t =? 0)%nat then raise_http 400 (utf8 "Empty text input")
      else mret t
  end.

(** [f"{idx+1}. {row['english']} = {row['arabic']}"] *)
Definition context_line (idx : nat) (row : Row) : text :=
  str_of_nat (idx + 1) ++ utf8 ". " ++ english row ++ utf8 " = " ++ arabic row.

Definition nl : text := [10%N].
Definition quote : text := [34%N].

Definition build_context (retrieved : list Row) : text :=
  join nl (imap context_line retrieved).

(** The prompt f-string of [translate_text]. *)
Definition build_prompt (context query : text) : text :=
  utf8 "You are FoodLang AI, an expert Arabic–English food packaging translator."
  ++ nl
  ++ utf8 "Use the glossary context below to ensure consistent, regulatory-compliant translations."
  ++ nl ++ nl
  ++ utf8 "Glossary Context (most relevant matches):" ++ nl
  ++ context ++ nl ++ nl
  ++ utf8 "Translate the following text naturally and accurately:" ++ nl
  ++ quote ++ query ++ quote ++ nl ++ nl
  ++ utf8 "Provide only the translation (no explanation or additional text).".

Record TranslateResult := {
  translated_text : text;
  detected_language : string;
  tokens_used : Z;
  cost_estimate : Q
}.

(** [translate_text] *)
Definition translate_text (cfg : Config) (ext : Backends) (query : text)
    : M TranslateResult :=
  st ← get_state;
  if negb (initialized st) then
    raise_http 503 (utf8 "Glossary not loaded. Please contact admin.")
  else
    query ← sanitize_text_input query 10000;
    q_emb ← get_single_embedding cfg ext query;
    idx ← or_raise (index st);
    found ← or_raise (IndexFlatL2_search idx q_emb (TOP_K_RETRIEVAL cfg));
    let '(distances, indices) := found in
    rows ← or_raise (glossary st);
    retrieved ← or_raise (iloc rows indices);
    let context := build_context retrieved in
    let prompt := build_prompt context query in
    send (ChatCompletionsCreate prompt);;
    response ← or_raise (chat_completions_create ext prompt);
    let '(content, total_tokens) := response in
    track_completion_cost total_tokens;;
    let translation := strip content in
    let detected_lang := detect_language query in
    let embedding_cost := (inject_Z (count_tokens ext query) / 1000000 * (20 # 1000))%Q in
    let completion_cost := (inject_Z total_tokens / 1000000 * (150 # 1000))%Q in
    let request_cost := round6 (embedding_cost + completion_cost) in
    log_api_usage "/api/translate" request_cost total_tokens "translation";;
    mret {| translated_text := translation;
            detected_language := detected_lang;
            tokens_used := total_tokens;
            cost_estimate := request_cost |}.

(** ** Health monitor (class [HealthMonitor]) *)

Module HealthMonitor.

(** [self.alert_thresholds] *)
Record Thresholds := {
  memory_usage_percent : Q;
  disk_usage_percent : Q;
  cpu_usage_percent : Q;
  error_rate_threshold : Q;
  response_time_threshold : Q
}.

(** An entry of [recent_errors]; [timestamp] is the [datetime.utcnow()]
    reading, which [isoformat] and [fromisoformat] carry unchanged. *)
Record ErrorEntry := {
  error_timestamp : Q;
  error_type : string;
  error_endpoint : string;
  error_details : text
}.

(** An entry of [recent_response_times]. *)
Record TimeEntry := {
  time_timestamp : Q;
  time_endpoint : string;
  response_time : Q
}.

(** An f-string with numbers in it, kept unrendered: its literal pieces
    and the values formatted between them. *)
Inductive Piece := Lit (s : string) | Num (x : Q).
Abbreviation Message := (list Piece).

(** An alert as it leaves the monitor: the [logger.warning] line and the
    entry appended to [data/alerts.json]. *)
Record Alert := {
  alert_timestamp : Q;
  alert_type : string;
  alert_message : Message
}.

(** The monitor object, and with it the two sinks its alerts go to: the
    warning log (unbounded, oldest first) and the alert file. *)
Record t := {
  alert_thresholds : Thresholds;
  recent_errors : list ErrorEntry;
  recent_response_times : list TimeEntry;
  alert_cooldown : gmap string Q;
  alert_cooldown_duration : Q;
  warnings : list Alert;
  alerts_file : list Alert
}.

(** [HealthMonitor.__init__] *)
Definition init : t := {|
  alert_thresholds :=
    {| memory_usage_percent := 85; disk_usage_percent := 90;
       cpu_usage_percent := 90; error_rate_threshold := 1 # 10;
       response_time_threshold := 5 |};
  recent_errors := [];
  recent_response_times := [];
  alert_cooldown := ∅;
  alert_cooldown_duration := 300;
  warnings := [];
  alerts_file := []
|}.

(** [deque(maxlen=100).append]: when full, the oldest entry is dropped. *)
Definition deque_append {A} (maxlen : nat) (dq : list A) (x : A) : list A :=
  if (length dq <? maxlen)%nat then dq ++ [x] else drop 1 dq ++ [x].

(** [_log_alert]; the file is read and written without failure. *)
Definition _log_alert (utcnow : Q) (type : string) (message : Message) (hm : t) : t :=
  let alert_entry :=
    {| alert_timestamp := utcnow; alert_type := type; alert_message := message |} in
  {| alert_thresholds := alert_thresholds hm;
     recent_errors := recent_errors hm;
     recent_response_times := recent_response_times hm;
     alert_cooldown := alert_cooldown hm;
     alert_cooldown_duration := alert_cooldown_duration hm;
     warnings := warnings hm;
     alerts_file := keep_last 500 (alerts_file hm ++ [alert_entry]) |}.

(** [_trigger_alert]; [now] is its [time.time()] reading and [utcnow] the
    reading [_log_alert] takes when the alert fires. *)
Definition _trigger_alert (now utcnow : Q) (type : string) (message : Message)
    (hm : t) : t :=
  let last_alert := default 0%Q (alert_cooldown hm !! type) in
  if Qltb (alert_cooldown_duration hm) (now - last_alert) then
    _log_alert utcnow type message
      {| alert_thresholds := alert_thresholds hm;
         recent_errors := recent_errors hm;
         recent_response_times := recent_response_times hm;
         alert_cooldown := <[type := now]> (alert_cooldown hm);
         alert_cooldown_duration := alert_cooldown_duration hm;
         warnings := warnings hm ++
           [{| alert_timestamp := now; alert_type := type;
               alert_message := message |}];
         alerts_file := alerts_file hm |}
  else hm.

(** [record_error] *)
Definition record_error (utcnow : Q) (type endpoint : string) (details : text)
    (hm : t) : t :=
  let error_entry :=
    {| error_timestamp := utcnow; error_type := type;
       error_endpoint := endpoint; error_details := details |} in
  {| alert_thresholds := alert_thresholds hm;
     recent_errors := deque_append 100 (recent_errors hm) error_entry;
     recent_response_times := recent_response_times hm;
     alert_cooldown := alert_cooldown hm;
     alert_cooldown_duration := alert_cooldown_duration hm;
     warnings := warnings hm;
     alerts_file := alerts_file hm |}.

(** [record_response_time]; [utcnow] stamps the sample, [now] and
    [utcnow'] are the readings of the alert it may trigger. *)
Definition record_response_time (utcnow now utcnow' : Q) (endpoint : string)
    (seconds : Q) (hm : t) : t :=
  let hm' :=
    {| alert_thresholds := alert_thresholds hm;
       recent_errors := recent_errors hm;
       recent_response_times :=
         deque_append 100 (recent_response_times hm)
           {| time_timestamp := utcnow; time_endpoint := endpoint;
              response_time := seconds |};
       alert_cooldown := alert_cooldown hm;
       alert_cooldown_duration := alert_cooldown_duration hm;
       warnings := warnings hm;
       alerts_file := alerts_file hm |} in
  if Qltb (response_time_threshold (alert_thresholds hm)) seconds then
    _trigger_alert now utcnow' "slow_response"
      [Lit "Slow response on "; Lit endpoint; Lit ": "; Num seconds; Lit "s"] hm'
  else hm'.

(** [timedelta(minutes=window_minutes)] in seconds. *)
Definition minutes (window_minutes : Z) : Q := inject_Z (60 * window_minutes).

(** [get_error_rate] *)
Definition get_error_rate (utcnow : Q) (window_minutes : Z) (hm : t) : Q :=
  match recent_errors hm with
  | [] => 0%Q
  | _ =>
      let cutoff_time := (utcnow - minutes window_minutes)%Q in
      let recent :=
        List.filter (λ e, Qltb cutoff_time (error_timestamp e)) (recent_errors hm) in
      let total_requests := length (recent_response_times hm) in
      if (total_requests =? 0)%nat then 0%Q
      else (inject_Z (Z.of_nat (length recent))
            / inject_Z (Z.of_nat total_requests))%Q
  end.

(** [sum(values)] *)
Definition Qsum (values : list Q) : Q := foldl Qplus 0%Q values.

(** [get_avg_response_time]; the sum and the quotient are exact here,
    floating point in the source. *)
Definition get_avg_response_time (utcnow : Q) (window_minutes : Z) (hm : t) : Q :=
  match recent_response_times hm with
  | [] => 0%Q
  | _ =>
      let cutoff_time := (utcnow - minutes window_minutes)%Q in
      let recent_times :=
        map response_time
          (List.filter (λ rt, Qltb cutoff_time (time_timestamp rt))
             (recent_response_times hm)) in
      match recent_times with
      | [] => 0%Q
      | _ => (Qsum recent_times / inject_Z (Z.of_nat (length recent_times)))%Q
      end
  end.

(** The error rate as the specification words it, for comparison with
    [get_error_rate]: buffered error samples newer than the cutoff over
    buffered latency samples newer than the same cutoff, and 0 when there
    are no error samples or no latency samples. *)
Definition spec_error_rate (utcnow : Q) (window_minutes : Z) (hm : t) : Q :=
  let cutoff_time := (utcnow - minutes window_minutes)%Q in
  let errors :=
    List.filter (λ e, Qltb cutoff_time (error_timestamp e)) (recent_errors hm) in
  let samples :=
    List.filter (λ rt, Qltb cutoff_time (time_timestamp rt))
      (recent_response_times hm) in
  match recent_errors hm, recent_response_times hm with
  | [], _ | _, [] => 0%Q
  | _, _ => (inject_Z (Z.of_nat (length errors))
             / inject_Z (Z.of_nat (length samples)))%Q
  end.

(** *** The health report *)

(** A probe of the host either reads a value or raises. *)
Inductive Probe (A : Type) := Reads (a : A) | Raises.
Arguments Reads {A} a.
Arguments Raises {A}.

(** What [psutil] and the file system answer during one health check:
    [virtual_memory().percent], [cpu_percent(interval=1)],
    [os.path.exists("data")] and [disk_usage("data")] as (used, total). *)
Record Psutil := {
  virtual_memory_percent : Probe Q;
  cpu_percent : Probe Q;
  data_exists : bool;
  disk_usage : Probe (Z * Z)
}.

(** The surroundings of one health check.  [psutil = None] says that
    [import psutil] raises [ImportError].  Every alert type is triggered at
    most once per check, so the clock readings of an alert are given per
    type: its [time.time()] and the [utcnow] of its file entry. *)
Record Env := {
  psutil : option Psutil;
  report_utcnow : Q;
  error_rate_utcnow : Q;
  response_time_utcnow : Q;
  alert_clock : string → Q * Q
}.

(** [health_status]: [checks] maps a check name to its status, in the
    order the checks were entered (the [details] and [threshold] texts,
    renderings of the same numbers, are left out). *)
Record HealthStatus := {
  overall_status : string;
  checks : list (string * string);
  alerts : list Alert;
  timestamp : Q
}.

(** [d[name] = status] on an insertion-ordered dictionary. *)
Fixpoint dict_set (name status : string) (d : list (string * string))
    : list (string * string) :=
  match d with
  | [] => [(name, status)]
  | (n, s) :: rest =>
      if String.eqb n name then (n, status) :: rest
      else (n, s) :: dict_set name status rest
  end.

Definition set_check (name status : string) (s : HealthStatus * t)
    : HealthStatus * t :=
  ({| overall_status := overall_status s.1;
      checks := dict_set name status (checks s.1);
      alerts := alerts s.1; timestamp := timestamp s.1 |}, s.2).

Definition set_overall (status : string) (s : HealthStatus * t)
    : HealthStatus * t :=
  ({| overall_status := status; checks := checks s.1;
      alerts := alerts s.1; timestamp := timestamp s.1 |}, s.2).

(** [health_status["overall_status"] = "degraded"] followed by
    [self._trigger_alert(type, message)]. *)
Definition degrade (env : Env) (type : string) (message : Message)
    (s : HealthStatus * t) : HealthStatus * t :=
  let s := set_overall "degraded" s in
  (s.1, _trigger_alert (alert_clock env type).1 (alert_clock env type).2
          type message s.2).

Definition check_glossary (app : AppState) (env : Env) (s : HealthStatus * t)
    : HealthStatus * t :=
  let glossary_healthy :=
    initialized app && bool_decide (is_Some (glossary app)) in
  let s := set_check "glossary"
             (if glossary_healthy then "healthy" else "unhealthy") s in
  if negb glossary_healthy
  then degrade env "glossary_error" [Lit "Glossary not loaded or corrupted"] s
  else s.

Definition check_openai_api (cfg : Config) (env : Env) (s : HealthStatus * t)
    : HealthStatus * t :=
  let openai_healthy :=
    match OPENAI_API_KEY cfg with
    | EmptyString => false
    | key => (10 <? String.length key)%nat
    end in
  let s := set_check "openai_api"
             (if openai_healthy then "healthy" else "unhealthy") s in
  if negb openai_healthy
  then degrade env "openai_api_error" [Lit "OpenAI API not accessible"] s
  else s.

Definition check_memory (env : Env) (percent : Q) (s : HealthStatus * t)
    : HealthStatus * t :=
  let memory_healthy :=
    Qltb percent (memory_usage_percent (alert_thresholds s.2)) in
  let s := set_check "memory" (if memory_healthy then "healthy" else "warning") s in
  if negb memory_healthy
  then degrade env "high_memory" [Lit "Memory usage at "; Num percent; Lit "%"] s
  else s.

Definition check_cpu (env : Env) (percent : Q) (s : HealthStatus * t)
    : HealthStatus * t :=
  let cpu_healthy := Qltb percent (cpu_usage_percent (alert_thresholds s.2)) in
  let s := set_check "cpu" (if cpu_healthy then "healthy" else "warning") s in
  if negb cpu_healthy
  then degrade env "high_cpu" [Lit "CPU usage at "; Num percent; Lit "%"] s
  else s.

Definition check_disk (env : Env) (used total : Z) (s : HealthStatus * t)
    : HealthStatus * t :=
  let disk_percent := (inject_Z used / inject_Z total * 100)%Q in
  let disk_healthy :=
    Qltb disk_percent (disk_usage_percent (alert_thresholds s.2)) in
  let s := set_check "disk" (if disk_healthy then "healthy" else "warning") s in
  if negb disk_healthy
  then degrade env "high_disk" [Lit "Disk usage at "; Num disk_percent; Lit "%"] s
  else s.

(** The outcome of a stretch of the [try] block. *)
Inductive Try := Done (s : HealthStatus * t) | Raised (s : HealthStatus * t).

(** The [psutil] stretch: an [ImportError] enters the placeholder check, a
    probe that raises (or a zero disk total in the division) leaves the
    [try] block with what was recorded so far. *)
Definition check_system_resources (env : Env) (s : HealthStatus * t) : Try :=
  match psutil env with
  | None => Done (set_check "system_resources" "unknown" s)
  | Some ps =>
      match virtual_memory_percent ps with
      | Raises => Raised s
      | Reads memory =>
          let s := check_memory env memory s in
          match cpu_percent ps with
          | Raises => Raised s
          | Reads cpu =>
              let s := check_cpu env cpu s in
              if data_exists ps then
                match disk_usage ps with
                | Raises => Raised s
                | Reads (used, total) =>
                    if total =? 0 then Raised s
                    else Done (check_disk env used total s)
                end
              else Done s
          end
      end
  end.

Definition check_error_rate (env : Env) (s : HealthStatus * t)
    : HealthStatus * t :=
  let error_rate := get_error_rate (error_rate_utcnow env) 5 s.2 in
  let error_rate_healthy :=
    Qltb error_rate (error_rate_threshold (alert_thresholds s.2)) in
  let s := set_check "error_rate"
             (if error_rate_healthy then "healthy" else "warning") s in
  if negb error_rate_healthy
  then degrade env "high_error_rate" [Lit "Error rate at "; Num error_rate] s
  else s.

Definition check_response_time (env : Env) (s : HealthStatus * t)
    : HealthStatus * t :=
  let avg_response_time :=
    get_avg_response_time (response_time_utcnow env) 5 s.2 in
  let response_time_healthy :=
    Qltb avg_response_time (response_time_threshold (alert_thresholds s.2)) in
  let s := set_check "response_time"
             (if response_time_healthy then "healthy" else "warning") s in
  if negb response_time_healthy && Qltb 0 avg_response_time
  then degrade env "slow_response_avg"
         [Lit "Average response time at "; Num avg_response_time; Lit "s"] s
  else s.

(** [check_system_health] *)
Definition check_system_health (cfg : Config) (app : AppState) (env : Env)
    (hm : t) : HealthStatus * t :=
  let s :=
    ({| overall_status := "healthy"; checks := []; alerts := [];
        timestamp := report_utcnow env |}, hm) in
  let s := check_glossary app env s in
  let s := check_openai_api cfg env s in
  match check_system_resources env s with
  | Done s => check_response_time env (check_error_rate env s)
  | Raised s => set_check "health_check" "error" (set_overall "error" s)
  end.

End HealthMonitor.

(** ** Counting and fixtures used by the statements *)

Definition newer_errors (utcnow : Q) (window_minutes : Z) (hm : HealthMonitor.t) : nat :=
  length (List.filter
            (λ e, Qltb (utcnow - HealthMonitor.minutes window_minutes)%Q
                    (HealthMonitor.error_timestamp e))
            (HealthMonitor.recent_errors hm)).

Definition newer_samples (utcnow : Q) (window_minutes : Z) (hm : HealthMonitor.t) : nat :=
  length (List.filter
            (λ rt, Qltb (utcnow - HealthMonitor.minutes window_minutes)%Q
                     (HealthMonitor.time_timestamp rt))
            (HealthMonitor.recent_response_times hm)).

(** One fresh error, one stale and one fresh latency sample, to be read at
    second 1010 with a 5 minute window. *)
Definition skewed_monitor : HealthMonitor.t :=
  HealthMonitor.record_response_time 1000 1000 1000 "/api/translate" (1 # 2)
    (HealthMonitor.record_response_time 0 0 0 "/api/translate" (1 # 2)
       (HealthMonitor.record_error 1000 "server_error" "/api/translate" []
          HealthMonitor.init)).

(** The [time.time()] readings at which alerts of one type went out,
    oldest first. *)
Definition fire_times (type : string) (hm : HealthMonitor.t) : list Q :=
  map HealthMonitor.alert_timestamp
    (List.filter (λ a, String.eqb (HealthMonitor.alert_type a) type)
       (HealthMonitor.warnings hm)).

(** Any two readings of the list are more than [gap] apart, the later one
    being the larger. *)
Fixpoint apart (gap : Q) (times : list Q) : Prop :=
  match times with
  | [] => True
  | a :: rest => Forall (λ b, (gap < b - a)%Q) rest ∧ apart gap rest
  end.

(** A call of [_trigger_alert]: its two clock readings, the alert type and
    the message. *)
Record AlertCall := {
  call_now : Q;
  call_utcnow : Q;
  call_type : string;
  call_message : HealthMonitor.Message
}.

Definition trigger (c : AlertCall) (hm : HealthMonitor.t) : HealthMonitor.t :=
  HealthMonitor._trigger_alert (call_now c) (call_utcnow c) (call_type c)
    (call_message c) hm.

(** The calls of a list made one after the other, first call first. *)
Definition trigger_all (calls : list AlertCall) (hm : HealthMonitor.t)
    : HealthMonitor.t :=
  foldl (λ h c, trigger c h) hm calls.

(** What the monitor keeps true of every alert type: the readings at which
    it fired are pairwise more than the cooldown apart, and the cooldown
    entry of a type that fired is the reading of its last alert. *)
Definition cooled (hm : HealthMonitor.t) : Prop :=
  ∀ type,
    apart (HealthMonitor.alert_cooldown_duration hm) (fire_times type hm)
    ∧ ∀ x, last (fire_times type hm) = Some x → HealthMonitor.alert_cooldown hm !! type = Some x.

(** Fixtures for the pipeline: a two-dimensional stand-in for the embedding
    backend (how often the letters c and s occur), a generation backend with
    a fixed answer, and a world whose glossary is loaded and indexed with
    that embedding. *)
Definition toy_embedding (t : text) : list Q :=
  [inject_Z (count_chars (λ c, (c =? 99)%N) t);
   inject_Z (count_chars (λ c, (c =? 115)%N) t)].

Definition toy_backends : Backends := {|
  count_tokens := λ t, Z.of_nat (length t);
  embeddings_create := λ t, Some (toy_embedding t);
  chat_completions_create := λ _, Some (utf8 "دجاج", 42)
|}.

(** The same, with an embedding backend that raises on every request. *)
Definition failing_embedding_backends : Backends := {|
  count_tokens := λ t, Z.of_nat (length t);
  embeddings_create := λ _, None;
  chat_completions_create := λ _, Some (utf8 "دجاج", 42)
|}.

Definition toy_config : Config := {|
  OPENAI_API_KEY := "sk-0123456789abcdef";
  RATE_LIMIT_REQUESTS := 100;
  RATE_LIMIT_WINDOW := 3600;
  EMBEDDING_DIMENSIONS := 2;
  TOP_K_RETRIEVAL := 3
|}.

Definition make_row (en ar : string) : Row :=
  {| english := utf8 en; arabic := utf8 ar;
     combined := utf8 en ++ utf8 " | " ++ utf8 ar |}.

Definition no_costs : CostTracker :=
  {| embedding_tokens := 0; completion_tokens := 0;
     embedding_requests := 0; completion_requests := 0 |}.

Definition loaded_world (rows : list Row) : World :=
  {| state :=
       {| index := Some {| index_d := 2;
                           index_xb := map (λ r, toy_embedding (combined r)) rows |};
          glossary := Some rows;
          initialized := true;
          cost_tracker := no_costs |};
     requests_sent := [];
     cost_log := [] |}.

(** The world before any glossary is loaded ([AppState.__init__]). *)
Definition unloaded_world : World :=
  {| state := {| index := None; glossary := None; initialized := false;
                 cost_tracker := no_costs |};
     requests_sent := [];
     cost_log := [] |}.

(** The corpus of scenario A and a corpus smaller than [TOP_K_RETRIEVAL]. *)
Definition scenario_rows : list Row :=
  [make_row "chicken breast" "صدر دجاج"; make_row "salt" "ملح";
   make_row "sugar" "سكر"].

Definition short_rows : list Row :=
  [make_row "chicken breast" "صدر دجاج"; make_row "salt" "ملح"].

(** Fixtures for the health report: a host without [psutil], every clock
    reading at second 1000; and the predicate saying that no probe of the
    host raises during the check. *)
Definition bare_env : HealthMonitor.Env := {|
  HealthMonitor.psutil := None;
  HealthMonitor.report_utcnow := 1000;
  HealthMonitor.error_rate_utcnow := 1000;
  HealthMonitor.response_time_utcnow := 1000;
  HealthMonitor.alert_clock := λ _, (1000%Q, 1000%Q)
|}.

Definition probes_answer (env : HealthMonitor.Env) : bool :=
  match HealthMonitor.psutil env with
  | None => true
  | Some ps =>
      match HealthMonitor.virtual_memory_percent ps, HealthMonitor.cpu_percent ps with
      | HealthMonitor.Reads _, HealthMonitor.Reads _ =>
          if HealthMonitor.data_exists ps then
            match HealthMonitor.disk_usage ps with
            | HealthMonitor.Reads (_, total) => negb (total =? 0)
            | HealthMonitor.Raises => false
            end
          else true
      | _, _ => false
      end
  end.

(** The statuses a check can carry, and the two ways a check counts. *)
Definition status_known (c : string * string) : Prop :=
  c.2 = "healthy" ∨ c.2 = "warning" ∨ c.2 = "unhealthy"
  ∨ c.2 = "unknown" ∨ c.2 = "error".

Definition passing (c : string * string) : Prop :=
  c.2 = "healthy" ∨ c.2 = "unknown".

Definition failing (c : string * string) : Prop :=
  c.2 = "warning" ∨ c.2 = "unhealthy".

(** [closer] as a relation, and the hits the index holds for a query
    before they are ranked. *)
Definition closer_eq (p q : Q * Z) : Prop := closer p q = true.

Definition scored (idx : IndexFlatL2) (x : list Q) : list (Q * Z) :=
  imap (λ i v, (sq_dist x v, Z.of_nat i)) (index_xb idx).

(** The query as [sanitize_text_input] hands it on: NUL characters
    removed, surrounding white space stripped. *)
Definition sanitized (query : text) : text :=
  strip (List.filter (λ c, negb (c =? 0)%N) query).

(** The shape every check has: enter the status under the check's name,
    then degrade and alert if the check asks for it. *)
Definition check_step (env : HealthMonitor.Env) (name : string)
    (healthy : bool) (bad : string) (fire : bool) (type : string)
    (message : HealthMonitor.Message)
    (s : HealthMonitor.HealthStatus * HealthMonitor.t)
    : HealthMonitor.HealthStatus * HealthMonitor.t :=
  let s := HealthMonitor.set_check name (if healthy then "healthy" else bad) s in
  if fire then HealthMonitor.degrade env type message s else s.

(** What holds between two checks: the names in [fresh] are not entered
    yet, the thresholds are those of the monitor at the start, every
    status is a known one, and the overall status is "healthy" with all
    checks passing, or "degraded" with a failing check among them. *)
Definition report_ok (thr : HealthMonitor.Thresholds) (fresh : list string)
    (s : HealthMonitor.HealthStatus * HealthMonitor.t) : Prop :=
  (∀ n, n ∈ fresh → n ∉ (HealthMonitor.checks s.1).*1)
  ∧ HealthMonitor.alert_thresholds s.2 = thr
  ∧ Forall status_known (HealthMonitor.checks s.1)
  ∧ ((HealthMonitor.overall_status s.1 = "healthy"
      ∧ Forall passing (HealthMonitor.checks s.1))
     ∨ (HealthMonitor.overall_status s.1 = "degraded"
        ∧ Exists failing (HealthMonitor.checks s.1))).

(** ** Further definitions: admission history *)

(** The clock readings of the checks that were admitted, oldest first. *)
Definition admitted (times : list Q) (results : list bool) : list Q :=
  (List.filter snd (zip times results)).*1.

(** How many of the readings [ts] lie in the window that ends at [now]:
    those the trim at [now] would keep. *)
Definition in_window (W : Z) (now : Q) (ts : list Q) : nat :=
  length (List.filter (λ t, negb (Qltb t (now - inject_Z W))) ts).

(** An endpoint name without a colon. *)
Fixpoint colon_free (s : string) : bool :=
  match s with
  | EmptyString => true
  | String a s' => negb (Ascii.N_of_ascii a =? 58)%N && colon_free s'
  end.

(** ** Further definitions: what a pipeline call leaves behind *)

(** The counters after [track_embedding_cost] for the text [q]. *)
Definition charged_embedding (ext : Backends) (q : text) (ct : CostTracker)
    : CostTracker :=
  {| embedding_tokens := embedding_tokens ct + count_tokens ext q;
     completion_tokens := completion_tokens ct;
     embedding_requests := embedding_requests ct + 1;
     completion_requests := completion_requests ct |}.

(** The counters after [track_completion_cost]. *)
Definition charged_completion (tokens : Z) (ct : CostTracker) : CostTracker :=
  {| embedding_tokens := embedding_tokens ct;
     completion_tokens := completion_tokens ct + tokens;
     embedding_requests := embedding_requests ct;
     completion_requests := completion_requests ct + 1 |}.

(** The cost [translate_text] reports for one call. *)
Definition request_cost (ext : Backends) (q : text) (total_tokens : Z) : Q :=
  round6 (inject_Z (count_tokens ext q) / 1000000 * (20 # 1000)
          + inject_Z total_tokens / 1000000 * (150 # 1000))%Q.

(** [calculate_costs()["total_cost"]] for given counters. *)
Definition session_total (ct : CostTracker) : Q :=
  round6 (inject_Z (embedding_tokens ct) / 1000000 * (20 # 1000)
          + inject_Z (completion_tokens ct) / 1000000 * (150 # 1000))%Q.

(** The glossary, the index and the readiness flag of two worlds agree. *)
Definition same_corpus (w w' : World) : Prop :=
  index (state w') = index (state w)
  ∧ glossary (state w') = glossary (state w)
  ∧ initialized (state w') = initialized (state w).

Definition is_embedding_request (r : Request) : bool :=
  match r with EmbeddingsCreate _ => true | ChatCompletionsCreate _ => false end.

(** ** Further definitions: what the monitor keeps *)

(** The two sample buffers, the thresholds and the cooldown duration of two
    monitors agree. *)
Definition same_samples (hm hm' : HealthMonitor.t) : Prop :=
  HealthMonitor.recent_errors hm' = HealthMonitor.recent_errors hm
  ∧ HealthMonitor.recent_response_times hm' = HealthMonitor.recent_response_times hm
  ∧ HealthMonitor.alert_thresholds hm' = HealthMonitor.alert_thresholds hm
  ∧ HealthMonitor.alert_cooldown_duration hm' = HealthMonitor.alert_cooldown_duration hm.

(** Both sample buffers are within their capacity of 100. *)
Definition buffers_bounded (hm : HealthMonitor.t) : Prop :=
  (length (HealthMonitor.recent_errors hm) ≤ 100)%nat
  ∧ (length (HealthMonitor.recent_response_times hm) ≤ 100)%nat.

(** What holds of the health check in progress, relative to the monitor
    [hm0] it started from: samples and thresholds are as in [hm0], the
    warnings of [hm0] are a prefix of the log, and the monitor is still
    [hm0] itself unless the overall status has become "degraded". *)
Definition framed (hm0 : HealthMonitor.t)
    (s : HealthMonitor.HealthStatus * HealthMonitor.t) : Prop :=
  same_samples hm0 s.2
  ∧ HealthMonitor.warnings hm0 `prefix_of` HealthMonitor.warnings s.2
  ∧ ((HealthMonitor.overall_status s.1 = "healthy" ∧ s.2 = hm0)
     ∨ HealthMonitor.overall_status s.1 = "degraded").

(** [glossary_healthy] and [openai_healthy] as the health check computes
    them. *)
Definition glossary_healthy (app : AppState) : bool :=
  initialized app && bool_decide (is_Some (glossary app)).

Definition openai_healthy (cfg : Config) : bool :=
  match OPENAI_API_KEY cfg with
  | EmptyString => false
  | key => (10 <? String.length key)%nat
  end.

(** ** Further definitions: the alert file as the admin endpoint reads it *)

(** [l[start:]] for a start that may be negative. *)
Definition slice_from {A} (start : Z) (l : list A) : list A :=
  let n := Z.of_nat (length l) in
  drop (Z.to_nat (if start <? 0 then Z.max 0 (n + start) else start)) l.

(** The [alerts] and [total_count] that [get_alerts] returns; [file] is
    the content of [data/alerts.json], [None] when the file is missing or
    does not parse. *)
Definition get_alerts (limit : Z) (file : option (list HealthMonitor.Alert))
    : list HealthMonitor.Alert * nat :=
  let alerts :=
    match file with
    | None => []
    | Some all_alerts =>
        reverse (if limit <? Z.of_nat (length all_alerts)
                 then slice_from (- limit) all_alerts
                 else all_alerts)
    end in
  (alerts, length alerts).

(** ** Further definitions: usage statistics *)

(** What the admin endpoints find at [data/cost_log.json]. *)
Inductive LogFile :=
  | Missing
  | Unreadable
  | Content (logs : list LogEntry).

(** One value of [endpoint_stats]. *)
Record EndpointStats := {
  stat_requests : Z;
  stat_cost : Q;
  stat_tokens : Z
}.

(** The body of the loop [for log in logs] of [get_usage_statistics]. *)
Definition add_log (endpoint_stats : gmap string EndpointStats) (log : LogEntry)
    : gmap string EndpointStats :=
  let endpoint := log_endpoint log in
  let cur :=
    default {| stat_requests := 0; stat_cost := 0; stat_tokens := 0 |}
      (endpoint_stats !! endpoint) in
  <[endpoint := {| stat_requests := stat_requests cur + 1;
                   stat_cost := (stat_cost cur + log_cost log)%Q;
                   stat_tokens := stat_tokens cur + log_tokens_used log |}]>
    endpoint_stats.

Record UsageStatistics := {
  total_requests : nat;
  total_cost : Q;
  total_tokens : Z;
  endpoint_breakdown : gmap string EndpointStats;
  recent_logs : list LogEntry;
  current_session : CostBreakdown
}.

(** [get_usage_statistics]; [message] is the text of the exception that
    reading the file raises. *)
Definition get_usage_statistics (file : LogFile) (message : text)
    : M UsageStatistics :=
  match file with
  | Unreadable =>
      raise_http 500 (utf8 "Error retrieving usage statistics: " ++ message)
  | Missing | Content _ =>
      let logs := match file with Content logs => logs | _ => [] end in
      let total_requests := length logs in
      let total_cost := foldl Qplus 0%Q (map log_cost logs) in
      let total_tokens := foldl Z.add 0 (map log_tokens_used logs) in
      let endpoint_stats := foldl add_log ∅ logs in
      let recent_logs := match logs with [] => [] | _ => slice_from (-50) logs end in
      current_costs ← calculate_costs;
      mret {| total_requests := total_requests;
              total_cost := round6 total_cost;
              total_tokens := total_tokens;
              endpoint_breakdown := endpoint_stats;
              recent_logs := recent_logs;
              current_session := current_costs |}
  end.

(** The entries of a log that belong to one endpoint, in log order. *)
Definition logs_of (endpoint : string) (logs : list LogEntry) : list LogEntry :=
  List.filter (λ log, String.eqb (log_endpoint log) endpoint) logs.

(** ** Further definitions: batched embeddings and glossary loading *)

(** [texts[i:i+size]] for [i] in [range(0, len(texts), size)]. *)
Fixpoint chunks_from {A} (fuel size : nat) (l : list A) : list (list A) :=
  match fuel with
  | O => []
  | S fuel' =>
      match l with
      | [] => []
      | _ => take size l :: chunks_from fuel' size (drop size l)
      end
  end.

Definition chunks {A} (size : nat) (l : list A) : list (list A) :=
  chunks_from (length l) size l.

(** [track_embedding_cost] for every text of a batch, in order. *)
Definition charge_texts (ext : Backends) (batch : list text) (ct : CostTracker)
    : CostTracker :=
  foldl (λ ct t, charged_embedding ext t ct) ct batch.

(** [np.vstack]: raises on an empty list and on rows of unequal length. *)
Definition vstack (rows : list (list Q)) : option (list (list Q)) :=
  match rows with
  | [] => None
  | r :: _ =>
      if forallb (λ x, (length x =? length r)%nat) rows then Some rows else None
  end.

(** The loop of [get_embeddings_batch] over the batches still to do:
    [create] is [client.embeddings.create] for a list input, [sent] the
    batches requested so far.  Returns the embeddings (or [None] when the
    backend raises), the counters and the batches requested. *)
Fixpoint embed_batches (ext : Backends)
    (create : list text → option (list (list Q)))
    (batches : list (list text)) (ct : CostTracker) (sent : list (list text))
    (embeddings_list : list (list Q))
    : option (list (list Q)) * CostTracker * list (list text) :=
  match batches with
  | [] => (Some embeddings_list, ct, sent)
  | batch :: rest =>
      let batch := map strip batch in
      let ct := charge_texts ext batch ct in
      match create batch with
      | None => (None, ct, sent ++ [batch])
      | Some batch_embeddings =>
          embed_batches ext create rest ct (sent ++ [batch])
            (embeddings_list ++ batch_embeddings)
      end
  end.

(** [get_embeddings_batch] *)
Definition get_embeddings_batch (ext : Backends)
    (create : list text → option (list (list Q))) (texts : list text)
    (ct : CostTracker)
    : option (list (list Q)) * CostTracker * list (list text) :=
  let '(embeddings_list, ct', sent) :=
    embed_batches ext create (chunks 100 texts) ct [] [] in
  (embeddings_list ≫= vstack, ct', sent).

Definition not_blank_or_nan (t : text) : bool :=
  negb (bool_decide (t = [])) && negb (bool_decide (t = utf8 "nan")).

(** The cleaning of the two columns: strip both cells, keep the rows whose
    cells are neither empty nor "nan", and add the [combined] column. *)
Definition clean_rows (raw : list (text * text)) : list Row :=
  map (λ p : text * text,
         {| english := p.1; arabic := p.2;
            combined := p.1 ++ utf8 " | " ++ p.2 |})
    (List.filter (λ p : text * text, not_blank_or_nan p.1 && not_blank_or_nan p.2)
       (map (λ p : text * text, (strip p.1, strip p.2)) raw)).

Definition with_cost_tracker (ct : CostTracker) (w : World) : World :=
  {| state := {| index := index (state w); glossary := glossary (state w);
                 initialized := initialized (state w); cost_tracker := ct |};
     requests_sent := requests_sent w; cost_log := cost_log w |}.

(** [load_excel_glossary] after the sheet is read: [frame] holds the first
    two columns as strings, or [None] when reading raises or the sheet has
    fewer than two columns.  Saving to disk is taken to succeed.  Returns
    the outcome, the world and the batches requested from the backend. *)
Definition load_excel_glossary (cfg : Config) (ext : Backends)
    (create : list text → option (list (list Q)))
    (frame : option (list (text * text))) (w : World)
    : Outcome unit * World * list (list text) :=
  match frame with
  | None => (Exception, w, [])
  | Some raw =>
      match clean_rows raw with
      | [] => (Exception, w, [])
      | rows =>
          let '(embeddings, ct, sent) :=
            get_embeddings_batch ext create (map combined rows)
              (cost_tracker (state w)) in
          match embeddings with
          | None => (Exception, with_cost_tracker ct w, sent)
          | Some vectors =>
              if forallb (λ v, (length v =? EMBEDDING_DIMENSIONS cfg)%nat) vectors
              then
                (Returned (),
                 {| state :=
                      {| index := Some {| index_d := EMBEDDING_DIMENSIONS cfg;
                                          index_xb := vectors |};
                         glossary := Some rows;
                         initialized := true;
                         cost_tracker := ct |};
                    requests_sent := requests_sent w;
                    cost_log := cost_log w |},
                 sent)
              else (Exception, with_cost_tracker ct w, sent)
          end
      end
  end.

(** ** Further definitions: language detection *)

(** The characters [detect_language] counts. *)
Definition counted (c : N) : bool := is_arabic c || is_ascii_alpha c.

(** ** Further definitions: the translate endpoint and the middleware *)

(** [f"HTTP {status_code}"]; status codes are positive. *)
Definition http_label (status_code : Z) : text :=
  utf8 "HTTP " ++ str_of_nat (Z.to_nat status_code).

(** The body of the [/api/translate] endpoint, once its dependencies are
    resolved.  [utcnow] is the reading [record_error] takes and [str_e] the
    text of a caught exception, which an [Outcome] does not carry. *)
Definition translate (cfg : Config) (ext : Backends) (utcnow : Q)
    (str_e : text) (request_text : text) (hm : HealthMonitor.t) (w : World)
    : Outcome TranslateResult * World * HealthMonitor.t :=
  match translate_text cfg ext request_text w with
  | (Returned result, w') => (Returned result, w', hm)
  | (HTTPException status_code detail, w') =>
      (HTTPException status_code detail, w',
       HealthMonitor.record_error utcnow "http_error" "/api/translate"
         (http_label status_code ++ utf8 ": " ++ detail) hm)
  | (Exception, w') =>
      (HTTPException 500 (utf8 "Translation service temporarily unavailable"),
       w',
       HealthMonitor.record_error utcnow "translation_error" "/api/translate"
         str_e hm)
  end.

(** A header value: a literal, or a number rendered by [str]. *)
Inductive HeaderValue := Literal (s : string) | Number (x : Q).

(** A response: its status code and its headers, keyed by lower-cased name
    as Starlette keeps them. *)
Record Response := {
  status_code : Z;
  headers : gmap string HeaderValue
}.

(** What [call_next] does: the inner application answers, or raises. *)
Inductive CallNext := Responds (response : Response) | Raises (str_e : text).

(** The clock readings of one pass through the middleware: the two
    [time.time()] of the middleware itself, then those taken by
    [record_response_time], by the alert it may trigger, and by
    [record_error]. *)
Record Clock := {
  start_time : Q;
  end_time : Q;
  sample_utcnow : Q;
  alert_now : Q;
  alert_utcnow : Q;
  error_utcnow : Q
}.

(** [logging_and_security_middleware] *)
Definition logging_and_security_middleware (clk : Clock) (path scheme : string)
    (call_next : CallNext) (hm : HealthMonitor.t)
    : Outcome Response * HealthMonitor.t :=
  match call_next with
  | Responds response =>
      let process_time := (end_time clk - start_time clk)%Q in
      let hm :=
        HealthMonitor.record_response_time (sample_utcnow clk) (alert_now clk)
          (alert_utcnow clk) path process_time hm in
      let hm :=
        if 400 <=? status_code response then
          let error_type :=
            if status_code response <? 500 then "client_error"
            else "server_error" in
          HealthMonitor.record_error (error_utcnow clk) error_type path
            (http_label (status_code response)) hm
        else hm in
      let hdrs :=
        <["x-response-time" := Number process_time]>
        (<["permissions-policy" := Literal "geolocation=(), microphone=(), camera=()"]>
        (<["referrer-policy" := Literal "strict-origin-when-cross-origin"]>
        (<["x-xss-protection" := Literal "1; mode=block"]>
        (<["x-frame-options" := Literal "DENY"]>
        (<["x-content-type-options" := Literal "nosniff"]>
           (headers response)))))) in
      let hdrs :=
        if String.eqb scheme "https" then
          <["strict-transport-security" :=
              Literal "max-age=31536000; includeSubDomains"]> hdrs
        else hdrs in
      (Returned {| status_code := status_code response; headers := hdrs |}, hm)
  | Raises str_e =>
      (Exception,
       HealthMonitor.record_error (error_utcnow clk) "exception" path str_e hm)
  end.

(** How FastAPI turns what an endpoint does into what [call_next] gives the
    middleware: a result is a 200 response, an [HTTPException] is answered
    by the exception handler with its status code, any other exception
    comes out of [call_next].  [inner] are the headers the framework puts
    on the response. *)
Definition answered {A} (out : Outcome A) (str_e : text)
    (inner : gmap string HeaderValue) : CallNext :=
  match out with
  | Returned _ => Responds {| status_code := 200; headers := inner |}
  | HTTPException code _ => Responds {| status_code := code; headers := inner |}
  | Exception => Raises str_e
  end.

(** A request to [/api/translate] that the rate limiter admits: the
    endpoint runs inside the middleware. *)
Definition translate_request (cfg : Config) (ext : Backends) (clk : Clock)
    (endpoint_utcnow : Q) (str_e : text) (scheme : string)
    (inner : gmap string HeaderValue) (request_text : text)
    (hm : HealthMonitor.t) (w : World)
    : Outcome Response * World * HealthMonitor.t :=
  let '(out, w', hm1) :=
    translate cfg ext endpoint_utcnow str_e request_text hm w in
  let '(response, hm2) :=
    logging_and_security_middleware clk "/api/translate" scheme
      (answered out str_e inner) hm1 in
  (response, w', hm2).

(** ** Further definitions: the OCR endpoint *)

(** An uploaded file as the endpoint reads it. *)
Record UploadFile := {
  filename : option text;
  content_type : option text;
  file_data : list N
}.

(** What [pytesseract.image_to_string] does. *)
Inductive Tesseract := Recognized (t : text) | ImportError | Failure.

(** The image libraries and the vision model, each a function of the image
    bytes: the Pillow steps of [validate_and_process_image] ([None] when
    one raises), the chat completion of [extract_text_with_gpt_vision]
    (content and total tokens, [None] when the call raises), and
    Tesseract. *)
Record ImageTools := {
  pillow : list N → option (list N);
  gpt_vision : list N → option (text * Z);
  pytesseract : list N → Tesseract
}.

(** [validate_and_process_image]: whatever goes wrong inside, the size
    check included, leaves as status 400; [str_e] is the text of the
    exception caught. *)
Definition validate_and_process_image (tools : ImageTools)
    (image_data : list N) (max_size_mb : Z) (str_e : text) : M (list N) :=
  if max_size_mb * 1024 * 1024 <? Z.of_nat (length image_data) then
    raise_http 400 (utf8 "Invalid image file: " ++ str_e)
  else
    match pillow tools image_data with
    | Some processed => mret processed
    | None => raise_http 400 (utf8 "Invalid image file: " ++ str_e)
    end.

(** [extract_text_with_gpt_vision]; the image travels base64-encoded. *)
Definition extract_text_with_gpt_vision (tools : ImageTools)
    (image : list N) : M text :=
  response ← or_raise (gpt_vision tools image);
  let '(content, total_tokens) := response in
  track_completion_cost total_tokens;;
  mret (strip content).

(** [extract_text_with_tesseract] *)
Definition extract_text_with_tesseract (tools : ImageTools) (image : list N)
    (str_e : text) : M text :=
  match pytesseract tools image with
  | Recognized t => mret (strip t)
  | ImportError =>
      raise_http 500 (utf8 "Tesseract OCR not available. Install pytesseract.")
  | Failure => raise_http 500 (utf8 "Tesseract OCR error: " ++ str_e)
  end.

Record OCRResponse := {
  ocr_extracted_text : text;
  ocr_translated_text : text;
  ocr_detected_language : string;
  ocr_tokens_used : Z;
  ocr_cost_estimate : Q
}.

Definition allowed_types : list text :=
  [utf8 "image/jpeg"; utf8 "image/jpg"; utf8 "image/png"; utf8 "image/webp"].

(** [not file.content_type or file.content_type not in allowed_types] *)
Definition bad_type (file : UploadFile) : bool :=
  match content_type file with
  | None => true
  | Some t => bool_decide (t = []) || negb (bool_decide (t ∈ allowed_types))
  end.

(** [not file.filename or len(file.filename) > 255] *)
Definition bad_name (file : UploadFile) : bool :=
  match filename file with
  | None => true
  | Some n => bool_decide (n = []) || (255 <? length n)%nat
  end.

(** [str(x)] for an optional text. *)
Definition str_or_None (o : option text) : text := default (utf8 "None") o.

(** The [try] block of [ocr_and_translate].  [utcnow] is the reading of the
    one [record_error] the block may reach. *)
Definition ocr_try (cfg : Config) (ext : Backends) (tools : ImageTools)
    (utcnow : Q) (str_e : text) (file : UploadFile) (ocr_method : string)
    (hm : HealthMonitor.t) (w : World)
    : Outcome OCRResponse * World * HealthMonitor.t :=
  if negb (initialized (state w)) then
    (HTTPException 503 (utf8 "Glossary not loaded"), w,
     HealthMonitor.record_error utcnow "service_unavailable" "/api/ocr"
       (utf8 "Glossary not loaded") hm)
  else if bad_type file then
    (HTTPException 400
       (utf8 "Invalid file type. Allowed types: " ++ join (utf8 ", ") allowed_types),
     w,
     HealthMonitor.record_error utcnow "validation_error" "/api/ocr"
       (utf8 "Invalid file type: " ++ str_or_None (content_type file)) hm)
  else if bad_name file then
    (HTTPException 400 (utf8 "Invalid filename"), w,
     HealthMonitor.record_error utcnow "validation_error" "/api/ocr"
       (utf8 "Invalid filename: " ++ str_or_None (filename file)) hm)
  else
    match validate_and_process_image tools (file_data file) 10 str_e w with
    | (Returned processed_image_data, w0) =>
        let extraction :=
          if String.eqb ocr_method "gpt-vision" then
            Some (extract_text_with_gpt_vision tools processed_image_data w0)
          else if String.eqb ocr_method "tesseract" then
            Some (extract_text_with_tesseract tools processed_image_data str_e w0)
          else None in
        match extraction with
        | None =>
            (HTTPException 400
               (utf8 "Invalid OCR method. Use 'gpt-vision' or 'tesseract'"),
             w0,
             HealthMonitor.record_error utcnow "validation_error" "/api/ocr"
               (utf8 "Invalid OCR method: " ++ utf8 ocr_method) hm)
        | Some (Returned extracted_text, w1) =>
            if (length (strip extracted_text) =? 0)%nat then
              (Returned {| ocr_extracted_text := [];
                           ocr_translated_text := utf8 "No text detected in image";
                           ocr_detected_language := "none";
                           ocr_tokens_used := 0;
                           ocr_cost_estimate := 0 |}, w1, hm)
            else
              let '(out, w2) :=
                (translation_result ← translate_text cfg ext extracted_text;
                 log_api_usage "/api/ocr" (cost_estimate translation_result)
                   (tokens_used translation_result) "ocr";;
                 mret {| ocr_extracted_text := extracted_text;
                         ocr_translated_text := translated_text translation_result;
                         ocr_detected_language := detected_language translation_result;
                         ocr_tokens_used := tokens_used translation_result;
                         ocr_cost_estimate := cost_estimate translation_result |})
                  w1 in
              (out, w2, hm)
        | Some (HTTPException code detail, w1) =>
            (HTTPException code detail, w1, hm)
        | Some (Exception, w1) => (Exception, w1, hm)
        end
    | (HTTPException code detail, w0) => (HTTPException code detail, w0, hm)
    | (Exception, w0) => (Exception, w0, hm)
    end.

(** [ocr_and_translate]: the [try] block, then the two handlers; [utcnow']
    is the reading [record_error] takes in a handler. *)
Definition ocr_and_translate (cfg : Config) (ext : Backends)
    (tools : ImageTools) (utcnow utcnow' : Q) (str_e : text)
    (file : UploadFile) (ocr_method : string) (hm : HealthMonitor.t)
    (w : World) : Outcome OCRResponse * World * HealthMonitor.t :=
  match ocr_try cfg ext tools utcnow str_e file ocr_method hm w with
  | (Returned response, w', hm') => (Returned response, w', hm')
  | (HTTPException code detail, w', hm') =>
      (HTTPException code detail, w',
       HealthMonitor.record_error utcnow' "http_error" "/api/ocr"
         (http_label code ++ utf8 ": " ++ detail) hm')
  | (Exception, w', hm') =>
      (HTTPException 500 (utf8 "OCR service temporarily unavailable"), w',
       HealthMonitor.record_error utcnow' "ocr_error" "/api/ocr" str_e hm')
  end.

(** ** Further definitions: uploading a glossary *)

(** What [pd.read_excel] makes of the uploaded bytes: it raises, or gives a
    frame with fewer than two columns, or one whose first two columns, as
    strings, are [raw]. *)
Inductive Sheet := BadSheet | Narrow | Columns (raw : list (text * text)).

(** An entry of the update history (its wall-clock stamp left out). *)
Record HistoryEntry := {
  history_filename : text;
  history_entries : nat;
  history_user : text
}.

(** The history file: absent, not valid JSON, or a list of entries,
    newest first. *)
Inductive HistoryFile :=
  | NoHistory
  | BadHistory
  | History (entries : list HistoryEntry).

Definition excel_types : list text :=
  [utf8 "application/vnd.openxmlformats-officedocument.spreadsheetml.sheet";
   utf8 "application/vnd.ms-excel"].

(** [str.endswith] *)
Definition endswith (t suffix : text) : bool := bool_decide (suffix `suffix_of` t).

(** [not file.filename or not (endswith('.xlsx') or endswith('.xls'))] *)
Definition bad_excel_name (file : UploadFile) : bool :=
  match filename file with
  | None => true
  | Some n =>
      bool_decide (n = [])
      || negb (endswith n (utf8 ".xlsx") || endswith n (utf8 ".xls"))
  end.

Definition bad_excel_type (file : UploadFile) : bool :=
  match content_type file with
  | None => true
  | Some t => bool_decide (t = []) || negb (bool_decide (t ∈ excel_types))
  end.

(** What an upload leaves behind: the outcome, the world, the batches
    requested from the embedding backend, and the history file. *)
Record Uploaded := {
  upload_outcome : Outcome text;
  upload_world : World;
  upload_batches : list (list text);
  upload_history : HistoryFile
}.

(** [upload_glossary], once the caller is authenticated as [username].
    [read_excel] is pandas on the uploaded bytes, [str_e] the text of a
    caught exception; saving the glossary and writing the history are taken
    to succeed. *)
Definition upload_glossary (cfg : Config) (ext : Backends)
    (create : list text → option (list (list Q)))
    (read_excel : list N → Sheet) (str_e : text) (file : UploadFile)
    (username : text) (history : HistoryFile) (w : World) : Uploaded :=
  let refused detail :=
    {| upload_outcome := HTTPException 400 (utf8 detail); upload_world := w;
       upload_batches := []; upload_history := history |} in
  if bad_excel_type file then
    refused "Invalid file type. Please upload an Excel file (.xlsx or .xls)"
  else if bad_excel_name file then refused "Invalid Excel filename"
  else if 50 * 1024 * 1024 <? Z.of_nat (length (file_data file)) then
    refused "Excel file too large. Maximum size: 50MB"
  else
    match read_excel (file_data file) with
    | BadSheet =>
        {| upload_outcome := HTTPException 500 str_e; upload_world := w;
           upload_batches := []; upload_history := history |}
    | Narrow => refused "Excel file must have at least 2 columns"
    | Columns raw =>
        match clean_rows raw with
        | [] => refused "No valid entries found in glossary"
        | rows =>
            let '(embeddings, ct, sent) :=
              get_embeddings_batch ext create (map combined rows)
                (cost_tracker (state w)) in
            let failed :=
              {| upload_outcome := HTTPException 500 str_e;
                 upload_world := with_cost_tracker ct w;
                 upload_batches := sent; upload_history := history |} in
            match embeddings with
            | None => failed
            | Some vectors =>
                if forallb (λ v, (length v =? EMBEDDING_DIMENSIONS cfg)%nat) vectors
                then
                  let w' :=
                    {| state :=
                         {| index := Some {| index_d := EMBEDDING_DIMENSIONS cfg;
                                             index_xb := vectors |};
                            glossary := Some rows;
                            initialized := true;
                            cost_tracker := ct |};
                       requests_sent := requests_sent w;
                       cost_log := cost_log w |} in
                  let history_entry :=
                    {| history_filename := default [] (filename file);
                       history_entries := length rows;
                       history_user := username |} in
                  match history with
                  | BadHistory =>
                      {| upload_outcome := HTTPException 500 str_e;
                         upload_world := w'; upload_batches := sent;
                         upload_history := history |}
                  | _ =>
                      let old :=
                        match history with History entries => entries | _ => [] end in
                      {| upload_outcome :=
                           Returned (utf8 "Glossary uploaded successfully with "
                                     ++ str_of_nat (length rows) ++ utf8 " entries");
                         upload_world := w'; upload_batches := sent;
                         upload_history := History (take 10 (history_entry :: old)) |}
                  end
                else failed
            end
        end
    end.

(** The frame [load_excel_glossary] works on, for the same sheet. *)
Definition frame_of (sheet : Sheet) : option (list (text * text)) :=
  match sheet with Columns raw => Some raw | _ => None end.

(** ** Further definitions: who a request is counted for *)

(** What the limiter reads of a request: two headers, whose values are
    strings of Latin-1 characters, and the peer address if there is one. *)
Record RequestInfo := {
  x_forwarded_for : option string;
  x_real_ip : option string;
  client_host : option string
}.

(** [s.split(",")[0]] *)
Fixpoint before_comma (s : string) : string :=
  match s with
  | EmptyString => EmptyString
  | String a s' =>
      if (Ascii.N_of_ascii a =? 44)%N then EmptyString
      else String a (before_comma s')
  end.

(** [str.strip()] on a header value. *)
Definition strip_string (s : string) : string :=
  String.string_of_list_ascii
    (map Ascii.ascii_of_N
       (strip (map Ascii.N_of_ascii (String.list_ascii_of_string s)))).

(** [RateLimiter.get_client_ip] *)
Definition get_client_ip (request : RequestInfo) : string :=
  match x_forwarded_for request with
  | Some (String a f) => strip_string (before_comma (String a f))
  | _ =>
      match x_real_ip request with
      | Some (String a r) => String a r
      | _ => default "unknown" (client_host request)
      end
  end.

(** What [rate_limit_dependency] does: it returns the client address, or
    raises status 429 with a [Retry-After] header. *)
Inductive Limited :=
  | Passed (client_ip : string)
  | TooMany (status_code : Z) (detail : text) (retry_after : Z).

(** [rate_limit_dependency] *)
Definition rate_limit_dependency (cfg : Config) (now : Q)
    (request : RequestInfo) (endpoint : string) (limit : option Z)
    (st : RateLimiter.storage) : Limited * RateLimiter.storage :=
  let client_ip := get_client_ip request in
  let '(allowed, st') :=
    RateLimiter.is_allowed cfg now client_ip endpoint limit None st in
  if allowed then (Passed client_ip, st')
  else
    (TooMany 429 (utf8 "Rate limit exceeded. Please try again later.")
       (RATE_LIMIT_WINDOW cfg), st').

(** ** Further definitions: occurrence of a text in a text *)

(** [hay.startswith(needle)] *)
Fixpoint starts_with (needle hay : text) : bool :=
  match needle, hay with
  | [], _ => true
  | _ :: _, [] => false
  | a :: needle', b :: hay' => (a =? b)%N && starts_with needle' hay'
  end.

(** [needle in hay] *)
Fixpoint occurs_in (needle hay : text) : bool :=
  starts_with needle hay
  || match hay with
     | [] => false
     | _ :: hay' => occurs_in needle hay'
     end.

(** * Properties *)

(** ** Comparisons on rationals *)

Lemma Qltb_lt (x y : Q) : Qltb x y = true ↔ (x < y)%Q.
Proof.
  unfold Qltb. rewrite Qlt_alt. destruct (x ?= y)%Q; split; congruence.
Qed.

Lemma Qltb_ge (x y : Q) : Qltb x y = false ↔ (y <= x)%Q.
Proof.
  rewrite <- not_true_iff_false, Qltb_lt. split; [apply Qnot_lt_le | apply Qle_not_lt].
Qed.

(** ** Rate limiter *)

Section RateLimiterFacts.
Import RateLimiter.

Variable cfg : Config.
Variables client_ip endpoint : string.
Variables L W : Z.

Let key := make_key client_ip endpoint.
Let allow now st := is_allowed cfg now client_ip endpoint (Some L) (Some W) st.
Let run times st := checks cfg client_ip endpoint (Some L) (Some W) times st.




Lemma is_allowed_unfold now st :
  allow now st =
    let requests := clean_old (now - inject_Z W) (default [] (st !! key)) in
    if Z.of_nat (length requests) >=? L
    then (false, <[key := requests]> st)
    else (true, <[key := requests ++ [now]]> st).
Proof. reflexivity. Qed.


(** Checks of other keys are unaffected. *)
Lemma is_allowed_other now st k :
  k ≠ key → (allow now st).2 !! k = st !! k.
Proof.
  intros Hk. rewrite is_allowed_unfold. cbv zeta.
  destruct (_ >=? _); simpl; by rewrite lookup_insert_ne.
Qed.



End RateLimiterFacts.



(** ** Health monitor: error rate *)

Section ErrorRate.
Import HealthMonitor.

Lemma filter_all {A} (p : A → bool) (l : list A) :
  Forall (λ x, p x = true) l → List.filter p l = l.
Proof.
  induction 1 as [|x l Hx _ IH]; [done|]. simpl. by rewrite Hx, IH.
Qed.

End ErrorRate.

(** C2 as stated fails: with a latency sample older than the cutoff in the
    buffer, the code divides by 2 where the stated quotient divides by 1. *)
Lemma error_rate_stale_sample_counterexample :
  newer_samples 1010 5 skewed_monitor ≠ 0%nat
  ∧ (HealthMonitor.get_error_rate 1010 5 skewed_monitor == 1 # 2)%Q
  ∧ (inject_Z (Z.of_nat (newer_errors 1010 5 skewed_monitor))
     / inject_Z (Z.of_nat (newer_samples 1010 5 skewed_monitor)) == 1)%Q
  ∧ ¬ (HealthMonitor.get_error_rate 1010 5 skewed_monitor
       == HealthMonitor.spec_error_rate 1010 5 skewed_monitor)%Q.
Proof. vm_compute. repeat split; discriminate. Qed.

(** C2, amended.  [get_error_rate] is 0 when no error sample or no latency
    sample is buffered; otherwise it is the number of buffered error
    samples newer than the cutoff divided by the number of all buffered
    latency samples, whatever their age.  It is the quotient over the
    latency samples newer than the cutoff whenever none of the buffered
    latency samples is older. *)
Theorem get_error_rate_quotient (utcnow : Q) (window_minutes : Z)
    (hm : HealthMonitor.t) :
  (HealthMonitor.recent_response_times hm ≠ [] →
   (HealthMonitor.get_error_rate utcnow window_minutes hm
    == inject_Z (Z.of_nat (newer_errors utcnow window_minutes hm))
       / inject_Z (Z.of_nat (length (HealthMonitor.recent_response_times hm))))%Q)
  ∧ (HealthMonitor.recent_errors hm = []
     ∨ HealthMonitor.recent_response_times hm = [] →
     HealthMonitor.get_error_rate utcnow window_minutes hm = 0%Q)
  ∧ (Forall (λ rt, (utcnow - HealthMonitor.minutes window_minutes
                    < HealthMonitor.time_timestamp rt)%Q)
       (HealthMonitor.recent_response_times hm) →
     HealthMonitor.get_error_rate utcnow window_minutes hm
     = HealthMonitor.spec_error_rate utcnow window_minutes hm).
Proof.
  unfold HealthMonitor.get_error_rate, HealthMonitor.spec_error_rate, newer_errors.
  destruct (HealthMonitor.recent_response_times hm) as [|rt rts] eqn:Hrts.
  - split; [done|]. split; intros _;
      by destruct (HealthMonitor.recent_errors hm).
  - split; [|split].
    + intros _. destruct (HealthMonitor.recent_errors hm) as [|e es]; [|done].
      simpl. unfold Qdiv. by rewrite Qmult_0_l.
    + intros [-> | ?]; done.
    + intros Hfresh.
      destruct (HealthMonitor.recent_errors hm) as [|e es]; [done|].
      rewrite (filter_all _ (rt :: rts)); [done|].
      eapply Forall_impl; [exact Hfresh|]. intros x Hx. by apply Qltb_lt.
Qed.

Lemma get_error_rate_quotient_witness :
  (HealthMonitor.get_error_rate 1010 5 skewed_monitor
   == inject_Z (Z.of_nat (newer_errors 1010 5 skewed_monitor))
      / inject_Z (Z.of_nat (length (HealthMonitor.recent_response_times skewed_monitor))))%Q
  ∧ HealthMonitor.get_error_rate 1010 5 HealthMonitor.init = 0%Q.
Proof.
  split.
  - apply (get_error_rate_quotient 1010 5 skewed_monitor). discriminate.
  - apply (get_error_rate_quotient 1010 5 HealthMonitor.init). by left.
Defined.

(** ** Health monitor: alert cooldown *)

Section AlertCooldown.
Import HealthMonitor.

Lemma trigger_alert_fires now utcnow type message hm :
  (alert_cooldown_duration hm < now - default 0%Q (alert_cooldown hm !! type))%Q →
  warnings (_trigger_alert now utcnow type message hm)
    = warnings hm ++ [{| alert_timestamp := now; alert_type := type;
                         alert_message := message |}]
  ∧ alert_cooldown (_trigger_alert now utcnow type message hm)
    = <[type := now]> (alert_cooldown hm)
  ∧ alert_cooldown_duration (_trigger_alert now utcnow type message hm)
    = alert_cooldown_duration hm.
Proof.
  intros Hgo. apply Qltb_lt in Hgo. unfold _trigger_alert. by rewrite Hgo.
Qed.

Lemma trigger_alert_suppressed now utcnow type message hm :
  (now - default 0%Q (alert_cooldown hm !! type) <= alert_cooldown_duration hm)%Q →
  _trigger_alert now utcnow type message hm = hm.
Proof.
  intros Hno. apply Qltb_ge in Hno. unfold _trigger_alert. by rewrite Hno.
Qed.

Lemma apart_snoc gap (times : list Q) (now : Q) :
  (0 <= gap)%Q → apart gap times →
  (∀ x, last times = Some x → (gap < now - x)%Q) →
  apart gap (times ++ [now]).
Proof.
  intros Hgap. induction times as [|a rest IH]; intros Hap Hlast.
  - simpl. split; [constructor | done].
  - destruct Hap as [Hrest Hap]. simpl. split.
    + apply Forall_app. split.
      * exact Hrest.
      * constructor; [|constructor].
        destruct rest as [|b rest'] using rev_ind.
        { apply Hlast. done. }
        clear IHrest'. specialize (Hlast b). rewrite last_cons, last_snoc in Hlast.
        specialize (Hlast eq_refl).
        apply Forall_app in Hrest as [_ Hb]. apply Forall_cons in Hb as [Hb _]. lra.
    + apply IH; [exact Hap|]. intros x Hx. apply Hlast.
      rewrite last_cons, Hx. done.
Qed.

Lemma fire_times_snoc type hm hm' a :
  warnings hm' = warnings hm ++ [a] →
  fire_times type hm' =
    fire_times type hm ++ (if String.eqb (alert_type a) type then [alert_timestamp a] else []).
Proof.
  intros Hw. unfold fire_times. rewrite Hw, List.filter_app, map_app. simpl.
  by destruct (String.eqb (alert_type a) type).
Qed.

Lemma trigger_cooled c hm :
  (0 <= alert_cooldown_duration hm)%Q → cooled hm →
  cooled (trigger c hm) ∧
  alert_cooldown_duration (trigger c hm) = alert_cooldown_duration hm.
Proof.
  intros Hgap Hinv. unfold trigger.
  destruct (Qlt_le_dec (alert_cooldown_duration hm)
              (call_now c - default 0%Q (alert_cooldown hm !! call_type c))) as [Hgo|Hno].
  - destruct (trigger_alert_fires (call_now c) (call_utcnow c) (call_type c)
                (call_message c) hm Hgo) as (Hw & Hcd & Hdur).
    split; [|exact Hdur]. intros type. rewrite Hdur, Hcd.
    rewrite (fire_times_snoc type hm _ _ Hw). simpl.
    destruct (Hinv type) as [Hap Hlast].
    destruct (String.eqb_spec (call_type c) type) as [<-|Hne].
    + split.
      * apply apart_snoc; [done | done |]. intros x Hx.
        apply Hlast in Hx. rewrite Hx in Hgo. exact Hgo.
      * intros x. rewrite last_snoc. intros [= <-]. by rewrite lookup_insert_eq.
    + rewrite app_nil_r. split; [done|]. intros x Hx.
      rewrite lookup_insert_ne by done. by apply Hlast.
  - rewrite trigger_alert_suppressed by done. done.
Qed.

Lemma trigger_all_cooled calls : ∀ hm,
  (0 <= alert_cooldown_duration hm)%Q → cooled hm → cooled (trigger_all calls hm).
Proof.
  induction calls as [|c calls IH]; intros hm Hgap Hinv; [done|].
  simpl. destruct (trigger_cooled c hm Hgap Hinv) as [Hinv' Hdur].
  apply IH; [by rewrite Hdur | done].
Qed.

Lemma trigger_all_duration calls : ∀ hm,
  alert_cooldown_duration (trigger_all calls hm) = alert_cooldown_duration hm.
Proof.
  induction calls as [|c calls IH]; intros hm; [done|]. simpl. rewrite IH.
  unfold trigger, _trigger_alert. by destruct (Qltb _ _).
Qed.

End AlertCooldown.

(** C5.  Alert cooldown.  Take any monitor and alert type for which a call
    at reading [t1] fires, that is, [t1] is more than the cooldown past the
    type's last alert (past 0 when the type has no entry).  Then that call
    emits one alert; a second call at [t2], no more than the cooldown after
    [t1], emits nothing and changes nothing; a third call at [t3], more than
    the cooldown after [t1], emits the second alert.  A type with no entry
    fires on its first call, the clock reading more than the cooldown (as
    Unix time does).  And whatever calls a fresh monitor receives, the
    readings at which one type fired are pairwise more than the cooldown
    apart: at most one alert of a type per cooldown interval. *)
Theorem alert_cooldown_once (hm : HealthMonitor.t) (type : string)
    (m1 m2 m3 : HealthMonitor.Message) (t1 t2 t3 u1 u2 u3 : Q) :
  let cd := HealthMonitor.alert_cooldown_duration hm in
  let alert := λ now m, {| HealthMonitor.alert_timestamp := now;
                           HealthMonitor.alert_type := type;
                           HealthMonitor.alert_message := m |} in
  let hm1 := HealthMonitor._trigger_alert t1 u1 type m1 hm in
  let hm2 := HealthMonitor._trigger_alert t2 u2 type m2 hm1 in
  let hm3 := HealthMonitor._trigger_alert t3 u3 type m3 hm2 in
  (cd < t1 - default 0%Q (HealthMonitor.alert_cooldown hm !! type))%Q →
  (t2 - t1 <= cd)%Q →
  (cd < t3 - t1)%Q →
  HealthMonitor.warnings hm1 = HealthMonitor.warnings hm ++ [alert t1 m1]
  ∧ hm2 = hm1
  ∧ HealthMonitor.warnings hm3
      = HealthMonitor.warnings hm ++ [alert t1 m1; alert t3 m3]
  ∧ (∀ hm0 now utcnow m,
       HealthMonitor.alert_cooldown hm0 !! type = None →
       (HealthMonitor.alert_cooldown_duration hm0 < now)%Q →
       HealthMonitor.warnings (HealthMonitor._trigger_alert now utcnow type m hm0)
         = HealthMonitor.warnings hm0 ++ [alert now m])
  ∧ (∀ hm0 calls ty,
       (0 <= HealthMonitor.alert_cooldown_duration hm0)%Q →
       HealthMonitor.warnings hm0 = [] →
       HealthMonitor.alert_cooldown hm0 = ∅ →
       apart (HealthMonitor.alert_cooldown_duration hm0)
         (fire_times ty (trigger_all calls hm0))).
Proof.
  intros cd alert hm1 hm2 hm3 H1 H2 H3.
  destruct (trigger_alert_fires t1 u1 type m1 hm H1) as (Hw1 & Hcd1 & Hdur1).
  fold hm1 in Hw1, Hcd1, Hdur1.
  assert (Hhm2 : hm2 = hm1).
  { apply trigger_alert_suppressed. rewrite Hcd1, Hdur1, lookup_insert_eq. exact H2. }
  split; [exact Hw1|]. split; [exact Hhm2|]. split; [|split].
  - unfold hm3. rewrite Hhm2.
    destruct (trigger_alert_fires t3 u3 type m3 hm1) as (Hw3 & _).
    { rewrite Hcd1, Hdur1, lookup_insert_eq. exact H3. }
    rewrite Hw3, Hw1, <- app_assoc. done.
  - intros hm0 now utcnow m Hnone Hnow.
    apply trigger_alert_fires. rewrite Hnone. simpl. lra.
  - intros hm0 calls ty Hgap Hw Hcd.
    rewrite <- (trigger_all_duration calls hm0).
    apply trigger_all_cooled; [exact Hgap|].
    intros ty'. unfold fire_times. rewrite Hw. simpl. split; [done | done].
Qed.

Lemma alert_cooldown_once_witness :
  length (HealthMonitor.warnings
            (HealthMonitor._trigger_alert 1200 1200 "high_memory" []
               (HealthMonitor._trigger_alert 1000 1000 "high_memory" []
                  HealthMonitor.init))) = 1%nat
  ∧ length (HealthMonitor.warnings
              (HealthMonitor._trigger_alert 1301 1301 "high_memory" []
                 (HealthMonitor._trigger_alert 1200 1200 "high_memory" []
                    (HealthMonitor._trigger_alert 1000 1000 "high_memory" []
                       HealthMonitor.init)))) = 2%nat.
Proof.
  destruct (alert_cooldown_once HealthMonitor.init "high_memory" [] [] []
              1000 1200 1301 1000 1200 1301) as (Hw1 & Hhm2 & Hw3 & _).
  - apply Qltb_lt. reflexivity.
  - apply Qle_bool_iff. reflexivity.
  - apply Qltb_lt. reflexivity.
  - split.
    + rewrite Hhm2, Hw1. reflexivity.
    + rewrite Hw3. reflexivity.
Defined.

(** ** Health monitor: the report *)

(** Distinctness and inclusion of lists of check names. *)
Ltac fresh_names :=
  repeat (apply not_elem_of_cons; split; [discriminate|]); apply not_elem_of_nil.

Ltac sublist_names :=
  let n := fresh "n" in let Hn := fresh "Hn" in
  intros n Hn; repeat (apply elem_of_cons in Hn as [->|Hn]);
  [ repeat (first [apply list_elem_of_here | apply list_elem_of_further]) .. | by apply elem_of_nil in Hn ].

Section HealthReport.
Import HealthMonitor.

Variable env : Env.

Lemma dict_set_fresh name status (d : list (string * string)) :
  name ∉ d.*1 → dict_set name status d = d ++ [(name, status)].
Proof.
  induction d as [|[n st] d IH]; [done|]. simpl. intros Hfresh.
  apply not_elem_of_cons in Hfresh as [Hne Hfresh].
  destruct (String.eqb_spec n name); [congruence|]. by rewrite IH.
Qed.

Lemma trigger_alert_thresholds now utcnow type message hm :
  alert_thresholds (_trigger_alert now utcnow type message hm) = alert_thresholds hm.
Proof. unfold _trigger_alert. by destruct (Qltb _ _). Qed.

Lemma report_ok_weaken thr fresh fresh' s :
  fresh' ⊆ fresh → report_ok thr fresh s → report_ok thr fresh' s.
Proof.
  intros Hsub (Hf & Hrest). split; [|exact Hrest].
  intros n Hn. apply Hf, Hsub, Hn.
Qed.

Lemma check_step_ok thr fresh name healthy bad type message s :
  bad = "warning" ∨ bad = "unhealthy" →
  name ∉ fresh →
  report_ok thr (name :: fresh) s →
  report_ok thr fresh (check_step env name healthy bad (negb healthy) type message s).
Proof.
  destruct s as [hs hm]. intros Hbad Hname (Hfresh & Hthr & Hknown & Hagg).
  simpl in Hfresh, Hthr, Hknown, Hagg.
  assert (Hnew : name ∉ (checks hs).*1).
  { apply Hfresh, elem_of_cons. by left. }
  assert (Hkeys : ∀ st n, n ∈ fresh → n ∉ (checks hs ++ [(name, st)]).*1).
  { intros st n Hn. rewrite fmap_app. simpl.
    apply not_elem_of_app. split.
    - apply Hfresh, elem_of_cons. by right.
    - apply not_elem_of_cons. split; [|apply not_elem_of_nil].
      intros ->. done. }
  unfold report_ok, check_step, degrade, set_overall, set_check. cbv zeta.
  destruct healthy; cbn [negb fst snd overall_status checks];
    rewrite dict_set_fresh by done.
  - split; [by apply Hkeys|]. split; [done|]. split.
    + apply Forall_app. split; [done|]. constructor; [|constructor]. by left.
    + destruct Hagg as [[Ho Hp]|[Ho He]]; [left|right]; (split; [done|]).
      * apply Forall_app. split; [done|]. constructor; [|constructor]. by left.
      * apply Exists_app. by left.
  - split; [by apply Hkeys|]. split; [by rewrite trigger_alert_thresholds|]. split.
    + apply Forall_app. split; [done|]. constructor; [|constructor].
      destruct Hbad as [->| ->]; [right; by left | right; right; by left].
    + right. split; [done|]. apply Exists_app. right. by apply Exists_cons_hd.
Qed.

Lemma check_glossary_ok thr fresh app s :
  "glossary" ∉ fresh → report_ok thr ("glossary" :: fresh) s →
  report_ok thr fresh (check_glossary app env s).
Proof. intros. apply check_step_ok; [by right | done | done]. Qed.

Lemma check_openai_api_ok thr fresh cfg s :
  "openai_api" ∉ fresh → report_ok thr ("openai_api" :: fresh) s →
  report_ok thr fresh (check_openai_api cfg env s).
Proof. intros. apply check_step_ok; [by right | done | done]. Qed.

Lemma check_memory_ok thr fresh percent s :
  "memory" ∉ fresh → report_ok thr ("memory" :: fresh) s →
  report_ok thr fresh (check_memory env percent s).
Proof. intros. apply check_step_ok; [by left | done | done]. Qed.

Lemma check_cpu_ok thr fresh percent s :
  "cpu" ∉ fresh → report_ok thr ("cpu" :: fresh) s →
  report_ok thr fresh (check_cpu env percent s).
Proof. intros. apply check_step_ok; [by left | done | done]. Qed.

Lemma check_disk_ok thr fresh used total s :
  "disk" ∉ fresh → report_ok thr ("disk" :: fresh) s →
  report_ok thr fresh (check_disk env used total s).
Proof. intros. apply check_step_ok; [by left | done | done]. Qed.

Lemma check_error_rate_ok thr fresh s :
  "error_rate" ∉ fresh → report_ok thr ("error_rate" :: fresh) s →
  report_ok thr fresh (check_error_rate env s).
Proof. intros. apply check_step_ok; [by left | done | done]. Qed.

Lemma check_response_time_ok thr fresh s :
  (0 < response_time_threshold thr)%Q →
  "response_time" ∉ fresh → report_ok thr ("response_time" :: fresh) s →
  report_ok thr fresh (check_response_time env s).
Proof.
  intros Hpos Hname Hok.
  pose proof Hok as (_ & Hthr & _).
  set (avg := get_avg_response_time (response_time_utcnow env) 5 s.2).
  set (healthy := Qltb avg (response_time_threshold (alert_thresholds s.2))).
  assert (Hfire : negb healthy && Qltb 0 avg = negb healthy).
  { destruct healthy eqn:Hh; [done|]. simpl.
    apply Qltb_ge in Hh. rewrite Hthr in Hh. apply Qltb_lt. lra. }
  unfold check_response_time. cbv zeta. fold avg. fold healthy. rewrite Hfire.
  by apply (check_step_ok thr fresh "response_time" healthy "warning"); [left | |].
Qed.

Lemma set_check_unknown_ok thr fresh name s :
  name ∉ fresh → report_ok thr (name :: fresh) s →
  report_ok thr fresh (set_check name "unknown" s).
Proof.
  destruct s as [hs hm]. intros Hname (Hfresh & Hthr & Hknown & Hagg).
  simpl in Hfresh, Hthr, Hknown, Hagg.
  assert (Hnew : name ∉ (checks hs).*1).
  { apply Hfresh, elem_of_cons. by left. }
  unfold report_ok, set_check. cbn [fst snd overall_status checks].
  rewrite dict_set_fresh by done. split; [|split; [done|split]].
  - intros n Hn. rewrite fmap_app. simpl. apply not_elem_of_app. split.
    + apply Hfresh, elem_of_cons. by right.
    + apply not_elem_of_cons. split; [|apply not_elem_of_nil]. intros ->. done.
  - apply Forall_app. split; [done|]. constructor; [|constructor].
    right; right; right; by left.
  - destruct Hagg as [[Ho Hp]|[Ho He]]; [left|right]; (split; [done|]).
    + apply Forall_app. split; [done|]. constructor; [|constructor]. by right.
    + apply Exists_app. by left.
Qed.

(** The [psutil] stretch keeps the report in order whichever way it ends,
    and it ends by raising exactly when a probe does not answer. *)
Lemma check_system_resources_ok thr s :
  report_ok thr ["system_resources"; "memory"; "cpu"; "disk";
                 "error_rate"; "response_time"; "health_check"] s →
  match check_system_resources env s with
  | Done s' =>
      probes_answer env = true
      ∧ report_ok thr ["error_rate"; "response_time"; "health_check"] s'
  | Raised s' =>
      probes_answer env = false ∧ report_ok thr ["health_check"] s'
  end.
Proof.
  intros Hok. unfold check_system_resources, probes_answer.
  destruct (psutil env) as [ps|].
  2:{ split; [done|]. apply (set_check_unknown_ok thr _ "system_resources");
        [fresh_names|].
      eapply report_ok_weaken; [|exact Hok]. sublist_names. }
  destruct (virtual_memory_percent ps) as [memory|].
  2:{ split; [done|]. eapply report_ok_weaken; [|exact Hok]. sublist_names. }
  assert (Hmem : report_ok thr ["cpu"; "disk"; "error_rate"; "response_time";
                                "health_check"] (check_memory env memory s)).
  { apply check_memory_ok; [fresh_names|].
    eapply report_ok_weaken; [|exact Hok]. sublist_names. }
  destruct (cpu_percent ps) as [cpu|].
  2:{ split; [done|]. eapply report_ok_weaken; [|exact Hmem]. sublist_names. }
  assert (Hcpu : report_ok thr ["disk"; "error_rate"; "response_time";
                                "health_check"]
                   (check_cpu env cpu (check_memory env memory s))).
  { by apply check_cpu_ok; [fresh_names|]. }
  destruct (data_exists ps).
  2:{ split; [done|]. eapply report_ok_weaken; [|exact Hcpu]. sublist_names. }
  destruct (disk_usage ps) as [[used total]|].
  2:{ split; [done|]. eapply report_ok_weaken; [|exact Hcpu]. sublist_names. }
  destruct (total =? 0).
  { split; [done|]. eapply report_ok_weaken; [|exact Hcpu]. sublist_names. }
  split; [done|]. by apply check_disk_ok; [fresh_names|].
Qed.

Lemma passing_not_failing c : passing c → failing c → False.
Proof. intros [Hp|Hp] [Hf|Hf]; rewrite Hp in Hf; discriminate. Qed.

Lemma Forall_passing_not_Exists_failing (l : list (string * string)) :
  Forall passing l → Exists failing l → False.
Proof.
  intros Hall Hex. apply Exists_exists in Hex as (c & Hin & Hc).
  rewrite Forall_forall in Hall. eapply passing_not_failing; [by apply Hall | done].
Qed.

End HealthReport.

(** C7 as stated fails: on a host without [psutil], with the glossary
    loaded and the API key set, the placeholder check carries the status
    "unknown", which is none of healthy, warning, unhealthy, degraded, and
    the overall status is "healthy" although not every check is. *)
Lemma health_unknown_status_counterexample :
  let hs := (HealthMonitor.check_system_health toy_config
               (state (loaded_world scenario_rows)) bare_env HealthMonitor.init).1 in
  HealthMonitor.checks hs
    = [("glossary", "healthy"); ("openai_api", "healthy");
       ("system_resources", "unknown"); ("error_rate", "healthy");
       ("response_time", "healthy")]
  ∧ HealthMonitor.overall_status hs = "healthy"
  ∧ ¬ Forall (λ c, c.2 = "healthy" ∨ c.2 = "warning" ∨ c.2 = "unhealthy"
                   ∨ c.2 = "degraded") (HealthMonitor.checks hs)
  ∧ ¬ (HealthMonitor.overall_status hs = "healthy"
       ↔ Forall (λ c, c.2 = "healthy") (HealthMonitor.checks hs)).
Proof.
  cbv zeta.
  assert (Hrun : (HealthMonitor.check_system_health toy_config
                    (state (loaded_world scenario_rows)) bare_env
                    HealthMonitor.init).1
                 = {| HealthMonitor.overall_status := "healthy";
                      HealthMonitor.checks :=
                        [("glossary", "healthy"); ("openai_api", "healthy");
                         ("system_resources", "unknown"); ("error_rate", "healthy");
                         ("response_time", "healthy")];
                      HealthMonitor.alerts := [];
                      HealthMonitor.timestamp := 1000 |}).
  { vm_compute. reflexivity. }
  rewrite Hrun. simpl. split; [done|]. split; [done|]. split.
  - intros Hall. rewrite Forall_forall in Hall.
    destruct (Hall ("system_resources", "unknown")) as [H|[H|[H|H]]];
      [| discriminate H ..].
    do 2 apply list_elem_of_further. apply list_elem_of_here.
  - intros [Hall _]. specialize (Hall eq_refl). rewrite Forall_forall in Hall.
    assert (H : ("system_resources", "unknown").2 = "healthy"); [|discriminate H].
    apply Hall. do 2 apply list_elem_of_further. apply list_elem_of_here.
Qed.

(** C7, amended.  With a positive latency threshold, every check of the
    report carries one of the statuses healthy, warning, unhealthy, unknown
    (the placeholder entered when the host metrics are not available) or
    error (the entry made when a probe raises); the overall status is
    "healthy" exactly when every check is healthy or unknown; when no probe
    raises it is "degraded" exactly when some check is warning or
    unhealthy; and when a probe raises it is "error". *)
Theorem check_system_health_aggregate (cfg : Config) (app : AppState)
    (env : HealthMonitor.Env) (hm : HealthMonitor.t) :
  (0 < HealthMonitor.response_time_threshold (HealthMonitor.alert_thresholds hm))%Q →
  let hs := (HealthMonitor.check_system_health cfg app env hm).1 in
  Forall status_known (HealthMonitor.checks hs)
  ∧ (HealthMonitor.overall_status hs = "healthy"
     ↔ Forall passing (HealthMonitor.checks hs))
  ∧ (probes_answer env = true →
     (HealthMonitor.overall_status hs = "degraded"
      ↔ Exists failing (HealthMonitor.checks hs)))
  ∧ (probes_answer env = false →
     HealthMonitor.overall_status hs = "error"
     ∧ ("health_check", "error") ∈ HealthMonitor.checks hs).
Proof.
  intros Hpos hs. subst hs. unfold HealthMonitor.check_system_health. cbv zeta.
  set (thr := HealthMonitor.alert_thresholds hm) in *.
  set (s0 := ({| HealthMonitor.overall_status := "healthy";
                 HealthMonitor.checks := []; HealthMonitor.alerts := [];
                 HealthMonitor.timestamp := HealthMonitor.report_utcnow env |}, hm)).
  assert (H0 : report_ok thr ["glossary"; "openai_api"; "system_resources";
                  "memory"; "cpu"; "disk"; "error_rate"; "response_time";
                  "health_check"] s0).
  { split; [intros n _; apply not_elem_of_nil|]. split; [done|].
    split; [constructor|]. left. split; [done | constructor]. }
  apply (check_glossary_ok env thr _ app) in H0; [|fresh_names].
  apply (check_openai_api_ok env thr _ cfg) in H0; [|fresh_names].
  apply (check_system_resources_ok env thr) in H0.
  destruct (HealthMonitor.check_system_resources env _) as [s|s].
  - destruct H0 as [Hans H0]. rewrite Hans.
    apply (check_error_rate_ok env thr) in H0; [|fresh_names].
    apply (check_response_time_ok env thr) in H0; [|done|fresh_names].
    destruct H0 as (_ & _ & Hknown & Hagg).
    split; [exact Hknown|]. split; [|split].
    + destruct Hagg as [[Ho Hp]|[Ho He]].
      * done.
      * split; [rewrite Ho; discriminate|].
        intros Hp. destruct (Forall_passing_not_Exists_failing _ Hp He).
    + intros _. destruct Hagg as [[Ho Hp]|[Ho He]].
      * split; [rewrite Ho; discriminate|].
        intros He. destruct (Forall_passing_not_Exists_failing _ Hp He).
      * done.
    + discriminate.
  - destruct H0 as [Hans (Hfresh & _ & Hknown & _)]. rewrite Hans.
    destruct s as [hs hm']. simpl in Hfresh, Hknown.
    unfold HealthMonitor.set_check, HealthMonitor.set_overall.
    cbn [fst snd HealthMonitor.overall_status HealthMonitor.checks].
    rewrite dict_set_fresh by (apply Hfresh, list_elem_of_here).
    assert (Hin : ("health_check", "error")
                  ∈ HealthMonitor.checks hs ++ [("health_check", "error")]).
    { apply elem_of_app. right. apply list_elem_of_here. }
    split; [|split; [|split]].
    + apply Forall_app. split; [done|]. constructor; [|constructor].
      do 4 right. done.
    + split; [discriminate|]. intros Hp. rewrite Forall_forall in Hp.
      destruct (Hp _ Hin) as [H|H]; discriminate H.
    + discriminate.
    + done.
Qed.

Lemma check_system_health_aggregate_witness :
  HealthMonitor.overall_status
    (HealthMonitor.check_system_health toy_config
       (state (loaded_world scenario_rows)) bare_env HealthMonitor.init).1
  = "healthy"
  ∧ HealthMonitor.overall_status
      (HealthMonitor.check_system_health config unloaded_world.(state) bare_env
         HealthMonitor.init).1
    = "degraded".
Proof.
  assert (Hpos : (0 < HealthMonitor.response_time_threshold
                        (HealthMonitor.alert_thresholds HealthMonitor.init))%Q).
  { apply Qltb_lt. reflexivity. }
  split.
  - apply (check_system_health_aggregate toy_config
             (state (loaded_world scenario_rows)) bare_env HealthMonitor.init Hpos).
    vm_compute.
    repeat (apply List.Forall_cons; [first [left; reflexivity | right; reflexivity]|]).
    apply List.Forall_nil.
  - apply (check_system_health_aggregate config (state unloaded_world) bare_env
             HealthMonitor.init Hpos); [reflexivity|].
    vm_compute. apply Exists_cons_hd. right. reflexivity.
Defined.


(** ** Cost ledger *)

(** C9.  The snapshot is a function of the counters and has no effect:
    [calculate_costs] returns a value determined by [state.cost_tracker]
    alone and leaves the world as it found it, so two snapshots in a row
    return the same value. *)
Theorem calculate_costs_pure :
  ∃ snapshot : CostTracker → CostBreakdown,
    ∀ w : World,
      calculate_costs w = (Returned (snapshot (cost_tracker (state w))), w)
      ∧ (a ← calculate_costs; b ← calculate_costs; mret (a, b)) w
        = (Returned (snapshot (cost_tracker (state w)),
                     snapshot (cost_tracker (state w))), w).
Proof.
  exists (λ ct,
    let embedding_cost := (inject_Z (embedding_tokens ct) / 1000000 * (20 # 1000))%Q in
    let completion_cost := (inject_Z (completion_tokens ct) / 1000000 * (150 # 1000))%Q in
    {| cb_embedding_tokens := embedding_tokens ct;
       cb_completion_tokens := completion_tokens ct;
       cb_embedding_cost := round6 embedding_cost;
       cb_completion_cost := round6 completion_cost;
       cb_total_cost := round6 (embedding_cost + completion_cost) |}).
  intros w. split; reflexivity.
Qed.

(** ** Pipeline: readiness and charging *)

(** C6.  With the glossary not loaded, [translate_text] raises 503 and
    leaves the world untouched: no request has gone to a backend and no
    counter has moved, whatever the query and whatever the backends. *)
Theorem translate_text_unavailable (cfg : Config) (ext : Backends)
    (query : text) (w : World) :
  initialized (state w) = false →
  translate_text cfg ext query w
    = (HTTPException 503 (utf8 "Glossary not loaded. Please contact admin."), w)
  ∧ requests_sent (translate_text cfg ext query w).2 = requests_sent w
  ∧ cost_tracker (state (translate_text cfg ext query w).2)
    = cost_tracker (state w).
Proof.
  intros Hinit.
  assert (Hrun : translate_text cfg ext query w
                 = (HTTPException 503
                      (utf8 "Glossary not loaded. Please contact admin."), w)).
  { unfold translate_text, mbind, M_bind, get_state. simpl. by rewrite Hinit. }
  rewrite Hrun. done.
Qed.

Lemma translate_text_unavailable_witness :
  translate_text toy_config toy_backends (utf8 "chicken") unloaded_world
    = (HTTPException 503 (utf8 "Glossary not loaded. Please contact admin."),
       unloaded_world).
Proof.
  apply (translate_text_unavailable toy_config toy_backends (utf8 "chicken")
           unloaded_world).
  reflexivity.
Defined.

(** The embedding call is charged before it is made: when the backend
    raises, the token count and the request count have already moved. *)
Lemma get_single_embedding_charged_on_failure (cfg : Config) (ext : Backends)
    (t : text) (w : World) :
  strip t ≠ [] →
  embeddings_create ext (strip t) = None →
  (get_single_embedding cfg ext t w).1 = Exception
  ∧ cost_tracker (state (get_single_embedding cfg ext t w).2)
    = {| embedding_tokens :=
           embedding_tokens (cost_tracker (state w)) + count_tokens ext (strip t);
         completion_tokens := completion_tokens (cost_tracker (state w));
         embedding_requests := embedding_requests (cost_tracker (state w)) + 1;
         completion_requests := completion_requests (cost_tracker (state w)) |}.
Proof.
  intros Hne Hfail. unfold get_single_embedding.
  destruct (strip t) as [|c t'] eqn:Ht; [done|].
  unfold mbind, M_bind, track_embedding_cost, get_state, set_cost_tracker,
    send, or_raise. simpl. rewrite Hfail. done.
Qed.

(** C4, at a failing run.  The glossary is loaded, the query is "chicken"
    and the embedding backend raises: the call fails, yet it has recorded 7
    embedding tokens and one embedding request. *)
Theorem failed_embedding_call_is_charged :
  let run := translate_text toy_config failing_embedding_backends
               (utf8 "chicken") (loaded_world scenario_rows) in
  run.1 = Exception
  ∧ requests_sent run.2 = [EmbeddingsCreate (utf8 "chicken")]
  ∧ cost_tracker (state (loaded_world scenario_rows)) = no_costs
  ∧ cost_tracker (state run.2)
    = {| embedding_tokens := 7; completion_tokens := 0;
         embedding_requests := 1; completion_requests := 0 |}.
Proof. vm_compute. repeat split. Qed.

(** ** Retrieval *)

Section Retrieval.

Lemma closer_total p q : closer p q = false → closer q p = true.
Proof.
  unfold closer. intros H. apply orb_false_iff in H as [Hlt Hrest].
  apply Qltb_ge in Hlt. apply orb_true_iff.
  destruct (Qltb q.1 p.1) eqn:Hgt; [by left|right].
  apply Qltb_ge in Hgt. assert (Heq : (p.1 == q.1)%Q) by lra.
  apply andb_false_iff in Hrest as [Hne|Hle].
  - apply Qeq_bool_iff in Heq. congruence.
  - apply andb_true_iff. split.
    + apply Qeq_bool_iff. by symmetry.
    + apply Z.leb_le. apply Z.leb_gt in Hle. lia.
Qed.

Lemma closer_distance p q : closer p q = true → (p.1 <= q.1)%Q.
Proof.
  unfold closer. intros [Hlt|Heq]%orb_true_iff.
  - apply Qltb_lt in Hlt. lra.
  - apply andb_true_iff in Heq as [Heq _]. apply Qeq_bool_iff in Heq. lra.
Qed.

Lemma closer_tie p q :
  closer p q = true → (p.1 == q.1)%Q → p.2 ≤ q.2.
Proof.
  unfold closer. intros [Hlt|Heq]%orb_true_iff Hsame.
  - apply Qltb_lt in Hlt. lra.
  - apply andb_true_iff in Heq as [_ Hle]. by apply Z.leb_le.
Qed.

Lemma insert_hit_length p hits : length (insert_hit p hits) = S (length hits).
Proof.
  induction hits as [|q rest IH]; [done|]. simpl.
  destruct (closer p q); simpl; by rewrite ?IH.
Qed.

Lemma insert_hit_perm p hits : insert_hit p hits ≡ₚ p :: hits.
Proof.
  induction hits as [|q rest IH]; [done|]. simpl.
  destruct (closer p q); [done|]. rewrite IH. apply Permutation_swap.
Qed.

Lemma insert_hit_sorted p hits :
  Sorted closer_eq hits → Sorted closer_eq (insert_hit p hits).
Proof.
  induction hits as [|q rest IH]; intros Hs; simpl.
  - by repeat constructor.
  - destruct (closer p q) eqn:Hpq.
    + constructor; [done|]. by constructor.
    + apply Sorted_inv in Hs as [Hrest Hhd].
      constructor; [by apply IH|].
      destruct rest as [|r rest']; simpl.
      * constructor. by apply closer_total.
      * destruct (closer p r); constructor.
        -- by apply closer_total.
        -- by apply HdRel_inv in Hhd.
Qed.

Lemma rank_length hits : length (rank hits) = length hits.
Proof.
  induction hits as [|p hits IH]; [done|]. simpl.
  by rewrite insert_hit_length, IH.
Qed.

Lemma rank_perm hits : rank hits ≡ₚ hits.
Proof.
  induction hits as [|p hits IH]; [done|]. simpl.
  by rewrite insert_hit_perm, IH.
Qed.

Lemma rank_sorted hits : Sorted closer_eq (rank hits).
Proof.
  induction hits as [|p hits IH]; [constructor|]. simpl.
  by apply insert_hit_sorted.
Qed.

Lemma Sorted_take_prefix {A} (R : A → A → Prop) (l : list A) (k : nat) :
  Sorted R l → Sorted R (take k l).
Proof.
  revert k. induction l as [|a l IH]; intros [|k] Hs; simpl; try constructor.
  - apply IH. by apply Sorted_inv in Hs as [? _].
  - apply Sorted_inv in Hs as [_ Hhd].
    destruct l as [|b l'], k as [|k']; simpl; constructor.
    by apply HdRel_inv in Hhd.
Qed.

(** Whatever the size of the index, a search fills exactly [k] slots: the
    [k] best hits, then label [-1] for as many slots as vectors are missing. *)
Lemma IndexFlatL2_search_slots idx x k ds ls :
  IndexFlatL2_search idx x k = Some (ds, ls) →
  length ls = k ∧ length ds = k
  ∧ ls = (take k (rank (scored idx x))).*2
         ++ replicate (k - length (index_xb idx)) (-1)
  ∧ ds = (take k (rank (scored idx x))).*1
         ++ replicate (k - length (index_xb idx)) FLT_MAX.
Proof.
  unfold IndexFlatL2_search. destruct (negb _); [done|]. fold (scored idx x).
  intros [= <- <-].
  assert (Hn : length (rank (scored idx x)) = length (index_xb idx)).
  { rewrite rank_length. unfold scored. by rewrite length_imap. }
  rewrite !length_fmap, length_app, length_take, length_replicate, Hn.
  rewrite !fmap_app, !fmap_replicate. simpl.
  repeat split; lia.
Qed.

(** With at least [k] vectors stored, the slots are the [k] best hits,
    nearest first and the lower label first among equal distances. *)
Lemma IndexFlatL2_search_ranked idx x k ds ls :
  (k ≤ length (index_xb idx))%nat →
  IndexFlatL2_search idx x k = Some (ds, ls) →
  ∃ hits, hits = take k (rank (scored idx x))
    ∧ ds = hits.*1 ∧ ls = hits.*2
    ∧ Sorted closer_eq hits ∧ Sorted Qle ds.
Proof.
  intros Hk Hsearch.
  apply IndexFlatL2_search_slots in Hsearch as (_ & _ & Hls & Hds).
  replace (k - length (index_xb idx))%nat with 0%nat in * by lia.
  simpl in Hls, Hds. rewrite app_nil_r in Hls, Hds.
  exists (take k (rank (scored idx x))).
  assert (Hs : Sorted closer_eq (take k (rank (scored idx x)))).
  { apply Sorted_take_prefix, rank_sorted. }
  repeat split; try done.
  rewrite Hds. eapply Sorted_fmap; [|exact Hs].
  intros p q. apply closer_distance.
Qed.

Lemma iloc_length rows labels retrieved :
  iloc rows labels = Some retrieved → length retrieved = length labels.
Proof. unfold iloc. intros H. symmetry. by eapply length_mapM. Qed.

(** The rows handed to the prompt are as many as [k], whatever the size
    of the corpus. *)
Lemma retrieved_always_k idx x k ds ls rows retrieved :
  IndexFlatL2_search idx x k = Some (ds, ls) →
  iloc rows ls = Some retrieved →
  length retrieved = k.
Proof.
  intros Hsearch Hiloc. apply iloc_length in Hiloc.
  apply IndexFlatL2_search_slots in Hsearch as (Hlen & _). congruence.
Qed.

End Retrieval.

(** C3, at a failing run.  The corpus has the two rows "chicken breast" and
    "salt", fewer than [TOP_K_RETRIEVAL = 3].  The search fills three slots,
    the third with label [-1]; position [-1] of the frame is its last row;
    so the retrieval yields three rows, "salt" twice, and the prompt sent
    to the generation backend lists it twice. *)
Theorem short_corpus_retrieval_repeats :
  let w := loaded_world short_rows in
  let run := translate_text toy_config toy_backends (utf8 "chicken") w in
  IndexFlatL2_search
    {| index_d := 2;
       index_xb := map (λ r, toy_embedding (combined r)) short_rows |}
    (toy_embedding (utf8 "chicken")) 3
    = Some ([1; 5; FLT_MAX]%Q, [0; 1; -1])
  ∧ iloc short_rows [0; 1; -1]
    = Some [make_row "chicken breast" "صدر دجاج"; make_row "salt" "ملح";
            make_row "salt" "ملح"]
  ∧ requests_sent run.2
    = [EmbeddingsCreate (utf8 "chicken");
       ChatCompletionsCreate
         (build_prompt
            (join nl [utf8 "1. chicken breast = صدر دجاج"; utf8 "2. salt = ملح";
                      utf8 "3. salt = ملح"])
            (utf8 "chicken"))].
Proof. vm_compute. repeat split. Qed.

(** ** Prompt composition *)

Section Prompt.

Lemma lstrip_head t c t' : lstrip t = c :: t' → isspace c = false.
Proof.
  induction t as [|a t IH]; [done|]. simpl.
  destruct (isspace a) eqn:Ha; [done|]. by intros [= <- _].
Qed.

Lemma lstrip_keep c t : isspace c = false → lstrip (c :: t) = c :: t.
Proof. intros Hc. simpl. by rewrite Hc. Qed.

Lemma lstrip_snoc t c :
  isspace c = false → ∃ t', lstrip (t ++ [c]) = t' ++ [c].
Proof.
  intros Hc. induction t as [|a t IH]; simpl.
  - rewrite Hc. by exists [].
  - destruct (isspace a); [done|]. by exists (a :: t).
Qed.

(** Stripping a stripped text changes nothing. *)
Lemma strip_strip t : strip (strip t) = strip t.
Proof.
  unfold strip. destruct (lstrip t) as [|c u] eqn:Hu; [done|].
  pose proof (lstrip_head _ _ _ Hu) as Hc.
  change (rev (c :: u)) with (rev u ++ [c]).
  destruct (lstrip_snoc (rev u) c Hc) as [v Hv]. rewrite Hv.
  rewrite rev_app_distr. simpl. rewrite Hc.
  change (rev (c :: rev v)) with (rev (rev v) ++ [c]).
  rewrite rev_involutive.
  assert (Hid : lstrip (v ++ [c]) = v ++ [c]).
  { assert (Hl : lstrip (lstrip (rev u ++ [c])) = lstrip (rev u ++ [c])).
    { destruct (lstrip (rev u ++ [c])) as [|a l] eqn:Hl; [done|].
      apply lstrip_keep. by apply lstrip_head in Hl. }
    by rewrite Hv in Hl. }
  by rewrite Hid, rev_app_distr.
Qed.

Lemma sanitized_strip query : strip (sanitized query) = sanitized query.
Proof. apply strip_strip. Qed.

(** [sanitize_text_input] accepts exactly the queries whose sanitized text
    is non-empty and within the length bound, returns that text, and has
    no effect. *)
Lemma sanitize_text_input_ok query max_length w :
  sanitized query ≠ [] →
  Z.of_nat (length (sanitized query)) ≤ max_length →
  sanitize_text_input query max_length w = (Returned (sanitized query), w).
Proof.
  intros Hne Hlen. unfold sanitize_text_input. fold (sanitized query).
  destruct query as [|c query']; [done|].
  destruct (Z.ltb_spec max_length (Z.of_nat (length (sanitized (c :: query')))));
    [lia|].
  destruct (sanitized (c :: query')) as [|a q]; [done|]. done.
Qed.

Lemma get_single_embedding_ok cfg ext q v w :
  q ≠ [] → strip q = q → embeddings_create ext q = Some v →
  get_single_embedding cfg ext q w
  = (Returned v,
     (send (EmbeddingsCreate q) (track_embedding_cost ext q w).2).2).
Proof.
  intros Hne Hstrip Hemb. unfold get_single_embedding. rewrite Hstrip.
  destruct q as [|c q']; [done|].
  unfold mbind, M_bind, track_embedding_cost, get_state, set_cost_tracker,
    send, or_raise. cbn [fst snd]. by rewrite Hemb.
Qed.

Lemma join_middle sep (l1 : list text) (l : text) (l2 : list text) :
  ∃ before after, join sep (l1 ++ l :: l2) = before ++ l ++ after.
Proof.
  induction l1 as [|x l1 IH].
  - destruct l2 as [|y l2].
    + exists [], []. cbn. by rewrite app_nil_r.
    + exists [], (sep ++ join sep (y :: l2)). done.
  - destruct IH as (b & a & IH).
    exists (x ++ sep ++ b), a.
    change (join sep ((x :: l1) ++ l :: l2))
      with (join sep (x :: (l1 ++ l :: l2))).
    destruct (l1 ++ l :: l2) as [|y ys] eqn:Hcat.
    { by destruct l1. }
    change (join sep (x :: y :: ys)) with (x ++ sep ++ join sep (y :: ys)).
    rewrite IH. by rewrite <- !app_assoc.
Qed.

Lemma join_cons_prefix sep l ls : ∃ rest, join sep (l :: ls) = l ++ rest.
Proof.
  destruct ls as [|l' ls]; simpl.
  - exists []. by rewrite app_nil_r.
  - by eexists.
Qed.

Lemma iloc_lookup rows labels retrieved i r :
  iloc rows labels = Some retrieved → retrieved !! i = Some r →
  ∃ label, labels !! i = Some label
    ∧ (0 ≤ label → rows !! Z.to_nat label = Some r)
    ∧ (label < 0 → rows !! Z.to_nat (Z.of_nat (length rows) + label) = Some r).
Proof.
  unfold iloc. intros Hm Hr. apply mapM_Some_1 in Hm.
  destruct (Forall2_lookup_r _ _ _ _ _ Hm Hr) as (label & Hl & Hrow).
  exists label. split; [done|].
  destruct (Z.leb_spec 0 label).
  - split; [done | lia].
  - split; [lia|]. intros _. by destruct (_ <=? _).
Qed.

Lemma bind_returned {A B} (m : M A) (k : A → M B) w a w' :
  m w = (Returned a, w') → (m ≫= k) w = k a w'.
Proof. intros H. unfold mbind, M_bind. by rewrite H. Qed.

(** A call that gets as far as the retrieval sends two requests: the
    sanitized query to the embedding backend, then the prompt composed from
    the retrieved rows and that query to the generation backend. *)
Lemma translate_text_requests cfg ext query w v idx ds labels rows retrieved :
  initialized (state w) = true →
  sanitized query ≠ [] →
  Z.of_nat (length (sanitized query)) ≤ 10000 →
  embeddings_create ext (sanitized query) = Some v →
  index (state w) = Some idx →
  IndexFlatL2_search idx v (TOP_K_RETRIEVAL cfg) = Some (ds, labels) →
  glossary (state w) = Some rows →
  iloc rows labels = Some retrieved →
  requests_sent (translate_text cfg ext query w).2
  = requests_sent w
    ++ [EmbeddingsCreate (sanitized query);
        ChatCompletionsCreate
          (build_prompt (build_context retrieved) (sanitized query))].
Proof.
  intros Hinit Hne Hlen Hemb Hidx Hsearch Hrows Hiloc.
  unfold translate_text.
  rewrite (bind_returned get_state _ w (state w) w eq_refl).
  rewrite Hinit. cbn [negb].
  rewrite (bind_returned _ _ _ _ _ (sanitize_text_input_ok query 10000 w Hne Hlen)).
  rewrite (bind_returned _ _ _ _ _
             (get_single_embedding_ok cfg ext _ v w Hne (sanitized_strip query) Hemb)).
  set (w1 := (send _ _).2).
  assert (Hsent1 : requests_sent w1
                   = requests_sent w ++ [EmbeddingsCreate (sanitized query)]) by done.
  rewrite Hidx. rewrite (bind_returned (or_raise (Some idx)) _ w1 idx w1 eq_refl).
  rewrite Hsearch.
  rewrite (bind_returned (or_raise (Some (ds, labels))) _ w1 _ w1 eq_refl).
  rewrite Hrows. rewrite (bind_returned (or_raise (Some rows)) _ w1 _ w1 eq_refl).
  rewrite Hiloc.
  rewrite (bind_returned (or_raise (Some retrieved)) _ w1 _ w1 eq_refl).
  set (prompt := build_prompt _ _).
  rewrite (bind_returned (send (ChatCompletionsCreate prompt)) _ w1 () _ eq_refl).
  destruct (chat_completions_create ext prompt) as [[content total_tokens]|].
  - unfold or_raise, mbind, M_bind, mret, M_ret, track_completion_cost,
      log_api_usage, calculate_costs, get_state, set_cost_tracker, get_cost_log,
      set_cost_log, send.
    cbn [fst snd requests_sent state cost_log]. rewrite Hsent1, <- app_assoc. done.
  - unfold or_raise, raise, mbind, M_bind, send.
    cbn [fst snd requests_sent state cost_log]. rewrite Hsent1, <- app_assoc. done.
Qed.

(** The context block sits in the prompt between fixed texts. *)
Lemma build_prompt_line line rest query :
  ∃ before after, build_prompt (line ++ rest) query = before ++ line ++ after.
Proof.
  unfold build_prompt.
  generalize (utf8 "Provide only the translation (no explanation or additional text).").
  generalize (utf8 "Translate the following text naturally and accurately:").
  generalize (utf8 "Glossary Context (most relevant matches):").
  generalize (utf8 "Use the glossary context below to ensure consistent, regulatory-compliant translations.").
  generalize (utf8 "You are FoodLang AI, an expert Arabic–English food packaging translator.").
  intros h1 h2 h3 h4 h5.
  exists (h1 ++ nl ++ h2 ++ nl ++ nl ++ h3 ++ nl),
    (rest ++ nl ++ nl ++ h4 ++ nl ++ quote ++ query ++ quote ++ nl ++ nl ++ h5).
  by rewrite <- !app_assoc.
Qed.

Lemma sanitized_clean query :
  strip query = query → Forall (λ c, c ≠ 0%N) query → sanitized query = query.
Proof.
  intros Hstrip Hnul. unfold sanitized. rewrite filter_all; [done|].
  eapply Forall_impl; [exact Hnul|]. intros c Hc. simpl.
  by destruct (N.eqb_spec c 0).
Qed.

Lemma iloc_first rows labels retrieved label :
  iloc rows labels = Some retrieved → labels !! 0%nat = Some label →
  0 ≤ label → ∃ r, rows !! Z.to_nat label = Some r ∧ retrieved !! 0%nat = Some r.
Proof.
  unfold iloc. intros Hm Hl Hpos. apply mapM_Some_1 in Hm.
  destruct (Forall2_lookup_l _ _ _ _ _ Hm Hl) as (r & Hr & Hrow).
  exists r. split; [|done]. by destruct (Z.leb_spec 0 label); [|lia].
Qed.

End Prompt.

Lemma join_lines (sep : text) (lines : list text) :
  lines ≠ [] →
  join sep lines ++ sep = concat (map (λ l, l ++ sep) lines).
Proof.
  induction lines as [|l ls IH]; [done|]. intros _.
  destruct ls as [|l' ls].
  - cbn [join map concat]. by rewrite app_nil_r.
  - change (join sep (l :: l' :: ls)) with (l ++ sep ++ join sep (l' :: ls)).
    change (concat (map (λ l0, l0 ++ sep) (l :: l' :: ls)))
      with ((l ++ sep) ++ concat (map (λ l0, l0 ++ sep) (l' :: ls))).
    rewrite <- IH by done. by rewrite <- !app_assoc.
Qed.

Lemma starts_with_spec (needle hay : text) :
  starts_with needle hay = true ↔ ∃ after, hay = needle ++ after.
Proof.
  revert hay. induction needle as [|a needle IH]; intros hay.
  - split; [by exists hay | done].
  - destruct hay as [|b hay]; cbn [starts_with].
    + split; [done | by intros [? ?]].
    + rewrite andb_true_iff, N.eqb_eq, IH. split.
      * intros [-> [after ->]]. by exists after.
      * intros [after [= -> ->]]. split; [done | by exists after].
Qed.

Lemma occurs_in_spec (needle hay : text) :
  occurs_in needle hay = true ↔ ∃ before after, hay = before ++ needle ++ after.
Proof.
  split.
  - induction hay as [|c hay IH]; cbn [occurs_in]; rewrite orb_true_iff.
    + intros [H|H]; [|done]. apply starts_with_spec in H as [after ->].
      by exists [], after.
    + intros [H|H].
      * apply starts_with_spec in H as [after ->]. by exists [], after.
      * destruct (IH H) as (before & after & ->). by exists (c :: before), after.
  - intros (before & after & ->).
    induction before as [|c before IH].
    + assert (H : starts_with needle (needle ++ after) = true)
        by (apply starts_with_spec; by exists after).
      cbn [app]. destruct (needle ++ after); cbn [occurs_in]; by rewrite H.
    + cbn [app occurs_in]. rewrite IH. apply orb_true_r.
Qed.

(** C8 as stated fails: the query interpolated is not the raw one.  For the
    raw query " chicken " on the corpus of scenario A the pipeline embeds
    and quotes "chicken": the prompt sent to the generation backend holds
    the quoted text "chicken" and nowhere the quoted raw query. *)
Lemma prompt_raw_query_counterexample :
  ∃ prompt,
    requests_sent
      (translate_text toy_config toy_backends (utf8 " chicken ")
         (loaded_world scenario_rows)).2
    = [EmbeddingsCreate (utf8 "chicken"); ChatCompletionsCreate prompt]
    ∧ (∃ before after,
         prompt = before ++ ([34%N] ++ utf8 "chicken" ++ [34%N]) ++ after)
    ∧ ¬ (∃ before after,
           prompt = before ++ ([34%N] ++ utf8 " chicken " ++ [34%N]) ++ after).
Proof.
  eexists. split; [vm_compute; reflexivity|]. split.
  - apply occurs_in_spec. vm_compute. reflexivity.
  - rewrite <- occurs_in_spec. vm_compute. discriminate.
Qed.

(** C8, amended.  Prompt composition.  Take a call that passes validation
    and whose retrieval succeeds: the query is non-empty and within the
    length bound once sanitized, the embedding backend answers, the search
    returns the labels [labels] and the frame the rows [retrieved] at those
    positions.  Then the context block has one line per retrieved row, line
    [i] (from 0) reading "i+1. english = arabic" for row [i] of the
    retrieval, the rows standing in the order of the search result, which
    is by non-decreasing distance when the index holds at least [k]
    vectors.  The request sent to the generation backend is, character for
    character, the fixed template: its two opening lines, the heading of
    the glossary context, the lines of the block each on a line of its own,
    the instruction to translate, the sanitized query between double
    quotes, and the instruction to return only the translation.  The
    sanitized query is the raw one without its NUL characters and its
    surrounding white space, hence the raw query itself when it has
    neither.  For the corpus of scenario A, when the search ranks row 0
    first, the prompt contains the line "1. chicken breast = صدر دجاج". *)
Theorem prompt_composition (cfg : Config) (ext : Backends) (query : text)
    (w : World) (v : list Q) (idx : IndexFlatL2) (ds : list Q) (labels : list Z)
    (rows retrieved : list Row) :
  initialized (state w) = true →
  sanitized query ≠ [] →
  Z.of_nat (length (sanitized query)) ≤ 10000 →
  embeddings_create ext (sanitized query) = Some v →
  index (state w) = Some idx →
  IndexFlatL2_search idx v (TOP_K_RETRIEVAL cfg) = Some (ds, labels) →
  glossary (state w) = Some rows →
  iloc rows labels = Some retrieved →
  ∃ lines prompt,
    length lines = length retrieved
    ∧ (∀ i r, retrieved !! i = Some r →
         lines !! i = Some (str_of_nat (i + 1) ++ utf8 ". " ++ english r
                            ++ utf8 " = " ++ arabic r)
         ∧ ∃ label, labels !! i = Some label
             ∧ (0 ≤ label → rows !! Z.to_nat label = Some r))
    ∧ ((TOP_K_RETRIEVAL cfg ≤ length (index_xb idx))%nat → Sorted Qle ds)
    ∧ prompt
      = utf8 "You are FoodLang AI, an expert Arabic–English food packaging translator."
        ++ [10%N]
        ++ utf8 "Use the glossary context below to ensure consistent, regulatory-compliant translations."
        ++ [10%N] ++ [10%N]
        ++ utf8 "Glossary Context (most relevant matches):" ++ [10%N]
        ++ join [10%N] lines ++ [10%N] ++ [10%N]
        ++ utf8 "Translate the following text naturally and accurately:"
        ++ [10%N]
        ++ [34%N] ++ sanitized query ++ [34%N] ++ [10%N] ++ [10%N]
        ++ utf8 "Provide only the translation (no explanation or additional text)."
    ∧ (lines ≠ [] →
       join [10%N] lines ++ [10%N] = concat (map (λ l, l ++ [10%N]) lines))
    ∧ (∀ i line, lines !! i = Some line →
         ∃ before after, prompt = before ++ line ++ after)
    ∧ (∃ before after,
         prompt = before ++ ([34%N] ++ sanitized query ++ [34%N]) ++ after)
    ∧ sanitized query = strip (List.filter (λ c, negb (c =? 0)%N) query)
    ∧ requests_sent (translate_text cfg ext query w).2
      = requests_sent w
        ++ [EmbeddingsCreate (sanitized query); ChatCompletionsCreate prompt]
    ∧ (strip query = query → Forall (λ c, c ≠ 0%N) query →
       sanitized query = query)
    ∧ (rows = scenario_rows → labels !! 0%nat = Some 0 →
       ∃ before after,
         prompt = before ++ utf8 "1. chicken breast = صدر دجاج" ++ after).
Proof.
  intros Hinit Hne Hlen Hemb Hidx Hsearch Hrows Hiloc.
  exists (imap context_line retrieved),
    (build_prompt (build_context retrieved) (sanitized query)).
  split; [apply length_imap|].
  split; [|split; [|split; [|split; [|split; [|split; [|split; [|split; [|split]]]]]]]].
  - intros i r Hr. split.
    + rewrite list_lookup_imap, Hr. done.
    + destruct (iloc_lookup _ _ _ _ _ Hiloc Hr) as (label & Hl & Hrow & _).
      by exists label.
  - intros Hk.
    by destruct (IndexFlatL2_search_ranked _ _ _ _ _ Hk Hsearch)
      as (hits & _ & _ & _ & _ & Hsorted).
  - reflexivity.
  - apply join_lines.
  - intros i line Hline. unfold build_context. fold nl.
    apply list_elem_of_split_length in Hline as (l1 & l2 & -> & _).
    destruct (join_middle nl l1 line l2) as (b & a & ->).
    destruct (build_prompt_line (b ++ line) a (sanitized query))
      as (before & after & Hp).
    rewrite <- app_assoc in Hp. rewrite Hp.
    exists (before ++ b), after. by rewrite <- !app_assoc.
  - unfold build_prompt, quote.
    generalize (utf8 "Provide only the translation (no explanation or additional text).").
    generalize (utf8 "Translate the following text naturally and accurately:").
    generalize (utf8 "Glossary Context (most relevant matches):").
    generalize (utf8 "Use the glossary context below to ensure consistent, regulatory-compliant translations.").
    generalize (utf8 "You are FoodLang AI, an expert Arabic–English food packaging translator.").
    intros h1 h2 h3 h4 h5.
    exists (h1 ++ nl ++ h2 ++ nl ++ nl ++ h3 ++ nl
            ++ build_context retrieved ++ nl ++ nl ++ h4 ++ nl),
      (nl ++ nl ++ h5).
    by rewrite <- !app_assoc.
  - reflexivity.
  - by eapply translate_text_requests.
  - apply sanitized_clean.
  - intros -> Hl.
    destruct (iloc_first _ _ _ _ Hiloc Hl) as (r & Hr & Hret); [done|].
    simpl in Hr. injection Hr as <-.
    destruct retrieved as [|r0 rest]; [done|]. injection Hret as ->.
    unfold build_context.
    change (imap context_line (make_row "chicken breast" "صدر دجاج" :: rest))
      with (context_line 0 (make_row "chicken breast" "صدر دجاج")
            :: imap (context_line ∘ S) rest).
    destruct (join_cons_prefix nl
                (context_line 0 (make_row "chicken breast" "صدر دجاج"))
                (imap (context_line ∘ S) rest)) as [tail ->].
    assert (Hline : context_line 0 (make_row "chicken breast" "صدر دجاج")
                    = utf8 "1. chicken breast = صدر دجاج").
    { vm_compute. reflexivity. }
    rewrite Hline. apply build_prompt_line.
Qed.

Lemma prompt_composition_witness :
  ∃ prompt,
    requests_sent
      (translate_text toy_config toy_backends (utf8 "chicken")
         (loaded_world scenario_rows)).2
    = [] ++ [EmbeddingsCreate (sanitized (utf8 "chicken"));
             ChatCompletionsCreate prompt]
    ∧ (∃ before after,
         prompt = before ++ ([34%N] ++ sanitized (utf8 "chicken") ++ [34%N])
                  ++ after)
    ∧ ∃ before after,
        prompt = before ++ utf8 "1. chicken breast = صدر دجاج" ++ after.
Proof.
  destruct (prompt_composition toy_config toy_backends (utf8 "chicken")
              (loaded_world scenario_rows) [2; 0]%Q
              {| index_d := 2;
                 index_xb := map (λ r, toy_embedding (combined r)) scenario_rows |}
              [1; 5; 5]%Q [0; 1; 2] scenario_rows scenario_rows)
    as (lines & prompt & _ & _ & _ & _ & _ & _ & Hquery & _ & Hsent & _
        & Hscenario).
  - reflexivity.
  - vm_compute. discriminate.
  - vm_compute. discriminate.
  - reflexivity.
  - reflexivity.
  - vm_compute. reflexivity.
  - reflexivity.
  - vm_compute. reflexivity.
  - exists prompt. split; [exact Hsent|]. split; [exact Hquery|].
    apply Hscenario; reflexivity.
Defined.


(** ** Language tag *)

Lemma is_arabic_range (c : N) :
  is_arabic c = true ↔ (0x600 <= c <= 0x6FF)%N.
Proof. unfold is_arabic. rewrite andb_true_iff, !N.leb_le. done. Qed.

Lemma is_ascii_alpha_range (c : N) :
  is_ascii_alpha c = true ↔ (65 <= c <= 90)%N ∨ (97 <= c <= 122)%N.
Proof.
  unfold is_ascii_alpha. rewrite orb_true_iff, !andb_true_iff, !N.leb_le. done.
Qed.

Lemma count_chars_nonneg p t : 0 ≤ count_chars p t.
Proof. unfold count_chars. lia. Qed.

Lemma count_chars_zero p t :
  count_chars p t = 0 ↔ Forall (λ c, p c = false) t.
Proof.
  unfold count_chars. induction t as [|c t IH]; simpl.
  - split; [constructor | done].
  - destruct (p c) eqn:Hc; simpl.
    + split; [lia|]. intros H. apply Forall_cons in H as [? _]. congruence.
    + rewrite IH. split; [by constructor | by intros [_ ?]%Forall_cons].
Qed.

Example detect_language_examples :
  detect_language (utf8 "chicken") = "english" ∧
  detect_language (utf8 "صدر دجاج") = "arabic" ∧
  detect_language (utf8 "صدر ab") = "mixed" ∧
  detect_language (utf8 "12 + 3") = "unknown" ∧
  utf8 "–" = [8211%N] ∧ str_of_nat 120 = utf8 "120" ∧
  strip (utf8 "  a b ") = utf8 "a b" ∧
  round6 (1234567 # 1000000000000) = (1 # 1000000)%Q.
Proof. vm_compute. repeat split. Qed.

(** C10.  The language tag.  A text with no code point in U+0600..U+06FF and
    no ASCII letter is tagged "unknown"; a text with at least one such
    character gets exactly one of "arabic" (the Arabic share of the counted
    characters is above 0.7), "english" (below 0.3) or "mixed" (otherwise),
    and never "unknown". *)
Theorem detect_language_buckets (t : text) :
  let arabic := λ c : N, (0x600 <= c <= 0x6FF)%N in
  let letter := λ c : N, (65 <= c <= 90)%N ∨ (97 <= c <= 122)%N in
  let ratio := (inject_Z (count_chars is_arabic t) /
                inject_Z (count_chars is_arabic t + count_chars is_ascii_alpha t))%Q in
  (Forall (λ c, ¬ arabic c ∧ ¬ letter c) t → detect_language t = "unknown")
  ∧ (Exists (λ c, arabic c ∨ letter c) t →
       ((7 # 10 < ratio)%Q ∧ detect_language t = "arabic")
       ∨ ((ratio < 3 # 10)%Q ∧ detect_language t = "english")
       ∨ ((3 # 10 <= ratio <= 7 # 10)%Q ∧ detect_language t = "mixed")).
Proof.
  intros arabic letter ratio. unfold detect_language. fold ratio. split.
  - intros Hnone.
    assert (count_chars is_arabic t = 0) as ->.
    { apply count_chars_zero. eapply Forall_impl; [exact Hnone|].
      intros c [Ha _]. apply not_true_is_false. by rewrite is_arabic_range. }
    assert (count_chars is_ascii_alpha t = 0) as ->.
    { apply count_chars_zero. eapply Forall_impl; [exact Hnone|].
      intros c [_ Hl]. apply not_true_is_false. by rewrite is_ascii_alpha_range. }
    done.
  - intros Hsome.
    pose proof (count_chars_nonneg is_arabic t) as Ha.
    pose proof (count_chars_nonneg is_ascii_alpha t) as He.
    destruct (Z.eqb_spec (count_chars is_arabic t + count_chars is_ascii_alpha t) 0)
      as [Hz|_].
    + exfalso. assert (Ha0 : count_chars is_arabic t = 0) by lia.
      assert (He0 : count_chars is_ascii_alpha t = 0) by lia.
      apply count_chars_zero in Ha0, He0.
      apply Exists_exists in Hsome as (c & Hin & Hc).
      rewrite Forall_forall in Ha0, He0.
      specialize (Ha0 c Hin). specialize (He0 c Hin).
      destruct Hc as [Hc|Hc].
      * apply is_arabic_range in Hc. congruence.
      * apply is_ascii_alpha_range in Hc. congruence.
    + destruct (Qltb (7 # 10) ratio) eqn:Hhi.
      { left. by apply Qltb_lt in Hhi. }
      destruct (Qltb ratio (3 # 10)) eqn:Hlo.
      { right; left. by apply Qltb_lt in Hlo. }
      right; right. apply Qltb_ge in Hhi, Hlo. done.
Qed.

Lemma detect_language_buckets_witness :
  detect_language (utf8 "12 + 3") = "unknown"
  ∧ detect_language (utf8 "ملح salt") = "mixed".
Proof.
  destruct (detect_language_buckets (utf8 "12 + 3")) as [Hnone _].
  destruct (detect_language_buckets (utf8 "ملح salt")) as [_ Hsome].
  split.
  - apply Hnone. set (t := utf8 "12 + 3"). vm_compute in t. subst t.
    repeat apply List.Forall_cons; try apply List.Forall_nil; cbv beta; lia.
  - destruct Hsome as [[_ H]|[[_ H]|[_ H]]];
      [| discriminate H | discriminate H | exact H].
    set (t := utf8 "ملح salt"). vm_compute in t. subst t.
    apply Exists_cons_hd. cbv beta. lia.
Defined.

(** * Further properties of the backend *)

(** ** Rate limiter: bounds that hold for every clock and every history *)

Section RateLimiterBounds.
Import RateLimiter.

Variable cfg : Config.
Variables client_ip endpoint : string.
Variables L W : Z.

Let key := make_key client_ip endpoint.
Let allow now st := is_allowed cfg now client_ip endpoint (Some L) (Some W) st.
Let run times st := checks cfg client_ip endpoint (Some L) (Some W) times st.

Lemma clean_old_split cutoff (requests : list Q) :
  ∃ dropped, requests = dropped ++ clean_old cutoff requests
    ∧ Forall (λ t, (t < cutoff)%Q) dropped.
Proof.
  induction requests as [|t rest (dropped & Hsplit & Hold)].
  - by exists [].
  - simpl. destruct (Qltb t cutoff) eqn:Ht.
    + exists (t :: dropped). split; [simpl; congruence|].
      constructor; [by apply Qltb_lt | done].
    + by exists [].
Qed.

Lemma clean_old_length cutoff (requests : list Q) :
  (length (clean_old cutoff requests) ≤ length requests)%nat.
Proof.
  destruct (clean_old_split cutoff requests) as (dropped & Hsplit & _).
  rewrite Hsplit at 2. rewrite length_app. lia.
Qed.

Lemma is_allowed_deque now st :
  default [] ((allow now st).2 !! key)
  = let requests := clean_old (now - inject_Z W) (default [] (st !! key)) in
    if Z.of_nat (length requests) >=? L then requests else requests ++ [now].
Proof.
  unfold allow, is_allowed. cbv zeta. cbn [default from_option id].
  fold key. destruct (_ >=? _); simpl; by rewrite lookup_insert_eq.
Qed.

Lemma is_allowed_result now st :
  (allow now st).1
  = negb (Z.of_nat (length (clean_old (now - inject_Z W) (default [] (st !! key))))
          >=? L).
Proof.
  unfold allow, is_allowed. cbv zeta. cbn [default from_option id].
  fold key. by destruct (_ >=? _).
Qed.

Lemma checks_cons now later st :
  run (now :: later) st
  = ((allow now st).1 :: (run later (allow now st).2).1,
     (run later (allow now st).2).2).
Proof.
  unfold run, allow. cbn [checks].
  destruct (is_allowed _ _ _ _ _ _ _) as [r st1]. cbn [fst snd].
  by destruct (checks _ _ _ _ _ later st1).
Qed.

Lemma is_allowed_length_bound now st :
  Z.of_nat (length (default [] ((allow now st).2 !! key)))
  ≤ Z.max L (Z.of_nat (length (default [] (st !! key)))).
Proof.
  rewrite is_allowed_deque. cbv zeta.
  pose proof (clean_old_length (now - inject_Z W) (default [] (st !! key))).
  destruct (Z.geb_spec (Z.of_nat (length (clean_old (now - inject_Z W)
                                           (default [] (st !! key))))) L).
  - lia.
  - rewrite length_app. simpl. lia.
Qed.

Lemma checks_length_bound times : ∀ st,
  Z.of_nat (length (default [] ((run times st).2 !! key)))
  ≤ Z.max L (Z.of_nat (length (default [] (st !! key)))).
Proof.
  induction times as [|now later IH]; intros st.
  - simpl. lia.
  - rewrite checks_cons. cbn [snd].
    specialize (IH (allow now st).2).
    pose proof (is_allowed_length_bound now st). lia.
Qed.

Lemma in_window_app W' now (l1 l2 : list Q) :
  in_window W' now (l1 ++ l2) = (in_window W' now l1 + in_window W' now l2)%nat.
Proof. unfold in_window. by rewrite List.filter_app, length_app. Qed.

Lemma in_window_old W' now (l : list Q) :
  Forall (λ t, (t < now - inject_Z W')%Q) l → in_window W' now l = 0%nat.
Proof.
  unfold in_window. induction 1 as [|t l Ht _ IH]; [done|]. simpl.
  apply Qltb_lt in Ht. by rewrite Ht.
Qed.

Lemma in_window_le W' now (l : list Q) : (in_window W' now l ≤ length l)%nat.
Proof.
  unfold in_window. induction l as [|t l IH]; [done|]. simpl.
  destruct (negb _); simpl; lia.
Qed.

(** The history of admitted readings splits into those already trimmed,
    all older than the window of the last reading [c], and the deque. *)
Lemma checks_window times : ∀ st c pre,
  Sorted Qle (c :: times) →
  Forall (λ t, (t < c - inject_Z W)%Q) pre →
  ∀ n now,
    times !! n = Some now →
    (run times st).1 !! n = Some true →
    Z.of_nat (in_window W now
                (pre ++ default [] (st !! key)
                 ++ admitted (take (S n) times) (take (S n) (run times st).1)))
    ≤ L.
Proof.
  induction times as [|t later IH]; intros st c pre Hsorted Hpre n now Hn Hres;
    [done|].
  apply Sorted_inv in Hsorted as [Hsorted Hc]. apply HdRel_inv in Hc.
  rewrite checks_cons in Hres |- *. cbn [fst] in Hres |- *.
  destruct (clean_old_split (t - inject_Z W) (default [] (st !! key)))
    as (dropped & Hsplit & Hdropped).
  assert (Hpre' : Forall (λ x, (x < t - inject_Z W)%Q) (pre ++ dropped)).
  { apply Forall_app. split; [|done].
    eapply Forall_impl; [exact Hpre|]. intros x Hx. simpl in Hx. lra. }
  destruct n as [|n].
  - simpl in Hn, Hres. injection Hn as <-. injection Hres as Hres.
    rewrite Hres. rewrite is_allowed_result in Hres. apply negb_true_iff in Hres.
    assert (Hroom : Z.of_nat (length (clean_old (t - inject_Z W)
                                        (default [] (st !! key)))) < L).
    { destruct (Z.geb_spec (Z.of_nat (length (clean_old (t - inject_Z W)
                                               (default [] (st !! key))))) L);
        [done | lia]. }
    change (admitted (take 1 (t :: later)) (take 1 (true :: _))) with [t].
    rewrite Hsplit, !in_window_app.
    apply Forall_app in Hpre' as [Hpre1 Hpre2].
    rewrite (in_window_old W t pre Hpre1), (in_window_old W t dropped Hpre2).
    pose proof (in_window_le W t (clean_old (t - inject_Z W) (default [] (st !! key)))).
    pose proof (in_window_le W t [t]). simpl in *. lia.
  - simpl in Hn, Hres.
    specialize (IH (allow t st).2 t (pre ++ dropped) Hsorted Hpre' n now Hn Hres).
    rewrite is_allowed_deque in IH. cbv zeta in IH.
    rewrite is_allowed_result.
    change (take (S (S n)) (t :: later)) with (t :: take (S n) later).
    match goal with
    | |- context [take (S (S n)) (?r :: ?rs)] =>
        change (take (S (S n)) (r :: rs)) with (r :: take (S n) rs)
    end.
    unfold admitted in *. cbn [zip zip_with].
    rewrite Hsplit at 1.
    destruct (Z.of_nat (length (clean_old (t - inject_Z W)
                                  (default [] (st !! key)))) >=? L);
      cbn [negb List.filter snd fmap list_fmap fst] in *;
      repeat rewrite <- app_assoc in IH; repeat rewrite <- app_assoc;
      exact IH.
Qed.

End RateLimiterBounds.

(** X1.  The sliding window holds over any history.  Under a clock that
    never runs backwards and from an empty deque, whenever a check is
    admitted at reading [now], the admitted readings up to and including
    this one that lie in the window [now - W, now] number at most [L]. *)
Theorem window_never_exceeds_limit (cfg : Config) (client_ip endpoint : string)
    (L W : Z) (times : list Q) (st : RateLimiter.storage) (n : nat) (now : Q) :
  let results :=
    (RateLimiter.checks cfg client_ip endpoint (Some L) (Some W) times st).1 in
  default [] (st !! RateLimiter.make_key client_ip endpoint) = [] →
  Sorted Qle times →
  times !! n = Some now →
  results !! n = Some true →
  Z.of_nat (in_window W now (admitted (take (S n) times) (take (S n) results)))
  ≤ L.
Proof.
  intros results Hfresh Hsorted Hn Hres.
  destruct times as [|t0 later]; [done|].
  pose proof (checks_window cfg client_ip endpoint L W (t0 :: later) st t0 []) as H.
  rewrite Hfresh in H. apply H; try done.
  constructor; [done|]. constructor. apply Qle_refl.
Qed.

Lemma window_never_exceeds_limit_witness :
  (Z.of_nat
     (in_window 60 61
        (admitted (take 4 [0; 1; 2; 61; 62]%Q)
           (take 4 (RateLimiter.checks config "203.0.113.7" "translate"
                      (Some 2) (Some 60) [0; 1; 2; 61; 62]%Q ∅).1)))
   ≤ 2).
Proof.
  apply (window_never_exceeds_limit config "203.0.113.7" "translate" 2 60
           [0; 1; 2; 61; 62]%Q ∅ 3 61).
  - by rewrite lookup_empty.
  - repeat (constructor; try (apply Qle_bool_iff; reflexivity)).
  - reflexivity.
  - vm_compute. reflexivity.
Defined.

(** X2.  The deque of a key is bounded.  After any sequence of checks with
    limit [L], at any clock readings, the deque of the key holds at most
    [L] readings, or as many as it held before if that was more. *)
Theorem deque_bounded_by_limit (cfg : Config) (client_ip endpoint : string)
    (L W : Z) (times : list Q) (st : RateLimiter.storage) :
  let key := RateLimiter.make_key client_ip endpoint in
  Z.of_nat (length (default []
    ((RateLimiter.checks cfg client_ip endpoint (Some L) (Some W) times st).2
       !! key)))
  ≤ Z.max L (Z.of_nat (length (default [] (st !! key)))).
Proof. apply checks_length_bound. Qed.

(** ** Rate limiter: keys *)

Lemma append_nil_l (s : string) : "" +:+ s = s.
Proof. reflexivity. Qed.

Lemma append_cons (a : Ascii.ascii) (s t : string) :
  String a s +:+ t = String a (s +:+ t).
Proof. reflexivity. Qed.

Lemma colon_free_append (s e : string) (a : Ascii.ascii) :
  Ascii.N_of_ascii a = 58%N → colon_free (s +:+ String a e) = false.
Proof.
  intros Ha. induction s as [|b s IH].
  - rewrite append_nil_l. simpl. by rewrite Ha.
  - rewrite append_cons. simpl. by rewrite IH, andb_false_r.
Qed.

(** The key determines the client and the endpoint as long as endpoint
    names hold no colon. *)
Lemma make_key_inj (ip ip' e e' : string) :
  colon_free e = true → colon_free e' = true →
  RateLimiter.make_key ip e = RateLimiter.make_key ip' e' → ip = ip' ∧ e = e'.
Proof.
  unfold RateLimiter.make_key. intros He He'.
  revert ip'. induction ip as [|a ip IH]; intros [|a' ip'] Hkey;
    rewrite ?append_nil_l, ?append_cons, ?append_nil_l in Hkey.
  - by injection Hkey as ->.
  - injection Hkey as <- ->.
    rewrite ?append_cons, ?append_nil_l in He.
    by rewrite colon_free_append in He.
  - injection Hkey as -> <-.
    rewrite ?append_cons, ?append_nil_l in He'.
    by rewrite colon_free_append in He'.
  - injection Hkey as -> Hkey.
    destruct (IH ip') as [-> ->]; [|done].
    by rewrite ?append_cons, ?append_nil_l.
Qed.

(** X3.  Budgets are independent.  With endpoint names free of colons, a
    check for one (client, endpoint) pair changes neither the deque nor the
    outcome of the next check of any other pair. *)
Theorem budgets_independent (cfg : Config) (ip e ip' e' : string)
    (now now' : Q) (limit window limit' window' : option Z)
    (st : RateLimiter.storage) :
  colon_free e = true → colon_free e' = true → (ip, e) ≠ (ip', e') →
  let st1 := (RateLimiter.is_allowed cfg now ip e limit window st).2 in
  st1 !! RateLimiter.make_key ip' e' = st !! RateLimiter.make_key ip' e'
  ∧ (RateLimiter.is_allowed cfg now' ip' e' limit' window' st1).1
    = (RateLimiter.is_allowed cfg now' ip' e' limit' window' st).1.
Proof.
  intros He He' Hne st1.
  assert (Hkey : RateLimiter.make_key ip e ≠ RateLimiter.make_key ip' e').
  { intros Hk. apply Hne. by destruct (make_key_inj _ _ _ _ He He' Hk) as [-> ->]. }
  assert (Hframe : st1 !! RateLimiter.make_key ip' e'
                   = st !! RateLimiter.make_key ip' e').
  { unfold st1, RateLimiter.is_allowed. cbv zeta.
    destruct (_ >=? _); simpl; by rewrite lookup_insert_ne. }
  split; [exact Hframe|].
  unfold RateLimiter.is_allowed. cbv zeta. rewrite Hframe.
  by destruct (_ >=? _).
Qed.

Lemma budgets_independent_witness :
  (RateLimiter.is_allowed config 1 "203.0.113.7" "login" (Some 1) None
     (RateLimiter.is_allowed config 0 "203.0.113.7" "translate" (Some 1) None ∅).2).1
  = (RateLimiter.is_allowed config 1 "203.0.113.7" "login" (Some 1) None ∅).1.
Proof.
  apply (budgets_independent config "203.0.113.7" "translate" "203.0.113.7"
           "login" 0 1 (Some 1) None (Some 1) None ∅); [reflexivity .. |].
  discriminate.
Defined.

(** ** Pipeline: every way a call can end *)

Section PipelineCases.

Variable cfg : Config.
Variable ext : Backends.

Lemma bind_http {A B} (m : M A) (k : A → M B) w c d w' :
  m w = (HTTPException c d, w') → (m ≫= k) w = (HTTPException c d, w').
Proof. intros H. unfold mbind, M_bind. by rewrite H. Qed.

Lemma bind_exception {A B} (m : M A) (k : A → M B) w w' :
  m w = (Exception, w') → (m ≫= k) w = (Exception, w').
Proof. intros H. unfold mbind, M_bind. by rewrite H. Qed.

Lemma filter_nul_empty (t : text) :
  t = [] → strip (List.filter (λ c, negb (c =? 0)%N) t) = [].
Proof. by intros ->. Qed.

(** [sanitize_text_input] returns the sanitized text when that is not
    empty and within the bound, raises 400 otherwise, and in both cases
    leaves the world alone. *)
Lemma sanitize_text_input_cases query max_length w :
  (sanitized query ≠ [] ∧ Z.of_nat (length (sanitized query)) ≤ max_length
   ∧ sanitize_text_input query max_length w = (Returned (sanitized query), w))
  ∨ ((sanitized query = [] ∨ max_length < Z.of_nat (length (sanitized query)))
     ∧ ∃ detail, sanitize_text_input query max_length w
                 = (HTTPException 400 detail, w)).
Proof.
  unfold sanitize_text_input. fold (sanitized query).
  destruct query as [|c query'].
  { right. split; [by left | by eexists]. }
  destruct (Z.ltb_spec max_length (Z.of_nat (length (sanitized (c :: query'))))).
  { right. split; [by right | by eexists]. }
  destruct (sanitized (c :: query')) as [|a q] eqn:Hq.
  { right. split; [by left | by eexists]. }
  left. done.
Qed.

(** On a clean text the embedding call charges, sends its request and then
    answers as the backend does. *)
Lemma get_single_embedding_clean q w :
  q ≠ [] → strip q = q →
  ∃ w1,
    requests_sent w1 = requests_sent w ++ [EmbeddingsCreate q]
    ∧ cost_tracker (state w1) = charged_embedding ext q (cost_tracker (state w))
    ∧ cost_log w1 = cost_log w
    ∧ same_corpus w w1
    ∧ get_single_embedding cfg ext q w
      = (match embeddings_create ext q with
         | Some v => Returned v
         | None => Exception
         end, w1).
Proof.
  intros Hne Hstrip.
  exists (send (EmbeddingsCreate q) (track_embedding_cost ext q w).2).2.
  split; [reflexivity|]. split; [reflexivity|]. split; [reflexivity|].
  split; [done|].
  unfold get_single_embedding. rewrite Hstrip.
  destruct q as [|c q']; [done|].
  cbv [mbind M_bind track_embedding_cost get_state set_cost_tracker send
       or_raise raise mret M_ret fst snd].
  by destruct (embeddings_create ext (c :: q')).
Qed.

(** The six ways [translate_text] ends, with what each leaves behind. *)
Lemma translate_text_cases query w :
  let q := sanitized query in
  let out := (translate_text cfg ext query w).1 in
  let w' := (translate_text cfg ext query w).2 in
  let ct := cost_tracker (state w) in
  same_corpus w w'
  ∧ ((initialized (state w) = false ∧ w' = w ∧ ∃ d, out = HTTPException 503 d)
     ∨ (initialized (state w) = true
        ∧ (q = [] ∨ 10000 < Z.of_nat (length q))
        ∧ w' = w ∧ ∃ d, out = HTTPException 400 d)
     ∨ (initialized (state w) = true ∧ q ≠ [] ∧ Z.of_nat (length q) ≤ 10000
        ∧ out = Exception
        ∧ requests_sent w' = requests_sent w ++ [EmbeddingsCreate q]
        ∧ cost_tracker (state w') = charged_embedding ext q ct
        ∧ cost_log w' = cost_log w)
     ∨ (initialized (state w) = true ∧ q ≠ [] ∧ Z.of_nat (length q) ≤ 10000
        ∧ ∃ prompt,
            chat_completions_create ext prompt = None
            ∧ out = Exception
            ∧ requests_sent w'
              = requests_sent w ++ [EmbeddingsCreate q; ChatCompletionsCreate prompt]
            ∧ cost_tracker (state w') = charged_embedding ext q ct
            ∧ cost_log w' = cost_log w)
     ∨ (initialized (state w) = true ∧ q ≠ [] ∧ Z.of_nat (length q) ≤ 10000
        ∧ ∃ prompt content total_tokens,
            chat_completions_create ext prompt = Some (content, total_tokens)
            ∧ out = Returned
                {| translated_text := strip content;
                   detected_language := detect_language q;
                   tokens_used := total_tokens;
                   cost_estimate := request_cost ext q total_tokens |}
            ∧ requests_sent w'
              = requests_sent w ++ [EmbeddingsCreate q; ChatCompletionsCreate prompt]
            ∧ cost_tracker (state w')
              = charged_completion total_tokens (charged_embedding ext q ct)
            ∧ cost_log w'
              = keep_last 1000
                  (cost_log w
                   ++ [{| log_endpoint := "/api/translate";
                          log_request_type := "translation";
                          log_tokens_used := total_tokens;
                          log_cost := request_cost ext q total_tokens;
                          log_session_total_cost :=
                            session_total
                              (charged_completion total_tokens
                                 (charged_embedding ext q ct)) |}]))).
Proof.
  intros q out w' ct. subst out w' ct. unfold translate_text.
  rewrite (bind_returned get_state _ w (state w) w eq_refl).
  destruct (initialized (state w)) eqn:Hinit; cbn [negb].
  2:{ split; [done|]. left. split; [done|]. split; [done|]. by eexists. }
  destruct (sanitize_text_input_cases query 10000 w)
    as [(Hne & Hlen & Hs) | (Hbad & d & Hs)].
  2:{ rewrite (bind_http _ _ _ _ _ _ Hs). split; [done|].
      right; left. split; [done|]. split; [exact Hbad|]. split; [done|].
      by eexists. }
  rewrite (bind_returned _ _ _ _ _ Hs). fold q in Hne, Hlen |- *.
  destruct (get_single_embedding_clean q w Hne (sanitized_strip query))
    as (w1 & Hsent1 & Hct1 & Hlog1 & Hcorpus1 & Hrun).
  destruct (embeddings_create ext q) as [v|].
  2:{ rewrite (bind_exception _ _ _ _ Hrun). split; [done|].
      right; right; left. done. }
  rewrite (bind_returned _ _ _ _ _ Hrun).
  destruct (index (state w)) as [idx|].
  2:{ split; [done|]. right; right; left. done. }
  rewrite (bind_returned (or_raise (Some idx)) _ w1 idx w1 eq_refl).
  destruct (IndexFlatL2_search idx v (TOP_K_RETRIEVAL cfg)) as [[ds labels]|].
  2:{ split; [done|]. right; right; left. done. }
  rewrite (bind_returned (or_raise (Some (ds, labels))) _ w1 _ w1 eq_refl).
  destruct (glossary (state w)) as [rows|].
  2:{ split; [done|]. right; right; left. done. }
  rewrite (bind_returned (or_raise (Some rows)) _ w1 _ w1 eq_refl).
  destruct (iloc rows labels) as [retrieved|].
  2:{ split; [done|]. right; right; left. done. }
  rewrite (bind_returned (or_raise (Some retrieved)) _ w1 _ w1 eq_refl).
  set (prompt := build_prompt _ _).
  rewrite (bind_returned (send (ChatCompletionsCreate prompt)) _ w1 () _ eq_refl).
  destruct Hcorpus1 as (Hi & Hg & Hn).
  destruct (chat_completions_create ext prompt) as [[content total_tokens]|] eqn:Hchat.
  - cbv [or_raise mbind M_bind mret M_ret track_completion_cost log_api_usage
         calculate_costs get_state set_cost_tracker get_cost_log set_cost_log send].
    cbn [fst snd requests_sent state cost_log cost_tracker index glossary
         initialized cb_total_cost embedding_tokens completion_tokens].
    split; [done|]. do 4 right. split; [done|]. split; [done|]. split; [done|].
    exists prompt, content, total_tokens.
    rewrite Hsent1, Hlog1, <- app_assoc.
    unfold charged_completion, session_total, request_cost.
    cbn [embedding_tokens completion_tokens]. rewrite <- Hct1. done.
  - cbv [or_raise raise mbind M_bind send].
    cbn [fst snd requests_sent state cost_log].
    split; [done|]. do 3 right. left. split; [done|]. split; [done|].
    split; [done|]. exists prompt. rewrite Hsent1, <- app_assoc. done.
Qed.

End PipelineCases.

(** X4.  Validation comes before any backend call.  With the glossary
    loaded, a query that is empty once NULs and surrounding white space are
    removed, or longer than 10000 characters after that, is answered with
    status 400 and the world is untouched: nothing sent, nothing charged,
    nothing logged. *)
Theorem translate_text_rejects_before_embedding (cfg : Config) (ext : Backends)
    (query : text) (w : World) :
  initialized (state w) = true →
  sanitized query = [] ∨ 10000 < Z.of_nat (length (sanitized query)) →
  ∃ detail, translate_text cfg ext query w = (HTTPException 400 detail, w).
Proof.
  intros Hinit Hbad.
  destruct (translate_text_cases cfg ext query w) as [_ Hcases].
  cbv zeta in Hcases.
  destruct (translate_text cfg ext query w) as [out w'].
  cbn [fst snd] in Hcases.
  destruct Hcases as [(Hi & _)|[(_ & _ & -> & d & ->)|[H|[H|H]]]].
  - congruence.
  - by exists d.
  - exfalso. destruct H as (_ & Hne & Hlen & _). destruct Hbad; [done | lia].
  - exfalso. destruct H as (_ & Hne & Hlen & _). destruct Hbad; [done | lia].
  - exfalso. destruct H as (_ & Hne & Hlen & _). destruct Hbad; [done | lia].
Qed.

Lemma translate_text_rejects_before_embedding_witness :
  ∃ detail,
    translate_text toy_config toy_backends (utf8 "   ") (loaded_world scenario_rows)
    = (HTTPException 400 detail, loaded_world scenario_rows).
Proof.
  apply (translate_text_rejects_before_embedding toy_config toy_backends
           (utf8 "   ") (loaded_world scenario_rows)).
  - reflexivity.
  - left. vm_compute. reflexivity.
Defined.

(** X5.  Requests and counters move together.  Whatever the query and the
    backends, a call of [translate_text] leaves the corpus alone, appends at
    most two requests to the trace, the embedding request first; the
    embedding request counter grows by exactly the number of embedding
    requests sent; and the completion counters and the usage log change only
    when the call returns a result. *)
Theorem translate_text_accounting (cfg : Config) (ext : Backends)
    (query : text) (w : World) :
  let out := (translate_text cfg ext query w).1 in
  let w' := (translate_text cfg ext query w).2 in
  same_corpus w w'
  ∧ ∃ new,
      requests_sent w' = requests_sent w ++ new
      ∧ (new = [] ∨ new = [EmbeddingsCreate (sanitized query)]
         ∨ ∃ prompt, new = [EmbeddingsCreate (sanitized query);
                            ChatCompletionsCreate prompt])
      ∧ embedding_requests (cost_tracker (state w'))
        = embedding_requests (cost_tracker (state w))
          + Z.of_nat (length (List.filter is_embedding_request new))
      ∧ ((∃ r, out = Returned r)
         ∨ (completion_tokens (cost_tracker (state w'))
            = completion_tokens (cost_tracker (state w))
            ∧ completion_requests (cost_tracker (state w'))
              = completion_requests (cost_tracker (state w))
            ∧ cost_log w' = cost_log w)).
Proof.
  destruct (translate_text_cases cfg ext query w) as [Hcorpus Hcases].
  cbv zeta in Hcases |- *.
  destruct (translate_text cfg ext query w) as [out w'].
  cbn [fst snd] in Hcases, Hcorpus |- *. split; [exact Hcorpus|].
  destruct Hcases as [(_ & -> & _)|[(_ & _ & -> & _)|[H|[H|H]]]].
  - exists []. rewrite app_nil_r. simpl. repeat split; auto with lia.
  - exists []. rewrite app_nil_r. simpl. repeat split; auto with lia.
  - destruct H as (_ & _ & _ & _ & Hsent & Hct & Hlog).
    exists [EmbeddingsCreate (sanitized query)]. rewrite Hct. simpl.
    repeat split; auto.
  - destruct H as (_ & _ & _ & prompt & _ & _ & Hsent & Hct & Hlog).
    exists [EmbeddingsCreate (sanitized query); ChatCompletionsCreate prompt].
    rewrite Hct. simpl. repeat split; eauto.
  - destruct H as (_ & _ & _ & prompt & content & tokens & _ & -> & Hsent & Hct & Hlog).
    exists [EmbeddingsCreate (sanitized query); ChatCompletionsCreate prompt].
    rewrite Hct. simpl. repeat split; eauto.
Qed.

(** X6.  What a successful call records.  When [translate_text] returns a
    result, the completion token counter has grown by the reported
    [tokens_used], the completion request counter by one, and the usage log
    has gained one entry as its newest (the log cut to its last 1000), which
    carries the reported tokens and cost and the session total computed
    from the counters as they now stand; the reported language is that of
    the sanitized query and the translation comes back stripped. *)
Theorem translate_text_success_record (cfg : Config) (ext : Backends)
    (query : text) (w : World) (r : TranslateResult) :
  (translate_text cfg ext query w).1 = Returned r →
  let w' := (translate_text cfg ext query w).2 in
  completion_tokens (cost_tracker (state w'))
    = completion_tokens (cost_tracker (state w)) + tokens_used r
  ∧ completion_requests (cost_tracker (state w'))
    = completion_requests (cost_tracker (state w)) + 1
  ∧ cost_log w'
    = keep_last 1000
        (cost_log w
         ++ [{| log_endpoint := "/api/translate";
                log_request_type := "translation";
                log_tokens_used := tokens_used r;
                log_cost := cost_estimate r;
                log_session_total_cost :=
                  session_total (cost_tracker (state w')) |}])
  ∧ detected_language r = detect_language (sanitized query)
  ∧ strip (translated_text r) = translated_text r.
Proof.
  intros Hout.
  destruct (translate_text_cases cfg ext query w) as [_ Hcases].
  cbv zeta in Hcases |- *.
  destruct (translate_text cfg ext query w) as [out w'].
  cbn [fst snd] in Hcases, Hout |- *. subst out.
  destruct Hcases as [(_ & _ & d & H)|[(_ & _ & _ & d & H)|[H|[H|H]]]];
    try discriminate H.
  - by destruct H as (_ & _ & _ & H & _).
  - by destruct H as (_ & _ & _ & prompt & _ & H & _).
  - destruct H as (_ & _ & _ & prompt & content & tokens & _ & Hr & _ & Hct & Hlog).
    injection Hr as ->. cbn [tokens_used cost_estimate detected_language
                             translated_text].
    rewrite Hlog, Hct. simpl. repeat split; try done. apply strip_strip.
Qed.

Lemma translate_text_success_record_witness :
  completion_tokens
    (cost_tracker
       (state (translate_text toy_config toy_backends (utf8 "chicken")
                 (loaded_world scenario_rows)).2))
  = 0 + 42.
Proof.
  apply (translate_text_success_record toy_config toy_backends (utf8 "chicken")
           (loaded_world scenario_rows)
           {| translated_text := utf8 "دجاج"; detected_language := "english";
              tokens_used := 42; cost_estimate := 6 # 1000000 |}).
  vm_compute. reflexivity.
Defined.

(** ** Input validation *)

Lemma lstrip_Forall (P : N → Prop) (t : text) : Forall P t → Forall P (lstrip t).
Proof.
  induction 1 as [|c t Hc Ht IH]; [constructor|]. simpl.
  destruct (isspace c); [done | by constructor].
Qed.

Lemma strip_Forall (P : N → Prop) (t : text) : Forall P t → Forall P (strip t).
Proof.
  intros H. unfold strip.
  apply List.Forall_rev, lstrip_Forall, List.Forall_rev, lstrip_Forall, H.
Qed.

Lemma sanitized_no_nul (query : text) : Forall (λ c, c ≠ 0%N) (sanitized query).
Proof.
  unfold sanitized. apply strip_Forall.
  induction query as [|c query IH]; simpl; [constructor|].
  destruct (N.eqb_spec c 0); simpl; [done | by constructor].
Qed.

Lemma sanitized_idempotent (query : text) :
  sanitized (sanitized query) = sanitized query.
Proof.
  apply sanitized_clean; [apply sanitized_strip | apply sanitized_no_nul].
Qed.

(** X7.  What [sanitize_text_input] lets through.  An accepted text is the
    input with its NUL characters removed and its surrounding white space
    stripped; it is not empty, no longer than the bound, holds no NUL and
    has no white space at either end; the world is unchanged; and validating
    the accepted text once more accepts it as it is. *)
Theorem sanitize_text_input_accepts_clean (query : text) (max_length : Z)
    (w w' : World) (t : text) :
  sanitize_text_input query max_length w = (Returned t, w') →
  w' = w
  ∧ t = sanitized query
  ∧ t ≠ []
  ∧ Z.of_nat (length t) ≤ max_length
  ∧ Forall (λ c, c ≠ 0%N) t
  ∧ strip t = t
  ∧ sanitize_text_input t max_length w = (Returned t, w).
Proof.
  intros Hrun.
  destruct (sanitize_text_input_cases query max_length w)
    as [(Hne & Hlen & Hs) | (_ & d & Hs)]; rewrite Hs in Hrun; [|done].
  injection Hrun as <- <-.
  split; [done|]. split; [done|]. split; [done|]. split; [done|].
  split; [apply sanitized_no_nul|]. split; [apply sanitized_strip|].
  rewrite <- (sanitized_idempotent query) at 2.
  apply sanitize_text_input_ok; by rewrite sanitized_idempotent.
Qed.

Lemma sanitize_text_input_accepts_clean_witness :
  sanitize_text_input (utf8 "chicken") 10000 unloaded_world
  = (Returned (utf8 "chicken"), unloaded_world).
Proof.
  apply (sanitize_text_input_accepts_clean (0%N :: utf8 "  chicken ") 10000
           unloaded_world unloaded_world (utf8 "chicken")).
  vm_compute. reflexivity.
Defined.

(** ** Health monitor: buffers and side effects *)

Section MonitorFrame.
Import HealthMonitor.

Lemma same_samples_refl hm : same_samples hm hm.
Proof. by repeat split. Qed.

Lemma same_samples_trans hm1 hm2 hm3 :
  same_samples hm1 hm2 → same_samples hm2 hm3 → same_samples hm1 hm3.
Proof. intros (?&?&?&?) (?&?&?&?). repeat split; congruence. Qed.

Lemma trigger_alert_samples now utcnow type message hm :
  same_samples hm (_trigger_alert now utcnow type message hm).
Proof. unfold _trigger_alert. destruct (Qltb _ _); by repeat split. Qed.

Lemma trigger_alert_warnings now utcnow type message hm :
  warnings hm `prefix_of` warnings (_trigger_alert now utcnow type message hm).
Proof.
  unfold _trigger_alert. destruct (Qltb _ _); [|done]. simpl.
  by apply prefix_app_r.
Qed.

Lemma deque_append_length {A} (maxlen : nat) (dq : list A) (x : A) :
  (0 < maxlen)%nat → (length dq ≤ maxlen)%nat →
  (length (deque_append maxlen dq x) ≤ maxlen)%nat
  ∧ last (deque_append maxlen dq x) = Some x
  ∧ deque_append maxlen dq x
    = (if (length dq <? maxlen)%nat then dq else drop 1 dq) ++ [x].
Proof.
  intros Hpos Hlen. unfold deque_append.
  destruct (Nat.ltb_spec (length dq) maxlen).
  - rewrite length_app, last_snoc. simpl. repeat split; lia.
  - rewrite length_app, length_drop, last_snoc. simpl. repeat split; lia.
Qed.

Variable env : Env.
Variable hm0 : t.

Lemma check_step_framed name healthy bad fire type message s :
  framed hm0 s → framed hm0 (check_step env name healthy bad fire type message s).
Proof.
  destruct s as [hs hm]. intros (Hs & Hw & Ho).
  unfold framed, check_step, degrade, set_overall, set_check in *. cbv zeta.
  cbn [fst snd] in *.
  destruct fire; cbn [fst snd overall_status].
  - split; [eapply same_samples_trans; [exact Hs | apply trigger_alert_samples]|].
    split; [etrans; [exact Hw | apply trigger_alert_warnings]|]. by right.
  - done.
Qed.

Lemma set_check_framed name status s :
  framed hm0 s → framed hm0 (set_check name status s).
Proof. by destruct s. Qed.

Lemma check_system_resources_framed s :
  framed hm0 s →
  match check_system_resources env s with
  | Done s' | Raised s' => framed hm0 s'
  end.
Proof.
  intros Hs. unfold check_system_resources.
  destruct (psutil env) as [ps|]; [|by apply set_check_framed].
  destruct (virtual_memory_percent ps) as [memory|]; [|done].
  assert (Hmem : framed hm0 (check_memory env memory s))
    by by apply check_step_framed.
  destruct (cpu_percent ps) as [cpu|]; [|done].
  assert (Hcpu : framed hm0 (check_cpu env cpu (check_memory env memory s)))
    by by apply check_step_framed.
  destruct (data_exists ps); [|done].
  destruct (disk_usage ps) as [[used total]|]; [|done].
  destruct (total =? 0); [done|]. by apply check_step_framed.
Qed.

Lemma check_system_health_framed cfg app :
  let r := check_system_health cfg app env hm0 in
  same_samples hm0 r.2
  ∧ warnings hm0 `prefix_of` warnings r.2
  ∧ (overall_status r.1 = "healthy" → r.2 = hm0).
Proof.
  unfold check_system_health. cbv zeta.
  set (s0 := ({| overall_status := "healthy"; checks := []; alerts := [];
                 timestamp := report_utcnow env |}, hm0)).
  assert (H0 : framed hm0 s0).
  { split; [apply same_samples_refl|]. split; [done|]. by left. }
  assert (H1 : framed hm0 (check_glossary app env s0))
    by by apply check_step_framed.
  assert (H2 : framed hm0 (check_openai_api cfg env (check_glossary app env s0)))
    by by apply check_step_framed.
  apply check_system_resources_framed in H2.
  destruct (check_system_resources env _) as [s|s].
  - assert (H3 : framed hm0 (check_error_rate env s))
      by by apply check_step_framed.
    assert (H4 : framed hm0 (check_response_time env (check_error_rate env s)))
      by by apply check_step_framed.
    destruct H4 as (Hs & Hw & Ho). split; [done|]. split; [done|].
    intros Hh. destruct Ho as [[_ ?]|Ho]; [done|]. rewrite Ho in Hh. done.
  - destruct s as [hs hm]. destruct H2 as (Hs & Hw & _).
    split; [done|]. split; [done|]. discriminate.
Qed.

End MonitorFrame.

(** X8.  The sample buffers stay within capacity, first in first out.
    From a monitor whose buffers hold at most 100 samples, recording an
    error, recording a response time (alert or not) and running the health
    check all leave both buffers within 100; the recorded sample is the
    newest entry of its buffer, and recording into a full error buffer
    drops exactly its oldest entry. *)
Theorem monitor_buffers_bounded (cfg : Config) (app : AppState)
    (env : HealthMonitor.Env) (hm : HealthMonitor.t)
    (utcnow now utcnow' seconds : Q) (type endpoint : string) (details : text) :
  buffers_bounded hm →
  let e := {| HealthMonitor.error_timestamp := utcnow;
              HealthMonitor.error_type := type;
              HealthMonitor.error_endpoint := endpoint;
              HealthMonitor.error_details := details |} in
  let rt := {| HealthMonitor.time_timestamp := utcnow;
               HealthMonitor.time_endpoint := endpoint;
               HealthMonitor.response_time := seconds |} in
  let hm_e := HealthMonitor.record_error utcnow type endpoint details hm in
  let hm_t := HealthMonitor.record_response_time utcnow now utcnow' endpoint
                seconds hm in
  buffers_bounded hm_e
  ∧ last (HealthMonitor.recent_errors hm_e) = Some e
  ∧ (length (HealthMonitor.recent_errors hm) = 100%nat →
     HealthMonitor.recent_errors hm_e
     = drop 1 (HealthMonitor.recent_errors hm) ++ [e])
  ∧ HealthMonitor.recent_response_times hm_e
    = HealthMonitor.recent_response_times hm
  ∧ buffers_bounded hm_t
  ∧ last (HealthMonitor.recent_response_times hm_t) = Some rt
  ∧ HealthMonitor.recent_errors hm_t = HealthMonitor.recent_errors hm
  ∧ buffers_bounded (HealthMonitor.check_system_health cfg app env hm).2.
Proof.
  intros [Herr Htime] e rt hm_e hm_t.
  destruct (deque_append_length 100 (HealthMonitor.recent_errors hm) e)
    as (Hlen_e & Hlast_e & Heq_e); [lia | done |].
  destruct (deque_append_length 100 (HealthMonitor.recent_response_times hm) rt)
    as (Hlen_t & Hlast_t & _); [lia | done |].
  assert (Htimes : HealthMonitor.recent_response_times hm_t
                   = HealthMonitor.deque_append 100
                       (HealthMonitor.recent_response_times hm) rt
                   ∧ HealthMonitor.recent_errors hm_t
                     = HealthMonitor.recent_errors hm).
  { unfold hm_t, HealthMonitor.record_response_time. cbv zeta.
    destruct (Qltb _ seconds); [|done].
    destruct (trigger_alert_samples now utcnow' "slow_response"
                [HealthMonitor.Lit "Slow response on "; HealthMonitor.Lit endpoint;
                 HealthMonitor.Lit ": "; HealthMonitor.Num seconds;
                 HealthMonitor.Lit "s"]
                {| HealthMonitor.alert_thresholds := HealthMonitor.alert_thresholds hm;
                   HealthMonitor.recent_errors := HealthMonitor.recent_errors hm;
                   HealthMonitor.recent_response_times :=
                     HealthMonitor.deque_append 100
                       (HealthMonitor.recent_response_times hm) rt;
                   HealthMonitor.alert_cooldown := HealthMonitor.alert_cooldown hm;
                   HealthMonitor.alert_cooldown_duration :=
                     HealthMonitor.alert_cooldown_duration hm;
                   HealthMonitor.warnings := HealthMonitor.warnings hm;
                   HealthMonitor.alerts_file := HealthMonitor.alerts_file hm |})
      as (He & Ht & _). done. }
  destruct Htimes as [Ht1 Ht2].
  split; [by split|]. split; [done|]. split.
  { intros Hfull.
    change (HealthMonitor.recent_errors hm_e)
      with (HealthMonitor.deque_append 100 (HealthMonitor.recent_errors hm) e).
    rewrite Heq_e, Hfull. done. }
  split; [done|]. split; [split; [by rewrite Ht2 | by rewrite Ht1]|].
  split; [by rewrite Ht1|]. split; [done|].
  destruct (check_system_health_framed env hm cfg app) as ((He & Ht & _) & _).
  split; [by rewrite He | by rewrite Ht].
Qed.

Lemma monitor_buffers_bounded_witness :
  buffers_bounded
    (HealthMonitor.record_error 1000 "server_error" "/api/translate" []
       HealthMonitor.init).
Proof.
  apply (monitor_buffers_bounded config (state unloaded_world) bare_env
           HealthMonitor.init 1000 1000 1000 1 "server_error" "/api/translate" []).
  split; simpl; lia.
Defined.

(** X9.  What a health check does to the monitor.  The check never touches
    the sample buffers, the thresholds or the cooldown duration; the alerts
    logged before it are kept, in order, at the head of the warning log; and
    a check whose overall status is "healthy" returns the monitor exactly
    as it was, cooldown entries and alert file included. *)
Theorem health_check_side_effects (cfg : Config) (app : AppState)
    (env : HealthMonitor.Env) (hm : HealthMonitor.t) :
  let r := HealthMonitor.check_system_health cfg app env hm in
  same_samples hm r.2
  ∧ HealthMonitor.warnings hm `prefix_of` HealthMonitor.warnings r.2
  ∧ (HealthMonitor.overall_status r.1 = "healthy" → r.2 = hm).
Proof. apply check_system_health_framed. Qed.

(** ** Health monitor: the empty monitor *)

Section EmptyMonitor.
Import HealthMonitor.

(** With no samples and positive thresholds the two rate checks enter
    "healthy" and do nothing else. *)
Lemma rate_checks_idle env s :
  recent_errors s.2 = [] → recent_response_times s.2 = [] →
  (0 < error_rate_threshold (alert_thresholds s.2))%Q →
  (0 < response_time_threshold (alert_thresholds s.2))%Q →
  check_response_time env (check_error_rate env s)
  = set_check "response_time" "healthy" (set_check "error_rate" "healthy" s).
Proof.
  destruct s as [hs hm]. cbn [snd]. intros Herr Htime Hthr_e Hthr_t.
  apply Qltb_lt in Hthr_e, Hthr_t.
  unfold check_error_rate. cbv zeta. cbn [snd].
  assert (He : get_error_rate (error_rate_utcnow env) 5 hm = 0%Q).
  { unfold get_error_rate. by rewrite Herr. }
  rewrite He, Hthr_e. cbn [negb].
  unfold check_response_time. cbv zeta. cbn [snd set_check].
  assert (Ha : get_avg_response_time (response_time_utcnow env) 5 hm = 0%Q).
  { unfold get_avg_response_time. by rewrite Htime. }
  rewrite Ha, Hthr_t. done.
Qed.

End EmptyMonitor.

(** X11.  A monitor without samples.  With both buffers empty the error
    rate and the average response time are 0 at any reading; and on a host
    without psutil, with positive thresholds, the health check enters the
    two rate checks as healthy, so that the overall status is "healthy"
    when the glossary is loaded and the API key is set, and "degraded"
    otherwise. *)
Theorem empty_monitor_health (cfg : Config) (app : AppState)
    (env : HealthMonitor.Env) (hm : HealthMonitor.t) (utcnow : Q)
    (window_minutes : Z) :
  HealthMonitor.recent_errors hm = [] →
  HealthMonitor.recent_response_times hm = [] →
  (0 < HealthMonitor.error_rate_threshold (HealthMonitor.alert_thresholds hm))%Q →
  (0 < HealthMonitor.response_time_threshold (HealthMonitor.alert_thresholds hm))%Q →
  HealthMonitor.psutil env = None →
  let hs := (HealthMonitor.check_system_health cfg app env hm).1 in
  HealthMonitor.get_error_rate utcnow window_minutes hm = 0%Q
  ∧ HealthMonitor.get_avg_response_time utcnow window_minutes hm = 0%Q
  ∧ HealthMonitor.checks hs
    = [("glossary", if glossary_healthy app then "healthy" else "unhealthy");
       ("openai_api", if openai_healthy cfg then "healthy" else "unhealthy");
       ("system_resources", "unknown"); ("error_rate", "healthy");
       ("response_time", "healthy")]
  ∧ HealthMonitor.overall_status hs
    = if glossary_healthy app && openai_healthy cfg then "healthy"
      else "degraded".
Proof.
  intros Herr Htime Hthr_e Hthr_t Hps hs.
  split; [unfold HealthMonitor.get_error_rate; by rewrite Herr|].
  split; [unfold HealthMonitor.get_avg_response_time; by rewrite Htime|].
  subst hs. unfold HealthMonitor.check_system_health. cbv zeta.
  set (s0 := ({| HealthMonitor.overall_status := "healthy";
                 HealthMonitor.checks := []; HealthMonitor.alerts := [];
                 HealthMonitor.timestamp := HealthMonitor.report_utcnow env |}, hm)).
  assert (H0 : framed hm s0).
  { split; [apply same_samples_refl|]. split; [done|]. by left. }
  assert (H2 : framed hm (HealthMonitor.check_openai_api cfg env
                            (HealthMonitor.check_glossary app env s0))).
  { apply (check_step_framed env hm), (check_step_framed env hm), H0. }
  unfold HealthMonitor.check_system_resources. rewrite Hps.
  apply (set_check_framed hm "system_resources" "unknown") in H2.
  destruct H2 as ((He & Ht & Hthr & _) & _).
  rewrite rate_checks_idle; [| congruence ..].
  unfold HealthMonitor.check_openai_api, HealthMonitor.check_glossary.
  cbv zeta. fold (glossary_healthy app). fold (openai_healthy cfg).
  destruct (glossary_healthy app), (openai_healthy cfg); by vm_compute.
Qed.

Lemma empty_monitor_health_witness :
  HealthMonitor.overall_status
    (HealthMonitor.check_system_health toy_config (state unloaded_world)
       bare_env HealthMonitor.init).1
  = "degraded".
Proof.
  apply (empty_monitor_health toy_config (state unloaded_world) bare_env
           HealthMonitor.init 1000 5); try reflexivity;
    apply Qltb_lt; reflexivity.
Defined.

(** ** Capped logs *)

Lemma keep_last_length {A} (n : nat) (l : list A) :
  length (keep_last n l) = (n `min` length l)%nat.
Proof.
  unfold keep_last. destruct (Nat.ltb_spec n (length l)).
  - rewrite length_drop. lia.
  - lia.
Qed.

Lemma keep_last_suffix {A} (n : nat) (l : list A) : keep_last n l `suffix_of` l.
Proof.
  unfold keep_last. destruct (n <? length l)%nat; [apply suffix_drop | done].
Qed.

Lemma keep_last_snoc {A} (n : nat) (l : list A) (x : A) :
  (0 < n)%nat → last (keep_last n (l ++ [x])) = Some x.
Proof.
  intros Hn. unfold keep_last. rewrite length_app. simpl.
  destruct (Nat.ltb_spec n (length l + 1)); [|apply last_snoc].
  rewrite drop_app_le by lia. apply last_snoc.
Qed.

(** X12.  The two logs are capped and keep the newest entry.  After any
    [log_api_usage] the usage log holds at most 1000 entries, and after any
    [_log_alert] the alert file holds at most 500, however long they were
    before; what is kept is a run of the most recent entries in their
    order, and the entry just written is the last of them. *)
Theorem logs_capped (endpoint request_type : string) (cost : Q)
    (tokens_used : Z) (w : World) (utcnow : Q) (type : string)
    (message : HealthMonitor.Message) (hm : HealthMonitor.t) :
  let w' := (log_api_usage endpoint cost tokens_used request_type w).2 in
  let entry := {| log_endpoint := endpoint; log_request_type := request_type;
                  log_tokens_used := tokens_used; log_cost := cost;
                  log_session_total_cost := session_total (cost_tracker (state w)) |} in
  let hm' := HealthMonitor._log_alert utcnow type message hm in
  let alert := {| HealthMonitor.alert_timestamp := utcnow;
                  HealthMonitor.alert_type := type;
                  HealthMonitor.alert_message := message |} in
  (length (cost_log w') ≤ 1000)%nat
  ∧ cost_log w' `suffix_of` cost_log w ++ [entry]
  ∧ last (cost_log w') = Some entry
  ∧ state w' = state w
  ∧ (length (HealthMonitor.alerts_file hm') ≤ 500)%nat
  ∧ HealthMonitor.alerts_file hm' `suffix_of` HealthMonitor.alerts_file hm ++ [alert]
  ∧ last (HealthMonitor.alerts_file hm') = Some alert.
Proof.
  cbv zeta.
  change (cost_log (log_api_usage endpoint cost tokens_used request_type w).2)
    with (keep_last 1000
            (cost_log w ++
             [{| log_endpoint := endpoint; log_request_type := request_type;
                 log_tokens_used := tokens_used; log_cost := cost;
                 log_session_total_cost := session_total (cost_tracker (state w)) |}])).
  change (HealthMonitor.alerts_file (HealthMonitor._log_alert utcnow type message hm))
    with (keep_last 500
            (HealthMonitor.alerts_file hm ++
             [{| HealthMonitor.alert_timestamp := utcnow;
                 HealthMonitor.alert_type := type;
                 HealthMonitor.alert_message := message |}])).
  split; [rewrite keep_last_length; lia|].
  split; [apply keep_last_suffix|].
  split; [apply keep_last_snoc; lia|].
  split; [done|].
  split; [rewrite keep_last_length; lia|].
  split; [apply keep_last_suffix|].
  apply keep_last_snoc; lia.
Qed.

(** ** The alert listing *)

(** X13.  What [get_alerts] lists.  For a positive [limit] the listing is
    the [limit] most recent alerts of the file (all of them if there are
    fewer), newest first.  A [limit] of 0 lists every alert of the file,
    and a negative [limit] all but the oldest [-limit].  The count returned
    is the length of the listing, and a missing or unreadable file lists
    nothing. *)
Theorem get_alerts_listing (limit : Z) (all_alerts : list HealthMonitor.Alert) :
  (0 < limit →
   (get_alerts limit (Some all_alerts)).1
   = take (Z.to_nat limit) (reverse all_alerts))
  ∧ (limit = 0 → (get_alerts limit (Some all_alerts)).1 = reverse all_alerts)
  ∧ (limit < 0 →
     (get_alerts limit (Some all_alerts)).1
     = reverse (drop (Z.to_nat (- limit)) all_alerts))
  ∧ (get_alerts limit (Some all_alerts)).2
    = length (get_alerts limit (Some all_alerts)).1
  ∧ get_alerts limit None = ([], 0%nat).
Proof.
  unfold get_alerts, slice_from. cbn [fst snd].
  split; [|split; [|split; [|done]]].
  - intros Hpos. destruct (Z.ltb_spec limit (Z.of_nat (length all_alerts))).
    + destruct (Z.ltb_spec (- limit) 0); [|lia].
      rewrite take_reverse. do 2 f_equal. lia.
    + rewrite take_ge; [done|]. rewrite length_reverse. lia.
  - intros ->. simpl.
    destruct (Z.ltb_spec 0 (Z.of_nat (length all_alerts))); done.
  - intros Hneg. destruct (Z.ltb_spec limit (Z.of_nat (length all_alerts))); [|lia].
    destruct (Z.ltb_spec (- limit) 0); [lia | done].
Qed.

Lemma get_alerts_listing_witness :
  (get_alerts 2 (Some (HealthMonitor.warnings
     (trigger_all
        [{| call_now := 1000; call_utcnow := 1000; call_type := "high_cpu";
            call_message := [] |};
         {| call_now := 1001; call_utcnow := 1001; call_type := "high_memory";
            call_message := [] |};
         {| call_now := 1002; call_utcnow := 1002; call_type := "high_disk";
            call_message := [] |}]
        HealthMonitor.init)))).1
  = take 2 (reverse (HealthMonitor.warnings
     (trigger_all
        [{| call_now := 1000; call_utcnow := 1000; call_type := "high_cpu";
            call_message := [] |};
         {| call_now := 1001; call_utcnow := 1001; call_type := "high_memory";
            call_message := [] |};
         {| call_now := 1002; call_utcnow := 1002; call_type := "high_disk";
            call_message := [] |}]
        HealthMonitor.init))).
Proof.
  apply (get_alerts_listing 2). lia.
Defined.

(** ** Usage statistics *)

Section Usage.

(** The breakdown after a run of log entries: no entry for an endpoint
    that the log does not mention, and for the others the count, the cost
    and the tokens of exactly its entries, added up in log order. *)
Lemma endpoint_stats_exact (logs : list LogEntry) (endpoint : string) :
  foldl add_log ∅ logs !! endpoint
  = match logs_of endpoint logs with
    | [] => None
    | mine =>
        Some {| stat_requests := Z.of_nat (length mine);
                stat_cost := foldl Qplus 0%Q (map log_cost mine);
                stat_tokens := foldl Z.add 0 (map log_tokens_used mine) |}
    end.
Proof.
  induction logs as [|log logs IH] using rev_ind; [done|].
  rewrite foldl_app. cbn [foldl]. unfold add_log at 1. cbv zeta.
  unfold logs_of in *. rewrite List.filter_app. cbn [List.filter].
  destruct (String.eqb_spec (log_endpoint log) endpoint) as [->|Hne].
  - rewrite lookup_insert_eq, IH.
    destruct (List.filter _ logs) as [|m mine] eqn:Hmine.
    + done.
    + cbn [default from_option id stat_requests stat_cost stat_tokens app].
      rewrite !app_comm_cons, !List.map_app, !foldl_app, length_app.
      cbn [map foldl length]. do 2 f_equal. lia.
  - rewrite lookup_insert_ne by done. by rewrite app_nil_r.
Qed.

End Usage.

(** X14.  The usage breakdown is exact.  For a readable log file
    [get_usage_statistics] reports as many requests as the log has entries;
    its breakdown has an entry for exactly the endpoints that occur in the
    log, holding for each the number, the summed cost and the summed tokens
    of that endpoint's entries; the recent logs are the last 50 entries;
    and the call changes nothing.  An unreadable file gives status 500. *)
Theorem usage_breakdown_exact (logs : list LogEntry) (message : text)
    (w : World) :
  (∃ stats,
     get_usage_statistics (Content logs) message w = (Returned stats, w)
     ∧ total_requests stats = length logs
     ∧ (∀ endpoint,
          endpoint_breakdown stats !! endpoint
          = match logs_of endpoint logs with
            | [] => None
            | mine =>
                Some {| stat_requests := Z.of_nat (length mine);
                        stat_cost := foldl Qplus 0%Q (map log_cost mine);
                        stat_tokens := foldl Z.add 0 (map log_tokens_used mine) |}
            end)
     ∧ recent_logs stats = drop (length logs - 50) logs)
  ∧ (∃ detail,
       get_usage_statistics Unreadable message w = (HTTPException 500 detail, w)).
Proof.
  split; [|by eexists].
  eexists. split; [reflexivity|]. cbn [total_requests endpoint_breakdown recent_logs].
  split; [done|]. split; [intros endpoint; apply endpoint_stats_exact|].
  destruct logs as [|log logs]; [done|]. unfold slice_from.
  destruct (Z.ltb_spec (-50) 0); [|lia]. f_equal. lia.
Qed.

(** ** Batched embeddings *)

Section Batches.

Context {A : Type}.

Lemma chunks_from_concat (size : nat) :
  (0 < size)%nat →
  ∀ fuel (l : list A), (length l ≤ fuel)%nat →
    concat (chunks_from fuel size l) = l.
Proof.
  intros Hs. induction fuel as [|fuel IH]; intros l Hl.
  - destruct l; [reflexivity | simpl in Hl; lia].
  - destruct l as [|a l]; [reflexivity|].
    cbn [chunks_from concat]. rewrite IH.
    + apply take_drop.
    + rewrite length_drop. simpl in *. lia.
Qed.

Lemma chunks_from_sizes (size : nat) :
  (0 < size)%nat →
  ∀ fuel (l : list A),
    Forall (λ b, (1 ≤ length b ≤ size)%nat) (chunks_from fuel size l).
Proof.
  intros Hs. induction fuel as [|fuel IH]; intros l; [constructor|].
  destruct l as [|a l]; [constructor|].
  cbn [chunks_from]. constructor; [|apply IH].
  rewrite length_take. simpl. lia.
Qed.

Lemma chunks_from_length (size : nat) :
  (0 < size)%nat →
  ∀ fuel (l : list A), (length l ≤ fuel)%nat →
    length (chunks_from fuel size l) = ((length l + (size - 1)) / size)%nat.
Proof.
  intros Hs. induction fuel as [|fuel IH]; intros l Hl.
  - destruct l; [|simpl in Hl; lia]. simpl.
    symmetry. apply Nat.div_small. lia.
  - destruct l as [|a l].
    + simpl. symmetry. apply Nat.div_small. lia.
    + cbn [chunks_from length]. rewrite IH by (rewrite length_drop; simpl in *; lia).
      rewrite length_drop. cbn [length].
      destruct (Nat.le_gt_cases (S (length l)) size) as [Hle|Hgt].
      * replace (S (length l) - size)%nat with 0%nat by lia.
        rewrite (Nat.div_small (0 + (size - 1)) size) by lia.
        apply (Nat.div_unique _ _ _ (length l)); lia.
      * replace (S (length l) + (size - 1))%nat
          with ((S (length l) - size + (size - 1)) + 1 * size)%nat by lia.
        rewrite Nat.div_add by lia. lia.
Qed.

End Batches.

Section EmbedBatches.

Variable ext : Backends.
Variable create : list text → option (list (list Q)).

Lemma charge_texts_app (b1 b2 : list text) (ct : CostTracker) :
  charge_texts ext (b1 ++ b2) ct = charge_texts ext b2 (charge_texts ext b1 ct).
Proof. unfold charge_texts. apply foldl_app. Qed.

Lemma charge_texts_counters (batch : list text) (ct : CostTracker) :
  embedding_requests (charge_texts ext batch ct)
  = embedding_requests ct + Z.of_nat (length batch)
  ∧ completion_tokens (charge_texts ext batch ct) = completion_tokens ct
  ∧ completion_requests (charge_texts ext batch ct) = completion_requests ct.
Proof.
  revert ct. induction batch as [|t batch IH]; intros ct.
  - simpl. repeat split; lia.
  - change (charge_texts ext (t :: batch) ct)
      with (charge_texts ext batch (charged_embedding ext t ct)).
    destruct (IH (charged_embedding ext t ct)) as (-> & -> & ->).
    cbn [charged_embedding embedding_requests completion_tokens
         completion_requests length]. repeat split; lia.
Qed.

(** What the loop has done when it stops: the batches requested are an
    initial run of the batches to do, every requested text has been charged,
    and the loop ends early exactly at a batch the backend refuses. *)
Lemma embed_batches_spec (batches : list (list text)) :
  ∀ (ct : CostTracker) (sent : list (list text)) (acc : list (list Q)),
  ∃ sent',
    (embed_batches ext create batches ct sent acc).2 = sent ++ sent'
    ∧ (embed_batches ext create batches ct sent acc).1.2
      = charge_texts ext (concat sent') ct
    ∧ sent' `prefix_of` map (map strip) batches
    ∧ match (embed_batches ext create batches ct sent acc).1.1 with
      | Some rows =>
          sent' = map (map strip) batches
          ∧ ∃ answers,
              Forall2 (λ b a, create b = Some a) sent' answers
              ∧ rows = acc ++ concat answers
      | None => ∃ pre b, sent' = pre ++ [b] ∧ create b = None
      end.
Proof.
  induction batches as [|batch rest IH]; intros ct sent acc.
  - exists []. cbn. rewrite app_nil_r. repeat split; [done|].
    exists []. split; [constructor | by rewrite app_nil_r].
  - cbn [embed_batches]. destruct (create (map strip batch)) as [be|] eqn:Hc.
    + destruct (IH (charge_texts ext (map strip batch) ct)
                  (sent ++ [map strip batch]) (acc ++ be))
        as (sent' & Hs & Hct & Hp & Hr).
      exists (map strip batch :: sent'). rewrite Hs, Hct.
      split; [by rewrite <- app_assoc|].
      split; [cbn [concat]; by rewrite charge_texts_app|].
      split; [cbn [map]; by apply prefix_cons|].
      destruct (embed_batches _ _ rest _ _ _).1.1 as [rows|].
      * destruct Hr as (-> & answers & Hf & ->). split; [done|].
        exists (be :: answers). split; [by constructor|].
        cbn [concat]. by rewrite <- app_assoc.
      * destruct Hr as (pre & b & -> & Hb).
        exists (map strip batch :: pre), b. done.
    + exists [map strip batch]. cbn [fst snd concat].
      rewrite app_nil_r. repeat split.
      * cbn [map]. apply prefix_cons, prefix_nil.
      * exists [], (map strip batch). done.
Qed.

Lemma vstack_rows (rows stacked : list (list Q)) :
  vstack rows = Some stacked →
  stacked = rows ∧ rows ≠ [] ∧ ∃ d, Forall (λ v, length v = d) rows.
Proof.
  unfold vstack. destruct rows as [|r rows]; [done|].
  destruct (forallb _ _) eqn:Hall; [|done]. intros [= <-].
  repeat split; [done|]. exists (length r).
  rewrite forallb_forall in Hall.
  apply List.Forall_forall. intros v Hv. apply Nat.eqb_eq, Hall, Hv.
Qed.

Lemma vstack_uniform (d : nat) (rows : list (list Q)) :
  rows ≠ [] → Forall (λ v, length v = d) rows → vstack rows = Some rows.
Proof.
  intros Hne Hall. unfold vstack. destruct rows as [|r rows]; [done|].
  replace (forallb _ _) with true; [done|]. symmetry.
  apply forallb_forall. intros v Hv. apply Nat.eqb_eq.
  rewrite List.Forall_forall in Hall.
  rewrite (Hall v Hv). symmetry. apply Hall. by left.
Qed.

Lemma map_strip_chunks (texts : list text) :
  concat (map (map strip) (chunks 100 texts)) = map strip texts.
Proof.
  rewrite <- List.concat_map. unfold chunks.
  by rewrite chunks_from_concat by lia.
Qed.

End EmbedBatches.

(** X15.  What [get_embeddings_batch] requests and charges.  Whatever the
    backend does, the batches requested are an initial run of the stripped
    texts cut into consecutive batches of 100: each holds between 1 and 100
    texts and there are at most ceil(n/100) of them.  The embedding counters
    advance by one request per requested text (not per call to the backend)
    and by that text's tokens, including the texts of a batch the backend
    then refuses; the completion counters are untouched.  A result is
    returned only for a non-empty input, after every text was requested in
    order; it is the backend's answers laid end to end, and all its rows
    have one length. *)
Theorem get_embeddings_batch_accounting (ext : Backends)
    (create : list text → option (list (list Q))) (texts : list text)
    (ct : CostTracker) :
  let r := get_embeddings_batch ext create texts ct in
  let sent := r.2 in
  sent `prefix_of` map (map strip) (chunks 100 texts)
  ∧ Forall (λ b, (1 ≤ length b ≤ 100)%nat) sent
  ∧ (length sent ≤ (length texts + 99) / 100)%nat
  ∧ r.1.2 = charge_texts ext (concat sent) ct
  ∧ embedding_requests r.1.2
    = embedding_requests ct + Z.of_nat (length (concat sent))
  ∧ completion_tokens r.1.2 = completion_tokens ct
  ∧ completion_requests r.1.2 = completion_requests ct
  ∧ ∀ rows, r.1.1 = Some rows →
      texts ≠ []
      ∧ concat sent = map strip texts
      ∧ (∃ answers,
           Forall2 (λ b a, create b = Some a) sent answers
           ∧ rows = concat answers)
      ∧ ∃ d, Forall (λ v, length v = d) rows.
Proof.
  intros r sent. subst sent r. unfold get_embeddings_batch.
  destruct (embed_batches_spec ext create (chunks 100 texts) ct [] [])
    as (sent' & Hs & Hct & Hp & Hr).
  destruct (embed_batches ext create (chunks 100 texts) ct [] [])
    as [[res ct'] sent]. cbn [fst snd] in *. subst sent ct'.
  rewrite app_nil_l.
  assert (Hsizes : Forall (λ b : list text, (1 ≤ length b ≤ 100)%nat)
                     (map (map strip) (chunks 100 texts))).
  { apply Forall_map. eapply Forall_impl; [apply chunks_from_sizes; lia|].
    intros b Hb. cbn. by rewrite length_map. }
  split; [done|]. split.
  { destruct Hp as [rest Hrest]. rewrite Hrest in Hsizes.
    by apply Forall_app in Hsizes as [? _]. }
  split.
  { apply prefix_length in Hp. rewrite length_map in Hp.
    unfold chunks in Hp. rewrite (chunks_from_length 100) in Hp by lia.
    exact Hp. }
  split; [done|].
  destruct (charge_texts_counters ext (concat sent') ct) as (? & ? & ?).
  do 3 (split; [done|]).
  intros rows Hrows. destruct res as [stack|]; [|done].
  destruct Hr as (-> & answers & Hf & ->). cbn in Hrows.
  apply vstack_rows in Hrows as (-> & Hne & Hd).
  split.
  { intros ->. cbn in Hf. apply Forall2_nil_inv_l in Hf as ->. done. }
  split; [apply map_strip_chunks|].
  split; [by exists answers | done].
Qed.

Lemma get_embeddings_batch_per_text (ext : Backends)
    (create : list text → option (list (list Q))) (embed : text → list Q)
    (d : nat) (texts : list text) (ct : CostTracker) :
  texts ≠ [] →
  (∀ batch, create batch = Some (map embed batch)) →
  (∀ t, length (embed t) = d) →
  get_embeddings_batch ext create texts ct
  = (Some (map embed (map strip texts)),
     charge_texts ext (map strip texts) ct,
     map (map strip) (chunks 100 texts)).
Proof.
  intros Hne Hcreate Hdim. unfold get_embeddings_batch.
  destruct (embed_batches_spec ext create (chunks 100 texts) ct [] [])
    as (sent' & Hs & Hct & Hp & Hr).
  destruct (embed_batches ext create (chunks 100 texts) ct [] [])
    as [[res ct'] sent]. cbn [fst snd] in *. subst sent ct'.
  rewrite app_nil_l.
  destruct res as [rows|].
  - destruct Hr as (-> & answers & Hf & ->). rewrite app_nil_l.
    rewrite map_strip_chunks. f_equal. f_equal.
    assert (Hans : concat answers = map embed (map strip texts)).
    { rewrite <- map_strip_chunks, List.concat_map. f_equal.
      revert Hf. generalize (map (map strip) (chunks 100 texts)).
      intros bs Hf. induction Hf as [|b a bs answers Hb _ IH]; [done|].
      rewrite Hcreate in Hb. injection Hb as <-. cbn [map]. by rewrite IH. }
    rewrite Hans. cbn. apply (vstack_uniform d).
    + destruct texts; [done | discriminate].
    + apply List.Forall_forall. intros v Hv.
      apply in_map_iff in Hv as (t & <- & _). apply Hdim.
  - destruct Hr as (pre & b & _ & Hb). by rewrite Hcreate in Hb.
Qed.

(** X16.  Batching is invisible to the caller.  If the backend embeds every
    text of a request on its own, giving vectors of one dimension, then for
    a non-empty list [get_embeddings_batch] returns one row per text: row
    [i] is the embedding of the stripped text [i], whatever the number of
    batches.  Every text is requested exactly once and in order, in
    ceil(n/100) requests, and charged once. *)
Theorem get_embeddings_batch_row_per_text (ext : Backends)
    (create : list text → option (list (list Q))) (embed : text → list Q)
    (d : nat) (texts : list text) (ct : CostTracker) :
  texts ≠ [] →
  (∀ batch, create batch = Some (map embed batch)) →
  (∀ t, length (embed t) = d) →
  let r := get_embeddings_batch ext create texts ct in
  r.1.1 = Some (map embed (map strip texts))
  ∧ concat r.2 = map strip texts
  ∧ length r.2 = ((length texts + 99) / 100)%nat
  ∧ r.1.2 = charge_texts ext (map strip texts) ct
  ∧ embedding_requests r.1.2
    = embedding_requests ct + Z.of_nat (length texts).
Proof.
  intros Hne Hcreate Hdim r. subst r.
  rewrite (get_embeddings_batch_per_text ext create embed d) by done.
  cbn [fst snd]. split; [done|]. split; [apply map_strip_chunks|].
  split.
  { rewrite length_map. unfold chunks. by rewrite (chunks_from_length 100) by lia. }
  split; [done|].
  destruct (charge_texts_counters ext (map strip texts) ct) as (-> & _).
  by rewrite length_map.
Qed.

Lemma get_embeddings_batch_row_per_text_witness :
  (get_embeddings_batch
     {| count_tokens := λ t, Z.of_nat (length t);
        embeddings_create := λ _, None;
        chat_completions_create := λ _, None |}
     (λ batch, Some (map (λ t, [inject_Z (Z.of_nat (length t)); 0%Q]) batch))
     [utf8 " rice "; utf8 "tea"]
     {| embedding_tokens := 0; completion_tokens := 0;
        embedding_requests := 0; completion_requests := 0 |}).1.1
  = Some (map (λ t, [inject_Z (Z.of_nat (length t)); 0%Q])
            (map strip [utf8 " rice "; utf8 "tea"])).
Proof.
  apply (get_embeddings_batch_row_per_text _ _ _ 2%nat); [done | done | done].
Defined.

(** ** Loading a glossary *)

Lemma not_blank_or_nan_spec (t : text) :
  not_blank_or_nan t = true ↔ t ≠ [] ∧ t ≠ utf8 "nan".
Proof.
  unfold not_blank_or_nan. rewrite andb_true_iff, !negb_true_iff.
  rewrite !bool_decide_eq_false. done.
Qed.

(** The rows that survive the cleaning: both cells are stripped, neither is
    empty nor "nan", and the searchable text joins them with " | ". *)
Lemma clean_rows_valid (raw : list (text * text)) :
  Forall (λ row,
            strip (english row) = english row ∧ english row ≠ []
            ∧ english row ≠ utf8 "nan"
            ∧ strip (arabic row) = arabic row ∧ arabic row ≠ []
            ∧ arabic row ≠ utf8 "nan"
            ∧ combined row = english row ++ utf8 " | " ++ arabic row)
    (clean_rows raw).
Proof.
  unfold clean_rows. apply List.Forall_forall. intros row Hrow.
  apply in_map_iff in Hrow as (p & <- & Hp).
  apply filter_In in Hp as (Hp & Hkeep).
  apply in_map_iff in Hp as ([e a] & <- & _).
  apply andb_true_iff in Hkeep as (He & Ha).
  apply not_blank_or_nan_spec in He as (? & ?).
  apply not_blank_or_nan_spec in Ha as (? & ?).
  cbn [english arabic combined fst snd] in *.
  rewrite !strip_strip. done.
Qed.

Lemma get_embeddings_batch_stacked (ext : Backends)
    (create : list text → option (list (list Q))) (texts : list text)
    (ct : CostTracker) (rows : list (list Q)) :
  (get_embeddings_batch ext create texts ct).1.1 = Some rows →
  rows ≠ [] ∧ ∃ d, Forall (λ v, length v = d) rows.
Proof.
  unfold get_embeddings_batch.
  destruct (embed_batches _ _ _ _ _ _) as [[res ?] ?]. cbn [fst snd].
  destruct res as [stack|]; [|done]. cbn. intros Hv.
  by apply vstack_rows in Hv as (-> & ? & ?).
Qed.

(** X17.  Loading a glossary is all or nothing for what is served.  When
    [load_excel_glossary] raises (unreadable sheet, no valid row, a refused
    embedding request, vectors of the wrong dimension) the index, the
    glossary and the initialized flag are exactly what they were, although
    embedding requests may have been charged.  When it returns, the state
    is initialized, the glossary is the cleaned sheet, which is not empty
    and whose every row has stripped, non-empty, non-"nan" cells, and the
    index holds at least one vector, all of the configured dimension.  In
    both cases the charge is that of [get_embeddings_batch], and the usage
    log is untouched. *)
Theorem load_excel_glossary_all_or_nothing (cfg : Config) (ext : Backends)
    (create : list text → option (list (list Q)))
    (frame : option (list (text * text))) (w : World) :
  let r := load_excel_glossary cfg ext create frame w in
  let w' := r.1.2 in
  match r.1.1 with
  | Returned _ =>
      ∃ raw vectors,
        frame = Some raw
        ∧ initialized (state w') = true
        ∧ glossary (state w') = Some (clean_rows raw)
        ∧ clean_rows raw ≠ []
        ∧ Forall (λ row,
                    strip (english row) = english row ∧ english row ≠ []
                    ∧ english row ≠ utf8 "nan"
                    ∧ strip (arabic row) = arabic row ∧ arabic row ≠ []
                    ∧ arabic row ≠ utf8 "nan"
                    ∧ combined row = english row ++ utf8 " | " ++ arabic row)
            (clean_rows raw)
        ∧ index (state w')
          = Some {| index_d := EMBEDDING_DIMENSIONS cfg; index_xb := vectors |}
        ∧ vectors ≠ []
        ∧ Forall (λ v, length v = EMBEDDING_DIMENSIONS cfg) vectors
        ∧ (get_embeddings_batch ext create (map combined (clean_rows raw))
             (cost_tracker (state w))).1.1 = Some vectors
  | _ =>
      index (state w') = index (state w)
      ∧ glossary (state w') = glossary (state w)
      ∧ initialized (state w') = initialized (state w)
  end
  ∧ cost_log w' = cost_log w
  ∧ requests_sent w' = requests_sent w
  ∧ (∀ raw, frame = Some raw → clean_rows raw ≠ [] →
       cost_tracker (state w')
       = (get_embeddings_batch ext create (map combined (clean_rows raw))
            (cost_tracker (state w))).1.2
       ∧ r.2
         = (get_embeddings_batch ext create (map combined (clean_rows raw))
              (cost_tracker (state w))).2).
Proof.
  intros r w'. subst w' r. unfold load_excel_glossary.
  destruct frame as [raw|]; [|by cbn].
  pose proof (clean_rows_valid raw) as Hvalid.
  destruct (clean_rows raw) as [|row rows] eqn:Hrows.
  { cbn. do 3 (split; [done|]). intros ? [= <-] Hne. by rewrite Hrows in Hne. }
  cbv iota. rewrite <- Hrows in *.
  assert (Hne : clean_rows raw ≠ []) by (by rewrite Hrows).
  pose proof (get_embeddings_batch_stacked ext create
                (map combined (clean_rows raw)) (cost_tracker (state w)))
    as Hres.
  destruct (get_embeddings_batch ext create (map combined (clean_rows raw))
              (cost_tracker (state w))) as [[embeddings ct] sent] eqn:Hbatch.
  cbn [fst snd] in Hres.
  destruct embeddings as [vectors|];
    [destruct (forallb _ vectors) eqn:Hdim|];
    cbn [fst snd state index glossary initialized cost_tracker cost_log
         requests_sent with_cost_tracker];
    (split; [|by (do 2 (split; [done|]); intros ? [= <-] _; rewrite Hbatch)]);
    try done.
  exists raw, vectors. rewrite Hbatch.
  do 6 (split; [done|]). split; [|split; [|done]].
  - by destruct (Hres vectors eq_refl).
  - rewrite forallb_forall in Hdim.
    apply List.Forall_forall. intros v Hv. apply Nat.eqb_eq, Hdim, Hv.
Qed.

(** X18.  A loaded glossary is indexed row by row.  If the sheet has at
    least one valid row and the backend embeds every text on its own with
    vectors of the configured dimension, [load_excel_glossary] returns, the
    glossary is the cleaned sheet and the index holds one vector per
    glossary row, in row order: vector [i] is the embedding of the
    searchable text of row [i].  One embedding request is charged for each
    row. *)
Theorem load_excel_glossary_indexes_every_row (cfg : Config) (ext : Backends)
    (create : list text → option (list (list Q))) (embed : text → list Q)
    (raw : list (text * text)) (w : World) :
  clean_rows raw ≠ [] →
  (∀ batch, create batch = Some (map embed batch)) →
  (∀ t, length (embed t) = EMBEDDING_DIMENSIONS cfg) →
  let r := load_excel_glossary cfg ext create (Some raw) w in
  let w' := r.1.2 in
  r.1.1 = Returned ()
  ∧ initialized (state w') = true
  ∧ glossary (state w') = Some (clean_rows raw)
  ∧ index (state w')
    = Some {| index_d := EMBEDDING_DIMENSIONS cfg;
              index_xb := map embed (map strip (map combined (clean_rows raw))) |}
  ∧ (∀ xb, index_xb <$> index (state w') = Some xb →
       length xb = length (clean_rows raw))
  ∧ concat r.2 = map strip (map combined (clean_rows raw))
  ∧ embedding_requests (cost_tracker (state w'))
    = embedding_requests (cost_tracker (state w))
      + Z.of_nat (length (clean_rows raw)).
Proof.
  intros Hne Hcreate Hdim r w'. subst w' r. unfold load_excel_glossary.
  destruct (clean_rows raw) as [|row rows] eqn:Hrows; [done|].
  cbv iota. rewrite <- Hrows in *.
  assert (Htexts : map combined (clean_rows raw) ≠ []) by (by rewrite Hrows).
  rewrite (get_embeddings_batch_per_text ext create embed
             (EMBEDDING_DIMENSIONS cfg)) by done.
  replace (forallb _ _) with true.
  - cbn [fst snd state index glossary initialized cost_tracker].
    do 4 (split; [done|]). split.
    { intros xb [= <-]. by rewrite !length_map. }
    split; [apply map_strip_chunks|].
    destruct (charge_texts_counters ext
                (map strip (map combined (clean_rows raw)))
                (cost_tracker (state w))) as (-> & _).
    by rewrite !length_map.
  - symmetry. apply forallb_forall. intros v Hv.
    apply in_map_iff in Hv as (t & <- & _). apply Nat.eqb_eq, Hdim.
Qed.

Lemma load_excel_glossary_indexes_every_row_witness :
  (load_excel_glossary
     {| OPENAI_API_KEY := "k"; RATE_LIMIT_REQUESTS := 100;
        RATE_LIMIT_WINDOW := 3600; EMBEDDING_DIMENSIONS := 2;
        TOP_K_RETRIEVAL := 5 |}
     {| count_tokens := λ t, Z.of_nat (length t);
        embeddings_create := λ _, None;
        chat_completions_create := λ _, None |}
     (λ batch, Some (map (λ t, [inject_Z (Z.of_nat (length t)); 0%Q]) batch))
     (Some [(utf8 " rice ", utf8 "aruzz"); (utf8 "nan", utf8 "x");
            (utf8 "tea", utf8 " shay")])
     {| state := {| index := None; glossary := None; initialized := false;
                    cost_tracker :=
                      {| embedding_tokens := 0; completion_tokens := 0;
                         embedding_requests := 0; completion_requests := 0 |} |};
        requests_sent := []; cost_log := [] |}).1.1
  = Returned ().
Proof.
  apply (load_excel_glossary_indexes_every_row _ _ _
           (λ t, [inject_Z (Z.of_nat (length t)); 0%Q])); [|done|done].
  vm_compute. discriminate.
Defined.

(** ** From a loaded glossary to a translation *)

Section Serving.

(** On an index that holds one vector per glossary row, a search with a
    query of the index's dimension answers, and every label it returns
    selects a row of the glossary: the retrieval step cannot raise. *)
Lemma search_then_iloc (idx : IndexFlatL2) (x : list Q) (k : nat)
    (rows : list Row) :
  length x = index_d idx → rows ≠ [] →
  length (index_xb idx) = length rows →
  ∃ ds ls retrieved,
    IndexFlatL2_search idx x k = Some (ds, ls)
    ∧ iloc rows ls = Some retrieved.
Proof.
  intros Hdim Hne Hlen. unfold IndexFlatL2_search.
  rewrite Hdim, Nat.eqb_refl. cbn [negb]. fold (scored idx x).
  set (slots := take k (rank (scored idx x)) ++ _).
  assert (Hsome : is_Some (iloc rows slots.*2)).
  { unfold iloc. apply mapM_is_Some. apply Forall_fmap.
    apply Forall_forall. intros [d label] Hin. cbn.
    apply elem_of_app in Hin as [Hin|Hin].
    - apply elem_of_take in Hin as (i & Hin & _).
      apply list_elem_of_lookup_2 in Hin.
      rewrite rank_perm in Hin. unfold scored in Hin.
      apply elem_of_lookup_imap in Hin as (j & u & Heq & Hj).
      injection Heq as _ Hlabel. subst label.
      apply lookup_lt_Some in Hj.
      destruct (Z.leb_spec 0 (Z.of_nat j)); [|lia].
      rewrite Nat2Z.id. apply lookup_lt_is_Some. lia.
    - apply elem_of_replicate in Hin as [Heq _].
      injection Heq as _ Hlabel. subst label.
      assert (0 < length rows)%nat by (destruct rows; [done | simpl; lia]).
      destruct (Z.leb_spec 0 (-1)); [lia|].
      destruct (Z.leb_spec (- Z.of_nat (length rows)) (-1)); [|lia].
      apply lookup_lt_is_Some. lia. }
  destruct Hsome as [retrieved Hr]. by exists slots.*1, slots.*2, retrieved.
Qed.

Lemma translate_text_returns (cfg : Config) (ext : Backends) (query : text)
    (w : World) (v : list Q) (idx : IndexFlatL2) (rows : list Row) :
  initialized (state w) = true →
  sanitized query ≠ [] →
  Z.of_nat (length (sanitized query)) ≤ 10000 →
  embeddings_create ext (sanitized query) = Some v →
  index (state w) = Some idx →
  glossary (state w) = Some rows →
  length v = index_d idx → rows ≠ [] →
  length (index_xb idx) = length rows →
  (∀ prompt, is_Some (chat_completions_create ext prompt)) →
  ∃ r, (translate_text cfg ext query w).1 = Returned r.
Proof.
  intros Hinit Hne Hlen Hemb Hidx Hrows Hdim Hrne Hsize Hchat.
  destruct (search_then_iloc idx v (TOP_K_RETRIEVAL cfg) rows Hdim Hrne Hsize)
    as (ds & ls & retrieved & Hsearch & Hiloc).
  pose proof (translate_text_requests cfg ext query w v idx ds ls rows retrieved
                Hinit Hne Hlen Hemb Hidx Hsearch Hrows Hiloc) as Hsent.
  destruct (translate_text_cases cfg ext query w) as [_ Hcases].
  cbv zeta in Hcases.
  destruct (translate_text cfg ext query w) as [out w'].
  cbn [fst snd] in Hcases, Hsent |- *.
  destruct Hcases as [(Hi & _)|[(_ & Hbad & _)|[H|[H|H]]]].
  - congruence.
  - destruct Hbad; [done | lia].
  - destruct H as (_ & _ & _ & _ & Hsent' & _). rewrite Hsent' in Hsent.
    apply app_inv_head in Hsent. discriminate.
  - destruct H as (_ & _ & _ & prompt & Hnone & _).
    destruct (Hchat prompt) as [? Hsome]. congruence.
  - destruct H as (_ & _ & _ & prompt & content & tokens & _ & -> & _).
    by eexists.
Qed.

End Serving.

(** X19.  A freshly loaded glossary serves translations.  Load a sheet with
    at least one valid row through a backend that embeds every text with a
    vector of the configured dimension; on the state this leaves, any query
    that passes validation, is embedded with a vector of that dimension and
    gets an answer from the generation backend is translated:
    [translate_text] returns a result, whatever the number of glossary
    rows and of retrieval slots.  After a load the retrieval itself never
    raises. *)
Theorem loaded_glossary_serves_translations (cfg : Config) (ext : Backends)
    (create : list text → option (list (list Q))) (embed : text → list Q)
    (raw : list (text * text)) (w : World) (query : text) (v : list Q) :
  clean_rows raw ≠ [] →
  (∀ batch, create batch = Some (map embed batch)) →
  (∀ t, length (embed t) = EMBEDDING_DIMENSIONS cfg) →
  sanitized query ≠ [] →
  Z.of_nat (length (sanitized query)) ≤ 10000 →
  embeddings_create ext (sanitized query) = Some v →
  length v = EMBEDDING_DIMENSIONS cfg →
  (∀ prompt, is_Some (chat_completions_create ext prompt)) →
  let loaded := load_excel_glossary cfg ext create (Some raw) w in
  loaded.1.1 = Returned ()
  ∧ ∃ r, (translate_text cfg ext query loaded.1.2).1 = Returned r.
Proof.
  intros Hne Hcreate Hdim Hq Hlen Hemb Hv Hchat loaded. subst loaded.
  unfold load_excel_glossary.
  destruct (clean_rows raw) as [|row rows] eqn:Hrows; [done|].
  cbv iota. rewrite <- Hrows in *.
  assert (Htexts : map combined (clean_rows raw) ≠ []) by (by rewrite Hrows).
  rewrite (get_embeddings_batch_per_text ext create embed
             (EMBEDDING_DIMENSIONS cfg)) by done.
  replace (forallb _ _) with true.
  - cbn [fst snd]. split; [done|].
    eapply translate_text_returns; try done.
    cbn [index_xb]. by rewrite !length_map.
  - symmetry. apply forallb_forall. intros u Hu.
    apply in_map_iff in Hu as (t & <- & _). apply Nat.eqb_eq, Hdim.
Qed.

Lemma loaded_glossary_serves_translations_witness :
  ∃ r,
    (translate_text toy_config toy_backends (utf8 "chicken")
       (load_excel_glossary toy_config toy_backends
          (λ batch, Some (map toy_embedding batch))
          (Some [(utf8 " rice ", utf8 "aruzz"); (utf8 "nan", utf8 "x")])
          {| state := {| index := None; glossary := None; initialized := false;
                         cost_tracker := no_costs |};
             requests_sent := []; cost_log := [] |}).1.2).1
    = Returned r.
Proof.
  apply (loaded_glossary_serves_translations toy_config toy_backends
           (λ batch, Some (map toy_embedding batch)) toy_embedding
           [(utf8 " rice ", utf8 "aruzz"); (utf8 "nan", utf8 "x")] _
           (utf8 "chicken") (toy_embedding (utf8 "chicken"))).
  - vm_compute. discriminate.
  - reflexivity.
  - reflexivity.
  - vm_compute. discriminate.
  - vm_compute. discriminate.
  - reflexivity.
  - reflexivity.
  - intros prompt. eexists. reflexivity.
Defined.

(** ** What the language tag depends on *)

Section Counting.

Variable p : N → bool.

Lemma count_chars_app (a b : text) :
  count_chars p (a ++ b) = count_chars p a + count_chars p b.
Proof. unfold count_chars. rewrite List.filter_app, length_app. lia. Qed.

Lemma count_chars_cons (c : N) (t : text) :
  count_chars p (c :: t) = (if p c then 1 else 0) + count_chars p t.
Proof. unfold count_chars. simpl. destruct (p c); simpl; lia. Qed.

Lemma count_chars_perm (t t' : text) :
  t ≡ₚ t' → count_chars p t = count_chars p t'.
Proof.
  induction 1 as [|c t t' _ IH|c c' t|t t' t'' _ IH1 _ IH2].
  - done.
  - rewrite !count_chars_cons. lia.
  - rewrite !count_chars_cons. lia.
  - lia.
Qed.

Lemma count_chars_rev (t : text) : count_chars p (rev t) = count_chars p t.
Proof. apply count_chars_perm. symmetry. apply Permutation_rev. Qed.

Lemma count_chars_filter (q : N → bool) (t : text) :
  (∀ c, p c = true → q c = true) →
  count_chars p (List.filter q t) = count_chars p t.
Proof.
  intros Hpq. induction t as [|c t IH]; [done|]. cbn [List.filter].
  destruct (q c) eqn:Hq; rewrite !count_chars_cons, ?IH; [done|].
  destruct (p c) eqn:Hp; [|done]. apply Hpq in Hp. congruence.
Qed.

Lemma count_chars_lstrip (t : text) :
  (∀ c, p c = true → isspace c = false) →
  count_chars p (lstrip t) = count_chars p t.
Proof.
  intros Hp. induction t as [|c t IH]; [done|]. cbn [lstrip].
  destruct (isspace c) eqn:Hs; [|done].
  rewrite IH, count_chars_cons.
  destruct (p c) eqn:Hc; [|done]. apply Hp in Hc. congruence.
Qed.

Lemma count_chars_strip (t : text) :
  (∀ c, p c = true → isspace c = false) →
  count_chars p (strip t) = count_chars p t.
Proof.
  intros Hp. unfold strip.
  by rewrite count_chars_rev, count_chars_lstrip, count_chars_rev,
    count_chars_lstrip.
Qed.

End Counting.

Lemma counted_not_space (c : N) : counted c = true → isspace c = false.
Proof.
  unfold counted. rewrite orb_true_iff, is_arabic_range, is_ascii_alpha_range.
  intros Hc. destruct (isspace c) eqn:Hs; [|done]. exfalso.
  unfold isspace in Hs.
  rewrite !orb_true_iff, !andb_true_iff, !N.leb_le, !N.eqb_eq in Hs. lia.
Qed.

Lemma counted_not_nul (c : N) : counted c = true → negb (c =? 0)%N = true.
Proof.
  unfold counted. rewrite orb_true_iff, is_arabic_range, is_ascii_alpha_range.
  intros Hc. destruct (N.eqb_spec c 0); [lia | done].
Qed.

Lemma detect_language_counts (t t' : text) :
  count_chars is_arabic t = count_chars is_arabic t' →
  count_chars is_ascii_alpha t = count_chars is_ascii_alpha t' →
  detect_language t = detect_language t'.
Proof. unfold detect_language. by intros -> ->. Qed.

(** X20.  What the language tag depends on.  [detect_language] looks only
    at how many Arabic-block characters and how many ASCII letters a text
    has: reordering the text, or dropping every other character (digits,
    white space, punctuation, other scripts), leaves the tag unchanged.  In
    particular the sanitization [translate_text] applies first does not
    change it: the language reported for a query is that of the query as
    sent. *)
Theorem detect_language_ignores_uncounted (t : text) :
  detect_language (List.filter counted t) = detect_language t
  ∧ detect_language (sanitized t) = detect_language t
  ∧ detect_language (strip t) = detect_language t
  ∧ ∀ t', List.filter counted t ≡ₚ List.filter counted t' →
      detect_language t = detect_language t'.
Proof.
  assert (Ha : ∀ c, is_arabic c = true → counted c = true).
  { intros c Hc. unfold counted. by rewrite Hc. }
  assert (He : ∀ c, is_ascii_alpha c = true → counted c = true).
  { intros c Hc. unfold counted. rewrite Hc. apply orb_true_r. }
  split; [|split; [|split]].
  - apply detect_language_counts; by apply count_chars_filter.
  - unfold sanitized. apply detect_language_counts.
    + rewrite count_chars_strip by (intros c Hc; by apply counted_not_space, Ha).
      apply count_chars_filter. intros c Hc. by apply counted_not_nul, Ha.
    + rewrite count_chars_strip by (intros c Hc; by apply counted_not_space, He).
      apply count_chars_filter. intros c Hc. by apply counted_not_nul, He.
  - apply detect_language_counts; apply count_chars_strip; intros c Hc;
      apply counted_not_space; first [by apply Ha | by apply He].
  - intros t' Hperm. apply detect_language_counts.
    + rewrite <- (count_chars_filter is_arabic counted t Ha),
        <- (count_chars_filter is_arabic counted t' Ha).
      by apply count_chars_perm.
    + rewrite <- (count_chars_filter is_ascii_alpha counted t He),
        <- (count_chars_filter is_ascii_alpha counted t' He).
      by apply count_chars_perm.
Qed.

(** ** Requests, responses and the monitor *)

Section Requests.

Lemma record_response_time_samples (utcnow now utcnow' : Q) (endpoint : string)
    (seconds : Q) (hm : HealthMonitor.t) :
  let hm' := HealthMonitor.record_response_time utcnow now utcnow' endpoint
               seconds hm in
  HealthMonitor.recent_response_times hm'
  = HealthMonitor.deque_append 100 (HealthMonitor.recent_response_times hm)
      {| HealthMonitor.time_timestamp := utcnow;
         HealthMonitor.time_endpoint := endpoint;
         HealthMonitor.response_time := seconds |}
  ∧ HealthMonitor.recent_errors hm' = HealthMonitor.recent_errors hm.
Proof.
  cbv zeta. unfold HealthMonitor.record_response_time.
  destruct (Qltb _ seconds); [|done].
  unfold HealthMonitor._trigger_alert. cbn [HealthMonitor.alert_cooldown
    HealthMonitor.alert_cooldown_duration].
  by destruct (Qltb _ _).
Qed.

(** The ways [translate_text] ends: a result, status 400, status 503, or an
    exception of another kind. *)
Lemma translate_text_status (cfg : Config) (ext : Backends) (query : text)
    (w : World) :
  let out := (translate_text cfg ext query w).1 in
  (∃ r, out = Returned r)
  ∨ (∃ d, out = HTTPException 400 d)
  ∨ (∃ d, out = HTTPException 503 d)
  ∨ out = Exception.
Proof.
  destruct (translate_text_cases cfg ext query w) as [_ Hcases].
  cbv zeta in Hcases |- *.
  destruct Hcases as [(_ & _ & d & ->)|[(_ & _ & _ & d & ->)|[H|[H|H]]]].
  - right; right; left. by exists d.
  - right; left. by exists d.
  - destruct H as (_ & _ & _ & -> & _). by do 3 right.
  - destruct H as (_ & _ & _ & prompt & _ & -> & _). by do 3 right.
  - destruct H as (_ & _ & _ & prompt & content & tokens & _ & -> & _).
    left. by eexists.
Qed.

(** What a pass through the middleware leaves in the monitor when the
    inner application answers. *)
Lemma middleware_samples (clk : Clock) (path scheme : string)
    (response : Response) (hm : HealthMonitor.t) :
  let r := logging_and_security_middleware clk path scheme (Responds response)
             hm in
  (∃ response', r.1 = Returned response'
                ∧ status_code response' = status_code response)
  ∧ HealthMonitor.recent_response_times r.2
    = HealthMonitor.deque_append 100 (HealthMonitor.recent_response_times hm)
        {| HealthMonitor.time_timestamp := sample_utcnow clk;
           HealthMonitor.time_endpoint := path;
           HealthMonitor.response_time := (end_time clk - start_time clk)%Q |}
  ∧ HealthMonitor.recent_errors r.2
    = if 400 <=? status_code response then
        HealthMonitor.deque_append 100 (HealthMonitor.recent_errors hm)
          {| HealthMonitor.error_timestamp := error_utcnow clk;
             HealthMonitor.error_type :=
               if status_code response <? 500 then "client_error"
               else "server_error";
             HealthMonitor.error_endpoint := path;
             HealthMonitor.error_details := http_label (status_code response) |}
      else HealthMonitor.recent_errors hm.
Proof.
  cbv zeta. unfold logging_and_security_middleware. cbn [fst snd].
  destruct (record_response_time_samples (sample_utcnow clk) (alert_now clk)
              (alert_utcnow clk) path (end_time clk - start_time clk)%Q hm)
    as [Ht He].
  split; [by eexists|].
  destruct (400 <=? status_code response);
    cbn [HealthMonitor.record_error HealthMonitor.recent_errors
         HealthMonitor.recent_response_times]; by rewrite ?Ht, ?He.
Qed.

End Requests.

(** X21.  One request, one response-time sample, two error samples on
    failure.  A request to [/api/translate] that reaches the endpoint is
    always answered with a response, never with an exception: status 200
    when [translate_text] returns, 400 or 503 when it refuses, 500 for any
    other failure.  The world is left as [translate_text] left it.  The
    monitor gains exactly one response-time sample, and on every failure
    exactly two error samples for the one request: first the endpoint's
    ("http_error" or "translation_error"), then the middleware's
    ("client_error" below 500, "server_error" from 500 on); on success the
    error buffer is untouched. *)
Theorem translate_request_monitoring (cfg : Config) (ext : Backends)
    (clk : Clock) (endpoint_utcnow : Q) (str_e : text) (scheme : string)
    (inner : gmap string HeaderValue) (request_text : text)
    (hm : HealthMonitor.t) (w : World) :
  let r := translate_request cfg ext clk endpoint_utcnow str_e scheme inner
             request_text hm w in
  let out := (translate_text cfg ext request_text w).1 in
  let hm' := r.2 in
  ∃ response,
    r.1.1 = Returned response
    ∧ r.1.2 = (translate_text cfg ext request_text w).2
    ∧ HealthMonitor.recent_response_times hm'
      = HealthMonitor.deque_append 100 (HealthMonitor.recent_response_times hm)
          {| HealthMonitor.time_timestamp := sample_utcnow clk;
             HealthMonitor.time_endpoint := "/api/translate";
             HealthMonitor.response_time := (end_time clk - start_time clk)%Q |}
    ∧ ((∃ result, out = Returned result
          ∧ status_code response = 200
          ∧ HealthMonitor.recent_errors hm' = HealthMonitor.recent_errors hm)
       ∨ (∃ first second,
            (∀ result, out ≠ Returned result)
            ∧ (status_code response = 400 ∨ status_code response = 500
               ∨ status_code response = 503)
            ∧ (status_code response = 500 ↔ out = Exception)
            ∧ HealthMonitor.recent_errors hm'
              = HealthMonitor.deque_append 100
                  (HealthMonitor.deque_append 100
                     (HealthMonitor.recent_errors hm) first) second
            ∧ HealthMonitor.error_endpoint first = "/api/translate"
            ∧ HealthMonitor.error_timestamp first = endpoint_utcnow
            ∧ HealthMonitor.error_type first
              = match out with
                | Exception => "translation_error"
                | _ => "http_error"
                end
            ∧ HealthMonitor.error_endpoint second = "/api/translate"
            ∧ HealthMonitor.error_timestamp second = error_utcnow clk
            ∧ HealthMonitor.error_type second
              = (if status_code response <? 500 then "client_error"
                 else "server_error")
            ∧ HealthMonitor.error_details second
              = http_label (status_code response))).
Proof.
  intros r out hm'. subst r out hm'.
  unfold translate_request, translate.
  destruct (translate_text_status cfg ext request_text w)
    as [[res Hout]|[[d Hout]|[[d Hout]|Hout]]];
    cbv zeta in Hout;
    destruct (translate_text cfg ext request_text w) as [out w'];
    cbn [fst snd] in Hout; subst out; cbn [answered];
    match goal with
    | |- context [logging_and_security_middleware ?c ?p ?s (Responds ?resp) ?h] =>
        destruct (middleware_samples c p s resp h)
          as ((response & Hresp & Hcode) & Ht & He);
        destruct (logging_and_security_middleware c p s (Responds resp) h)
          as [answer hm2]
    end;
    cbn [fst snd status_code] in *; subst answer;
    exists response; (split; [reflexivity|]); (split; [reflexivity|]);
    (split; [exact Ht|]); rewrite Hcode.
  - left. exists res. done.
  - right. eexists _, _. split; [done|]. split; [by left|]. split; [done|].
    split; [exact He|]. done.
  - right. eexists _, _. split; [done|]. split; [by right; right|].
    split; [done|]. split; [exact He|]. done.
  - right. eexists _, _. split; [done|]. split; [by right; left|].
    split; [done|]. split; [exact He|]. done.
Qed.

Lemma get_error_rate_two_more (utcnow : Q) (hm hm' : HealthMonitor.t)
    (first second : HealthMonitor.ErrorEntry) (sample : HealthMonitor.TimeEntry) :
  HealthMonitor.recent_errors hm'
  = HealthMonitor.deque_append 100
      (HealthMonitor.deque_append 100 (HealthMonitor.recent_errors hm) first)
      second →
  HealthMonitor.recent_response_times hm'
  = HealthMonitor.deque_append 100 (HealthMonitor.recent_response_times hm)
      sample →
  (length (HealthMonitor.recent_errors hm) + 2 ≤ 100)%nat →
  (length (HealthMonitor.recent_response_times hm) < 100)%nat →
  (utcnow - HealthMonitor.minutes 5 < HealthMonitor.error_timestamp first)%Q →
  (utcnow - HealthMonitor.minutes 5 < HealthMonitor.error_timestamp second)%Q →
  HealthMonitor.get_error_rate utcnow 5 hm'
  = (inject_Z (Z.of_nat
       (length (List.filter
                  (λ e, Qltb (utcnow - HealthMonitor.minutes 5)
                          (HealthMonitor.error_timestamp e))
                  (HealthMonitor.recent_errors hm)) + 2))
     / inject_Z (Z.of_nat (length (HealthMonitor.recent_response_times hm) + 1)))%Q.
Proof.
  intros He Ht Hroom_e Hroom_t H1 H2.
  unfold HealthMonitor.get_error_rate. rewrite He, Ht.
  unfold HealthMonitor.deque_append.
  destruct (Nat.ltb_spec (length (HealthMonitor.recent_errors hm)) 100); [|lia].
  rewrite length_app. cbn [length].
  destruct (Nat.ltb_spec (length (HealthMonitor.recent_errors hm) + 1) 100); [|lia].
  destruct (Nat.ltb_spec (length (HealthMonitor.recent_response_times hm)) 100);
    [|lia].
  rewrite <- app_assoc. cbn [app].
  destruct (HealthMonitor.recent_errors hm ++ [first; second]) as [|e es] eqn:Hes.
  { by destruct (HealthMonitor.recent_errors hm). }
  rewrite <- Hes. rewrite List.filter_app, !length_app. cbn [List.filter length].
  apply Qltb_lt in H1, H2. rewrite H1, H2. cbn [length].
  destruct (Nat.eqb_spec (length (HealthMonitor.recent_response_times hm) + 1) 0);
    [lia | done].
Qed.

(** X22.  A failed request weighs twice in the error rate.  The error rate
    divides the error samples of the last five minutes by the number of
    response-time samples.  After one failed request to [/api/translate]
    (whatever the query, the failure and the backends), with room left in
    both buffers, the numerator has grown by two and the denominator by
    one; on a monitor with no samples yet the rate is 2, that is 200%. *)
Theorem failed_request_counts_twice (cfg : Config) (ext : Backends)
    (clk : Clock) (endpoint_utcnow : Q) (str_e : text) (scheme : string)
    (inner : gmap string HeaderValue) (request_text : text)
    (hm : HealthMonitor.t) (w : World) (utcnow : Q) :
  (∀ result, (translate_text cfg ext request_text w).1 ≠ Returned result) →
  (length (HealthMonitor.recent_errors hm) + 2 ≤ 100)%nat →
  (length (HealthMonitor.recent_response_times hm) < 100)%nat →
  (utcnow - HealthMonitor.minutes 5 < endpoint_utcnow)%Q →
  (utcnow - HealthMonitor.minutes 5 < error_utcnow clk)%Q →
  let hm' := (translate_request cfg ext clk endpoint_utcnow str_e scheme inner
                request_text hm w).2 in
  HealthMonitor.get_error_rate utcnow 5 hm'
  = (inject_Z (Z.of_nat
       (length (List.filter
                  (λ e, Qltb (utcnow - HealthMonitor.minutes 5)
                          (HealthMonitor.error_timestamp e))
                  (HealthMonitor.recent_errors hm)) + 2))
     / inject_Z (Z.of_nat (length (HealthMonitor.recent_response_times hm) + 1)))%Q
  ∧ (HealthMonitor.recent_errors hm = [] →
     HealthMonitor.recent_response_times hm = [] →
     HealthMonitor.get_error_rate utcnow 5 hm' = (2 / 1)%Q).
Proof.
  intros Hfail Hroom_e Hroom_t H1 H2 hm'.
  assert (Hrate : HealthMonitor.get_error_rate utcnow 5 hm'
    = (inject_Z (Z.of_nat
         (length (List.filter
                    (λ e, Qltb (utcnow - HealthMonitor.minutes 5)
                            (HealthMonitor.error_timestamp e))
                    (HealthMonitor.recent_errors hm)) + 2))
       / inject_Z (Z.of_nat (length (HealthMonitor.recent_response_times hm) + 1)))%Q).
  { subst hm'. unfold translate_request, translate.
    destruct (translate_text_status cfg ext request_text w)
      as [[res Hout]|[[d Hout]|[[d Hout]|Hout]]];
      cbv zeta in Hout; [by apply Hfail in Hout| | |];
      destruct (translate_text cfg ext request_text w) as [out w'];
      cbn [fst snd] in Hout; subst out; cbn [answered];
      match goal with
      | |- context [logging_and_security_middleware ?c ?p ?s (Responds ?resp) ?h] =>
          destruct (middleware_samples c p s resp h) as (_ & Ht & He);
          destruct (logging_and_security_middleware c p s (Responds resp) h)
            as [answer hm2]
      end;
      cbn [fst snd status_code] in *;
      by eapply get_error_rate_two_more; [exact He | exact Ht | ..]. }
  split; [exact Hrate|]. intros Hno_e Hno_t. rewrite Hrate, Hno_e, Hno_t. done.
Qed.

Lemma failed_request_counts_twice_witness :
  HealthMonitor.get_error_rate 1010 5
    (translate_request toy_config toy_backends
       {| start_time := 1000; end_time := 1001; sample_utcnow := 1001;
          alert_now := 1001; alert_utcnow := 1001; error_utcnow := 1001 |}
       1001 [] "http" ∅ (utf8 "   ") HealthMonitor.init
       (loaded_world scenario_rows)).2
  = (2 / 1)%Q.
Proof.
  apply (failed_request_counts_twice toy_config toy_backends
           {| start_time := 1000; end_time := 1001; sample_utcnow := 1001;
              alert_now := 1001; alert_utcnow := 1001; error_utcnow := 1001 |}
           1001 [] "http" ∅ (utf8 "   ") HealthMonitor.init
           (loaded_world scenario_rows) 1010).
  - intros result. vm_compute. discriminate.
  - simpl. lia.
  - simpl. lia.
  - reflexivity.
  - reflexivity.
  - reflexivity.
  - reflexivity.
Defined.

(** ** The OCR endpoint *)

Section Ocr.

Variable cfg : Config.
Variable ext : Backends.
Variable tools : ImageTools.

Lemma validate_and_process_image_world image max_size_mb str_e w :
  (validate_and_process_image tools image max_size_mb str_e w).2 = w
  ∧ (validate_and_process_image tools image max_size_mb str_e w).1 ≠ Exception.
Proof.
  unfold validate_and_process_image.
  destruct (_ <? _); [done|]. by destruct (pillow tools image).
Qed.

(** The text extraction leaves the corpus and the usage log alone; it
    may charge the completion counters. *)
Lemma extraction_world image str_e w (gpt : bool) :
  let run := if gpt then extract_text_with_gpt_vision tools image w
             else extract_text_with_tesseract tools image str_e w in
  cost_log run.2 = cost_log w ∧ same_corpus w run.2.
Proof.
  cbv zeta. destruct gpt.
  - unfold extract_text_with_gpt_vision.
    destruct (gpt_vision tools image) as [[content total_tokens]|]; done.
  - unfold extract_text_with_tesseract.
    by destruct (pytesseract tools image).
Qed.

Lemma log_api_usage_run endpoint cost tokens_used request_type w :
  log_api_usage endpoint cost tokens_used request_type w
  = (Returned (),
     {| state := state w; requests_sent := requests_sent w;
        cost_log :=
          keep_last 1000
            (cost_log w
             ++ [{| log_endpoint := endpoint; log_request_type := request_type;
                    log_tokens_used := tokens_used; log_cost := cost;
                    log_session_total_cost :=
                      session_total (cost_tracker (state w)) |}]) |}).
Proof. reflexivity. Qed.

(** The translation step of the endpoint, when it returns: the usage log
    gains the entry of [translate_text] and then an entry for the OCR
    request with the same tokens, cost and session total. *)
Lemma ocr_translation_step extracted_text w1 response w2 :
  (translation_result ← translate_text cfg ext extracted_text;
   log_api_usage "/api/ocr" (cost_estimate translation_result)
     (tokens_used translation_result) "ocr";;
   mret {| ocr_extracted_text := extracted_text;
           ocr_translated_text := translated_text translation_result;
           ocr_detected_language := detected_language translation_result;
           ocr_tokens_used := tokens_used translation_result;
           ocr_cost_estimate := cost_estimate translation_result |}) w1
  = (Returned response, w2) →
  ocr_extracted_text response = extracted_text
  ∧ same_corpus w1 w2
  ∧ ∃ translate_entry,
      log_endpoint translate_entry = "/api/translate"
      ∧ log_request_type translate_entry = "translation"
      ∧ log_tokens_used translate_entry = ocr_tokens_used response
      ∧ log_cost translate_entry = ocr_cost_estimate response
      ∧ cost_log w2
        = keep_last 1000
            (keep_last 1000 (cost_log w1 ++ [translate_entry])
             ++ [{| log_endpoint := "/api/ocr"; log_request_type := "ocr";
                    log_tokens_used := ocr_tokens_used response;
                    log_cost := ocr_cost_estimate response;
                    log_session_total_cost :=
                      log_session_total_cost translate_entry |}]).
Proof.
  destruct (translate_text_cases cfg ext extracted_text w1) as [Hsame Hcases].
  cbv zeta in Hcases, Hsame.
  unfold mbind at 1. unfold M_bind at 1.
  destruct (translate_text cfg ext extracted_text w1) as [out w'] eqn:Hrun.
  cbn [fst snd] in Hcases, Hsame.
  destruct Hcases as [(_ & _ & d & ->)|[(_ & _ & _ & d & ->)|[H|[H|H]]]];
    try done.
  - by destruct H as (_ & _ & _ & -> & _).
  - by destruct H as (_ & _ & _ & prompt & _ & -> & _).
  - destruct H as (_ & _ & _ & prompt & content & tokens & _ & -> & _ & Hct & Hlog).
    unfold mbind, M_bind. rewrite log_api_usage_run.
    cbn [tokens_used cost_estimate translated_text detected_language mret M_ret].
    intros [= <- <-]. cbn [ocr_extracted_text ocr_tokens_used ocr_cost_estimate
                           cost_log].
    split; [done|]. split; [exact Hsame|].
    exists {| log_endpoint := "/api/translate";
              log_request_type := "translation";
              log_tokens_used := tokens;
              log_cost := request_cost ext (sanitized extracted_text) tokens;
              log_session_total_cost := session_total (cost_tracker (state w')) |}.
    do 4 (split; [reflexivity|]). rewrite Hlog, Hct. reflexivity.
Qed.

End Ocr.

(** X23.  An upload refused by validation.  With the glossary not loaded
    the endpoint answers 503, and with it loaded a missing, empty or
    unlisted content type, or a missing, empty or over-long file name,
    gets 400; in each case before the file is read: the world is untouched
    (nothing charged, nothing logged).  The monitor gets two error samples
    for the one refusal, the endpoint's own ("service_unavailable" or
    "validation_error") and then "http_error" from its handler, and no
    response-time sample. *)
Theorem ocr_refused_before_reading (cfg : Config) (ext : Backends)
    (tools : ImageTools) (utcnow utcnow' : Q) (str_e : text)
    (file : UploadFile) (ocr_method : string) (hm : HealthMonitor.t)
    (w : World) :
  initialized (state w) = false ∨ bad_type file = true ∨ bad_name file = true →
  let r := ocr_and_translate cfg ext tools utcnow utcnow' str_e file
             ocr_method hm w in
  ∃ code detail first,
    r.1.1 = HTTPException code detail
    ∧ code = (if initialized (state w) then 400 else 503)
    ∧ r.1.2 = w
    ∧ HealthMonitor.recent_errors r.2
      = HealthMonitor.deque_append 100
          (HealthMonitor.deque_append 100 (HealthMonitor.recent_errors hm) first)
          {| HealthMonitor.error_timestamp := utcnow';
             HealthMonitor.error_type := "http_error";
             HealthMonitor.error_endpoint := "/api/ocr";
             HealthMonitor.error_details :=
               http_label code ++ utf8 ": " ++ detail |}
    ∧ HealthMonitor.error_timestamp first = utcnow
    ∧ HealthMonitor.error_endpoint first = "/api/ocr"
    ∧ HealthMonitor.error_type first
      = (if initialized (state w) then "validation_error"
         else "service_unavailable")
    ∧ HealthMonitor.recent_response_times r.2
      = HealthMonitor.recent_response_times hm.
Proof.
  intros Hbad r. subst r. unfold ocr_and_translate, ocr_try.
  destruct (initialized (state w)); cbn [negb].
  - destruct (bad_type file) eqn:Htype.
    + eexists _, _, _. cbn [fst snd]. do 3 (split; [reflexivity|]).
      split; [reflexivity|]. done.
    + destruct (bad_name file) eqn:Hname.
      * eexists _, _, _. cbn [fst snd]. do 3 (split; [reflexivity|]).
        split; [reflexivity|]. done.
      * by destruct Hbad as [?|[?|?]].
  - eexists _, _, _. cbn [fst snd]. do 3 (split; [reflexivity|]).
    split; [reflexivity|]. done.
Qed.

Lemma ocr_refused_before_reading_witness :
  ∃ code detail first,
    (ocr_and_translate toy_config toy_backends
       {| pillow := λ image, Some image;
          gpt_vision := λ _, Some (utf8 "salt", 7);
          pytesseract := λ _, ImportError |}
       1000 1001 [] 
       {| filename := Some (utf8 "label.gif");
          content_type := Some (utf8 "image/gif"); file_data := [71; 73; 70]%N |}
       "gpt-vision" HealthMonitor.init (loaded_world scenario_rows)).1.1
    = HTTPException code detail
    ∧ code = 400
    ∧ HealthMonitor.error_type first = "validation_error".
Proof.
  destruct (ocr_refused_before_reading toy_config toy_backends
              {| pillow := λ image, Some image;
                 gpt_vision := λ _, Some (utf8 "salt", 7);
                 pytesseract := λ _, ImportError |}
              1000 1001 []
              {| filename := Some (utf8 "label.gif");
                 content_type := Some (utf8 "image/gif");
                 file_data := [71; 73; 70]%N |}
              "gpt-vision" HealthMonitor.init (loaded_world scenario_rows))
    as (code & detail & first & Hout & Hcode & _ & _ & _ & _ & Htype & _).
  - right; left. vm_compute. reflexivity.
  - exists code, detail, first. done.
Defined.

(** X24.  A successful OCR request is logged twice.  Whenever
    [ocr_and_translate] returns a response the monitor is untouched, and
    either no text was found, the response carries no tokens and no cost
    and the usage log is unchanged, or the usage log (cut to its last 1000
    each time) has gained two entries for the one request: the
    "/api/translate" entry written by [translate_text] and an "/api/ocr"
    entry with the same tokens, the same cost and the same session total,
    both equal to what the response reports; the usage totals therefore
    count the translation of an image twice.  Tokens spent by the vision
    model appear in neither entry. *)
Theorem ocr_success_logged_twice (cfg : Config) (ext : Backends)
    (tools : ImageTools) (utcnow utcnow' : Q) (str_e : text)
    (file : UploadFile) (ocr_method : string) (hm : HealthMonitor.t)
    (w : World) (response : OCRResponse) :
  let r := ocr_and_translate cfg ext tools utcnow utcnow' str_e file
             ocr_method hm w in
  r.1.1 = Returned response →
  r.2 = hm
  ∧ same_corpus w r.1.2
  ∧ ((ocr_extracted_text response = []
      ∧ ocr_tokens_used response = 0
      ∧ cost_log r.1.2 = cost_log w)
     ∨ (ocr_extracted_text response ≠ []
        ∧ ∃ translate_entry,
            log_endpoint translate_entry = "/api/translate"
            ∧ log_request_type translate_entry = "translation"
            ∧ log_tokens_used translate_entry = ocr_tokens_used response
            ∧ log_cost translate_entry = ocr_cost_estimate response
            ∧ cost_log r.1.2
              = keep_last 1000
                  (keep_last 1000 (cost_log w ++ [translate_entry])
                   ++ [{| log_endpoint := "/api/ocr";
                          log_request_type := "ocr";
                          log_tokens_used := ocr_tokens_used response;
                          log_cost := ocr_cost_estimate response;
                          log_session_total_cost :=
                            log_session_total_cost translate_entry |}]))).
Proof.
  intros r Hret. subst r. unfold ocr_and_translate in *.
  destruct (ocr_try cfg ext tools utcnow str_e file ocr_method hm w)
    as [[out w'] hm'] eqn:Htry.
  destruct out as [answer| |]; cbn [fst snd] in *; try discriminate.
  injection Hret as ->.
  unfold ocr_try in Htry.
  destruct (initialized (state w)); cbn [negb] in Htry; [|discriminate].
  destruct (bad_type file); [discriminate|].
  destruct (bad_name file); [discriminate|].
  destruct (validate_and_process_image_world tools (file_data file) 10 str_e w)
    as [Hw0 _].
  destruct (validate_and_process_image tools (file_data file) 10 str_e w)
    as [[processed| |] w0]; try discriminate.
  cbn [snd] in Hw0. subst w0.
  assert (Hextract : ∃ gpt : bool,
    match (if gpt then extract_text_with_gpt_vision tools processed w
           else extract_text_with_tesseract tools processed str_e w) with
    | (Returned extracted_text, w1) =>
        if (length (strip extracted_text) =? 0)%nat then
          (Returned {| ocr_extracted_text := [];
                       ocr_translated_text := utf8 "No text detected in image";
                       ocr_detected_language := "none";
                       ocr_tokens_used := 0;
                       ocr_cost_estimate := 0 |}, w1, hm)
        else
          let '(out, w2) :=
            (translation_result ← translate_text cfg ext extracted_text;
             log_api_usage "/api/ocr" (cost_estimate translation_result)
               (tokens_used translation_result) "ocr";;
             mret {| ocr_extracted_text := extracted_text;
                     ocr_translated_text := translated_text translation_result;
                     ocr_detected_language := detected_language translation_result;
                     ocr_tokens_used := tokens_used translation_result;
                     ocr_cost_estimate := cost_estimate translation_result |})
              w1 in
          (out, w2, hm)
    | (HTTPException code detail, w1) => (HTTPException code detail, w1, hm)
    | (Exception, w1) => (Exception, w1, hm)
    end = (Returned response, w', hm')).
  { destruct (String.eqb ocr_method "gpt-vision"); [by exists true|].
    destruct (String.eqb ocr_method "tesseract"); [by exists false|].
    discriminate. }
  clear Htry. destruct Hextract as [gpt Htry].
  destruct (extraction_world tools processed str_e w gpt) as [Hlog Hcorpus].
  cbv zeta in Hlog, Hcorpus.
  destruct (if gpt then _ else _) as [[extracted_text| |] w1];
    try discriminate.
  cbn [snd] in Hlog, Hcorpus.
  destruct (Nat.eqb_spec (length (strip extracted_text)) 0) as [Hnone|Hsome].
  - injection Htry as <- <- <-. split; [done|]. split; [done|]. by left.
  - match type of Htry with
    | context [let '(_, _) := ?run in _] =>
        destruct run as [out w2] eqn:Hstep
    end.
    injection Htry as -> <- <-. split; [done|].
    apply (ocr_translation_step cfg ext) in Hstep
      as (Hx & Hsame & entry & H1 & H2 & H3 & H4 & H5).
    split.
    { destruct Hcorpus as (? & ? & ?), Hsame as (? & ? & ?).
      repeat split; congruence. }
    right. split.
    { rewrite Hx. intros ->. by apply Hsome. }
    exists entry. rewrite H5, Hlog. done.
Qed.

Lemma ocr_success_logged_twice_witness :
  (ocr_and_translate toy_config toy_backends
     {| pillow := λ image, Some image;
        gpt_vision := λ _, Some (utf8 " chicken ", 7);
        pytesseract := λ _, ImportError |}
     1000 1001 []
     {| filename := Some (utf8 "label.png");
        content_type := Some (utf8 "image/png"); file_data := [137; 80; 78; 71]%N |}
     "gpt-vision" HealthMonitor.init (loaded_world scenario_rows)).2
  = HealthMonitor.init.
Proof.
  apply (ocr_success_logged_twice toy_config toy_backends
           {| pillow := λ image, Some image;
              gpt_vision := λ _, Some (utf8 " chicken ", 7);
              pytesseract := λ _, ImportError |}
           1000 1001 []
           {| filename := Some (utf8 "label.png");
              content_type := Some (utf8 "image/png");
              file_data := [137; 80; 78; 71]%N |}
           "gpt-vision" HealthMonitor.init (loaded_world scenario_rows)
           {| ocr_extracted_text := utf8 "chicken";
              ocr_translated_text := utf8 "دجاج";
              ocr_detected_language := "english";
              ocr_tokens_used := 42;
              ocr_cost_estimate := 6 # 1000000 |}).
  vm_compute. reflexivity.
Defined.


(** ** Uploading a glossary *)

(** X25.  An upload does what a load does.  For a file that passes the
    checks on type, name and size, [upload_glossary] treats the sheet
    exactly as [load_excel_glossary] does: it requests the same batches and
    leaves the same state (index, glossary, flag and counters), and, the
    history file being readable, it returns exactly when the load
    returns. *)
Theorem upload_glossary_agrees_with_load (cfg : Config) (ext : Backends)
    (create : list text → option (list (list Q)))
    (read_excel : list N → Sheet) (str_e : text) (file : UploadFile)
    (username : text) (history : HistoryFile) (w : World) :
  bad_excel_type file = false →
  bad_excel_name file = false →
  Z.of_nat (length (file_data file)) ≤ 50 * 1024 * 1024 →
  let u := upload_glossary cfg ext create read_excel str_e file username
             history w in
  let l := load_excel_glossary cfg ext create
             (frame_of (read_excel (file_data file))) w in
  upload_world u = l.1.2
  ∧ upload_batches u = l.2
  ∧ (history ≠ BadHistory →
     ((∃ message, upload_outcome u = Returned message) ↔ l.1.1 = Returned ())).
Proof.
  intros Htype Hname Hsize u l. subst u l.
  unfold upload_glossary, load_excel_glossary. rewrite Htype, Hname.
  destruct (Z.ltb_spec (50 * 1024 * 1024) (Z.of_nat (length (file_data file))));
    [lia|].
  assert (Hno : ∀ (c : Z) (d : text),
            ((∃ message : text, HTTPException c d = Returned message)
             ↔ @Exception unit = Returned ())).
  { intros c d. split; [intros [? ?]; discriminate | discriminate]. }
  destruct (read_excel (file_data file)) as [| |raw]; cbn [frame_of].
  - do 2 (split; [reflexivity|]). intros _. apply Hno.
  - do 2 (split; [reflexivity|]). intros _. apply Hno.
  - destruct (clean_rows raw) as [|row rows] eqn:Hrows.
    { do 2 (split; [reflexivity|]). intros _. apply Hno. }
    cbv iota.
    destruct (get_embeddings_batch _ _ _ _) as [[embeddings ct] sent].
    destruct embeddings as [vectors|].
    + destruct (forallb _ vectors).
      * destruct history; (split; [reflexivity|]); (split; [reflexivity|]);
          intros Hh; [| congruence |];
          (split; [reflexivity | intros _; eexists; reflexivity]).
      * do 2 (split; [reflexivity|]). intros _. apply Hno.
    + do 2 (split; [reflexivity|]). intros _. apply Hno.
Qed.

Lemma upload_glossary_agrees_with_load_witness :
  upload_world
    (upload_glossary toy_config toy_backends
       (λ batch, Some (map toy_embedding batch))
       (λ _, Columns [(utf8 " rice ", utf8 "aruzz"); (utf8 "nan", utf8 "x")])
       []
       {| filename := Some (utf8 "glossary.xlsx");
          content_type := Some (utf8 "application/vnd.ms-excel");
          file_data := [80; 75]%N |}
       (utf8 "admin") NoHistory (loaded_world scenario_rows))
  = (load_excel_glossary toy_config toy_backends
       (λ batch, Some (map toy_embedding batch))
       (frame_of (Columns [(utf8 " rice ", utf8 "aruzz"); (utf8 "nan", utf8 "x")]))
       (loaded_world scenario_rows)).1.2.
Proof.
  apply (upload_glossary_agrees_with_load toy_config toy_backends
           (λ batch, Some (map toy_embedding batch))
           (λ _, Columns [(utf8 " rice ", utf8 "aruzz"); (utf8 "nan", utf8 "x")])
           []
           {| filename := Some (utf8 "glossary.xlsx");
              content_type := Some (utf8 "application/vnd.ms-excel");
              file_data := [80; 75]%N |}
           (utf8 "admin") NoHistory (loaded_world scenario_rows)).
  -vm_compute. reflexivity.
  -vm_compute. reflexivity.
  -cbn [file_data length Z.of_nat]. lia.
Defined.

(** X26.  What an upload can do.  [upload_glossary] never lets a bare
    exception out: it returns or answers 400 or 500.  A 400 changes
    nothing: state, counters and history are as before and no embedding
    was requested.  When it returns, the state is initialized with a
    non-empty glossary, and the history is its old content (none for a
    missing file) with one entry put in front, naming the user and the
    number of glossary rows, cut to the first ten.  In every other case the
    history file is untouched; a 500 may still have replaced the glossary,
    namely when only the history file was unreadable. *)
Theorem upload_glossary_outcomes (cfg : Config) (ext : Backends)
    (create : list text → option (list (list Q)))
    (read_excel : list N → Sheet) (str_e : text) (file : UploadFile)
    (username : text) (history : HistoryFile) (w : World) :
  let u := upload_glossary cfg ext create read_excel str_e file username
             history w in
  let old := match history with History entries => entries | _ => [] end in
  ((∃ message rows,
      upload_outcome u = Returned message
      ∧ history ≠ BadHistory
      ∧ initialized (state (upload_world u)) = true
      ∧ glossary (state (upload_world u)) = Some rows ∧ rows ≠ []
      ∧ upload_history u
        = History (take 10 ({| history_filename := default [] (filename file);
                               history_entries := length rows;
                               history_user := username |} :: old)))
   ∨ (∃ detail,
        upload_outcome u = HTTPException 400 detail
        ∧ upload_world u = w ∧ upload_batches u = []
        ∧ upload_history u = history)
   ∨ (∃ detail,
        upload_outcome u = HTTPException 500 detail
        ∧ upload_history u = history
        ∧ (same_corpus w (upload_world u)
           ∨ (history = BadHistory
              ∧ initialized (state (upload_world u)) = true))))
  ∧ cost_log (upload_world u) = cost_log w
  ∧ requests_sent (upload_world u) = requests_sent w.
Proof.
  intros u old. subst u old. unfold upload_glossary.
  assert (Hcorpus : ∀ ct, same_corpus w (with_cost_tracker ct w)).
  { intros ct. by repeat split. }
  assert (Hself : same_corpus w w) by (by repeat split).
  destruct (bad_excel_type file).
  {split; [|split; reflexivity]. right; left. eexists.
    repeat split; reflexivity. }
  destruct (bad_excel_name file).
  { split; [|split; reflexivity]. right; left. eexists.
    repeat split; reflexivity. }
  destruct (_ <? _).
  { split; [|split; reflexivity]. right; left. eexists.
    repeat split; reflexivity. }
  destruct (read_excel (file_data file)) as [| |raw].
  {split; [|split; reflexivity]. right; right. eexists.
    split; [reflexivity|]. split; [reflexivity|]. left. exact Hself. }
  { split; [|split; reflexivity]. right; left. eexists.
    repeat split; reflexivity. }
  destruct (clean_rows raw) as [|row rows] eqn:Hrows.
  { split; [|split; reflexivity]. right; left. eexists.
    repeat split; reflexivity. }
  cbv iota.
  destruct (get_embeddings_batch _ _ _ _) as [[embeddings ct] sent].
  destruct embeddings as [vectors|].
  - destruct (forallb _ vectors).
    +destruct history; (split; [|split; reflexivity]).
      * left. eexists _, (row :: rows).
        split; [reflexivity|]. split; [discriminate|].
        split; [reflexivity|]. split; [reflexivity|].
        split; [discriminate | reflexivity].
      * right; right. eexists. split; [reflexivity|]. split; [reflexivity|].
        right. split; reflexivity.
      * left. eexists _, (row :: rows).
        split; [reflexivity|]. split; [discriminate|].
        split; [reflexivity|]. split; [reflexivity|].
        split; [discriminate | reflexivity].
    + split; [|split; reflexivity]. right; right. eexists.
      split; [reflexivity|]. split; [reflexivity|]. left. apply Hcorpus.
  - split; [|split; reflexivity]. right; right. eexists.
    split; [reflexivity|]. split; [reflexivity|]. left. apply Hcorpus.
Qed.

(** ** Who a request is counted for *)

Lemma rate_limit_dependency_decides (cfg : Config) (now : Q)
    (request : RequestInfo) (endpoint : string) (limit : option Z)
    (st : RateLimiter.storage) :
  let r := rate_limit_dependency cfg now request endpoint limit st in
  let a := RateLimiter.is_allowed cfg now (get_client_ip request) endpoint
             limit None st in
  r.2 = a.2
  ∧ r.1 = (if a.1 then Passed (get_client_ip request)
           else TooMany 429 (utf8 "Rate limit exceeded. Please try again later.")
                  (RATE_LIMIT_WINDOW cfg)).
Proof.
  cbv zeta. unfold rate_limit_dependency.
  destruct (RateLimiter.is_allowed _ _ _ _ _ _ _) as [[] st']; done.
Qed.

(** X27.  The limiter counts a request for whoever its headers name.  A
    non-empty [X-Forwarded-For] decides the client: its first
    comma-separated entry, stripped, whatever [X-Real-IP] and the peer
    address are.  So two requests whose headers name different clients
    draw on different budgets even when they come from the same peer: with
    a colon-free endpoint name, whatever the first did, refusals included,
    the second is decided as if the first had not happened.  A refusal has
    status 429 and tells the client to retry after the configured window;
    it leaves no stamp in the deque, which only loses its expired
    entries. *)
Theorem forwarded_header_selects_budget (cfg : Config) (now now' : Q)
    (request request' : RequestInfo) (endpoint : string)
    (limit limit' : option Z) (st : RateLimiter.storage)
    (a a' : Ascii.ascii)
    (f f' : string) :
  x_forwarded_for request = Some (String a f) →
  x_forwarded_for request' = Some (String a' f') →
  strip_string (before_comma (String a f))
  ≠ strip_string (before_comma (String a' f')) →
  colon_free endpoint = true →
  let r := rate_limit_dependency cfg now request endpoint limit st in
  get_client_ip request = strip_string (before_comma (String a f))
  ∧ (rate_limit_dependency cfg now' request' endpoint limit' r.2).1
    = (rate_limit_dependency cfg now' request' endpoint limit' st).1
  ∧ (∀ status detail retry_after,
       r.1 = TooMany status detail retry_after →
       status = 429 ∧ retry_after = RATE_LIMIT_WINDOW cfg
       ∧ r.2 !! RateLimiter.make_key (get_client_ip request) endpoint
         = Some (RateLimiter.clean_old
                   (now - inject_Z (RATE_LIMIT_WINDOW cfg))
                   (default [] (st !! RateLimiter.make_key
                                         (get_client_ip request) endpoint)))).
Proof.
  intros Hf Hf' Hne He r. subst r.
  assert (Hip : get_client_ip request = strip_string (before_comma (String a f))).
  { unfold get_client_ip. by rewrite Hf. }
  assert (Hip' : get_client_ip request'
                 = strip_string (before_comma (String a' f'))).
  { unfold get_client_ip. by rewrite Hf'. }
  split; [exact Hip|].
  destruct (rate_limit_dependency_decides cfg now request endpoint limit st)
    as [Hst Hout]. cbv zeta in Hst, Hout.
  split.
  - destruct (rate_limit_dependency_decides cfg now' request' endpoint limit'
                (rate_limit_dependency cfg now request endpoint limit st).2)
      as [_ ->].
    destruct (rate_limit_dependency_decides cfg now' request' endpoint limit' st)
      as [_ ->].
    rewrite Hst.
    assert (Hkey : RateLimiter.make_key (get_client_ip request) endpoint
                   ≠ RateLimiter.make_key (get_client_ip request') endpoint).
    { intros Hk. apply Hne. rewrite <- Hip, <- Hip'.
      by destruct (make_key_inj _ _ _ _ He He Hk). }
    assert (Hframe :
      (RateLimiter.is_allowed cfg now (get_client_ip request) endpoint limit
         None st).2 !! RateLimiter.make_key (get_client_ip request') endpoint
      = st !! RateLimiter.make_key (get_client_ip request') endpoint).
    { unfold RateLimiter.is_allowed. cbv zeta.
      destruct (_ >=? _); simpl; by rewrite lookup_insert_ne. }
    unfold RateLimiter.is_allowed at 1 3. cbv zeta. rewrite Hframe.
    by destruct (_ >=? _).
  - intros status detail retry_after Hr. rewrite Hout in Hr. rewrite Hst.
    unfold RateLimiter.is_allowed in *. cbv zeta in *.
    destruct (_ >=? _); cbn [fst snd] in *; [|discriminate].
    injection Hr as <- _ <-. split; [done|]. split; [done|].
    by rewrite lookup_insert_eq.
Qed.

Lemma forwarded_header_selects_budget_witness :
  (rate_limit_dependency config 1
     {| x_forwarded_for := Some "198.51.100.9, 10.0.0.1";
        x_real_ip := None; client_host := Some "10.0.0.1" |}
     "login" (Some 1)
     (rate_limit_dependency config 0
        {| x_forwarded_for := Some " 203.0.113.7 ,10.0.0.1";
           x_real_ip := None; client_host := Some "10.0.0.1" |}
        "login" (Some 1) ∅).2).1
  = (rate_limit_dependency config 1
       {| x_forwarded_for := Some "198.51.100.9, 10.0.0.1";
          x_real_ip := None; client_host := Some "10.0.0.1" |}
       "login" (Some 1) ∅).1.
Proof.
  apply (forwarded_header_selects_budget config 0 1
           {| x_forwarded_for := Some " 203.0.113.7 ,10.0.0.1";
              x_real_ip := None; client_host := Some "10.0.0.1" |}
           {| x_forwarded_for := Some "198.51.100.9, 10.0.0.1";
              x_real_ip := None; client_host := Some "10.0.0.1" |}
           "login" (Some 1) (Some 1) ∅
           (Ascii.ascii_of_N 32) (Ascii.ascii_of_N 49)
           "203.0.113.7 ,10.0.0.1" "98.51.100.9, 10.0.0.1").
  - reflexivity.
  - reflexivity.
  - vm_compute. discriminate.
  - reflexivity.
Defined.
